(** * Data Alchemist: validation, edit parsing and the AI gateway

    A shallow embedding of the deterministic core of the repository:

    - [utils/validators.ts]           (module [Validators]),
    - the natural-language editor     (module [NaturalLanguageEditor]),
    - the AI gateway and its provider (modules [Gemini] and [AI]),
    - the auto-fix panel              (module [AutoFixPanel]),
    - the search component            (module [NaturalLanguageSearch]),
    - the error summary of the page   (module [Page]),
    - the API routes                  (module [Routes]).

    The JavaScript runtime the code relies on (strings, numbers, objects
    and what they inherit, regular expressions, JSON) is embedded first,
    in module [JS]. *)

From Stdlib Require Import ZArith NArith List String Ascii Bool Lia.
From Stdlib Require Import Floats.SpecFloat.
From stdpp Require Import base option list gmap.

Set Default Proof Using "Type".
Local Open Scope Z_scope.

(** ** The JavaScript runtime *)

Module JS.

(** *** Strings

    A JavaScript string is a sequence of UTF-16 code units; a code unit is
    kept as its number. [js] reads a literal. *)

Abbreviation jsstring := (list N).

Definition js (s : string) : jsstring :=
  map N_of_ascii (list_ascii_of_string s).
Arguments js s : simpl never.

Definition ch (a : ascii) : N := N_of_ascii a.
Arguments ch a%_char.

Definition between (lo hi c : N) : bool := (lo <=? c)%N && (c <=? hi)%N.

Fixpoint str_eqb (s t : jsstring) : bool :=
  match s, t with
  | [], [] => true
  | c :: s', d :: t' => (c =? d)%N && str_eqb s' t'
  | _, _ => false
  end.

(** WhiteSpace and LineTerminator code points (ECMA-262, 12.2 and 12.3);
    [String.prototype.trim], [Number] and the class [\s] all use this set. *)
Definition isWhiteSpace (c : N) : bool :=
  (between 9 13 c || (c =? 32) || (c =? 160) || (c =? 5760)
   || between 8192 8202 c || (c =? 8232) || (c =? 8233) || (c =? 8239)
   || (c =? 8287) || (c =? 12288) || (c =? 65279))%N.

Definition isDigit (c : N) : bool := between 48 57 c.

(** [\w] is [A-Za-z0-9_]. *)
Definition isWordChar (c : N) : bool :=
  between 65 90 c || between 97 122 c || isDigit c || (c =? 95)%N.

(** The lower-case form of a code unit of Basic Latin and Latin-1: A-Z and
    U+00C0..U+00DE without the multiplication sign have one, 32 further
    on. *)
Definition lowerChar (c : N) : N :=
  if between 65 90 c || (between 192 222 c && negb (c =? 215)%N)
  then (c + 32)%N else c.

Definition isLatin1 (s : jsstring) : bool :=
  forallb (fun c => (c <? 256)%N) s.

(** Beyond Latin-1 the lower-case form of a text is read off the Unicode
    tables of the engine, which are no part of the repository, and not one
    code unit at a time (U+0130 gives two code units, a capital sigma
    depends on its place in the word, a letter of a supplementary plane is
    a pair of code units).  What the engine makes of a text that leaves
    Latin-1 is taken as given. *)
Class CaseMapping := {
  lowerBeyondLatin1 : jsstring -> jsstring
}.

(** [s.toLowerCase()] *)
Definition toLowerCase `{CaseMapping} (s : jsstring) : jsstring :=
  if isLatin1 s then map lowerChar s else lowerBeyondLatin1 s.

Fixpoint trimStart (s : jsstring) : jsstring :=
  match s with
  | c :: s' => if isWhiteSpace c then trimStart s' else s
  | [] => []
  end.

Definition trimEnd (s : jsstring) : jsstring := rev (trimStart (rev s)).

Definition trim (s : jsstring) : jsstring := trimEnd (trimStart s).

Fixpoint startsWith (s p : jsstring) {struct p} : bool :=
  match p with
  | [] => true
  | d :: p' =>
      match s with
      | c :: s' => (c =? d)%N && startsWith s' p'
      | [] => false
      end
  end.

Definition endsWith (s p : jsstring) : bool := startsWith (rev s) (rev p).

Fixpoint includes (s p : jsstring) : bool :=
  startsWith s p ||
  match s with
  | [] => false
  | _ :: s' => includes s' p
  end.

(** [s.split(sep)] for a separator of one code unit: the pieces between the
    separators, in order; never the empty list. *)
Fixpoint split (sep : N) (s : jsstring) : list jsstring :=
  match s with
  | [] => [[]]
  | c :: s' =>
      if (c =? sep)%N then [] :: split sep s'
      else match split sep s' with
           | piece :: rest => (c :: piece) :: rest
           | [] => [[c]]
           end
  end.

(** A text between double quotes. *)
Definition quoted (s : jsstring) : jsstring := 34%N :: s ++ [34%N].

(** *** Numbers

    A Number is an IEEE 754 binary64 value, kept in the form the standard
    library specifies floating point with: sign, mantissa and exponent, and
    always normalised ([prec = 53], [emax = 1024]). *)

Abbreviation number := spec_float.

Definition prec : Z := 53.
Definition emax : Z := 1024.

Definition NaN : number := S754_nan.
Definition Infinity (neg : bool) : number := S754_infinity neg.

(** The Number nearest to the integer [z] (ties to even). *)
Definition of_Z (z : Z) : number := binary_normalize prec emax z 0 false.

(** The Number nearest to [m * 10^e], with sign [neg]. *)
Definition of_decimal (neg : bool) (m : N) (e : Z) : number :=
  match m with
  | N0 => S754_zero neg
  | Npos p =>
      if 0 <=? e then binary_round prec emax neg (p * Z.to_pos (10 ^ e)) 0
      else
        let '(q, e', l) :=
          SFdiv_core_binary prec emax (Zpos p) 0 (10 ^ (- e)) 0 in
        binary_round_aux prec emax neg q e' l
  end.

Definition isNaN (x : number) : bool :=
  match x with S754_nan => true | _ => false end.

Definition num_lt (x y : number) : bool := SFltb x y.
Definition num_gt (x y : number) : bool := SFltb y x.
Definition num_eq (x y : number) : bool := SFeqb x y.

(** **** StringToNumber (ECMA-262, 7.1.4.1) *)

Fixpoint span (p : N -> bool) (s : jsstring) : jsstring * jsstring :=
  match s with
  | c :: s' =>
      if p c then let '(a, b) := span p s' in (c :: a, b) else ([], s)
  | [] => ([], [])
  end.

Definition digitVal (c : N) : option N :=
  if between 48 57 c then Some (c - 48)%N
  else if between 97 102 c then Some (c - 87)%N
  else if between 65 70 c then Some (c - 55)%N
  else None.

(** All of [s] read as digits in [base]; [None] when some code unit is not
    a digit of that base. *)
Fixpoint readInt (base : N) (acc : N) (s : jsstring) : option N :=
  match s with
  | [] => Some acc
  | c :: s' =>
      match digitVal c with
      | Some d => if (d <? base)%N then readInt base (acc * base + d)%N s'
                  else None
      | None => None
      end
  end.

Definition readDigits (base : N) (s : jsstring) : option N :=
  match s with
  | [] => None
  | _ => readInt base 0%N s
  end.

(** NonDecimalIntegerLiteral: [0x], [0o] and [0b] prefixes, no sign. *)
Definition radixPrefix (s : jsstring) : option (N * jsstring) :=
  match s with
  | 48%N :: x :: rest =>
      if (x =? ch "x")%N || (x =? ch "X")%N then Some (16%N, rest)
      else if (x =? ch "o")%N || (x =? ch "O")%N then Some (8%N, rest)
      else if (x =? ch "b")%N || (x =? ch "B")%N then Some (2%N, rest)
      else None
  | _ => None
  end.

(** StrUnsignedDecimalLiteral without [Infinity]: the digits as one integer
    and the power of ten to scale it by. *)
Definition strUnsignedDecimal (s : jsstring) : option (N * Z) :=
  let '(ip, r1) := span isDigit s in
  let '(fp, r2) :=
    match r1 with
    | 46%N :: r => span isDigit r
    | _ => ([], r1)
    end in
  let dotOnly := match r1 with 46%N :: _ => true | _ => false end in
  match ip, fp with
  | [], [] => None
  | _, _ =>
      match readInt 10 0%N (ip ++ fp) with
      | None => None
      | Some m =>
          let scale := Z.of_nat (length fp) in
          match r2 with
          | [] => Some (m, - scale)
          | c :: r3 =>
              if (c =? ch "e")%N || (c =? ch "E")%N then
                let '(eneg, r4) :=
                  match r3 with
                  | 43%N :: r => (false, r)
                  | 45%N :: r => (true, r)
                  | _ => (false, r3)
                  end in
                match readDigits 10 r4 with
                | Some x =>
                    let ex := Z.of_N x in
                    Some (m, (if eneg then - ex else ex) - scale)
                | None => None
                end
              else None
          end
      end
  end.

Definition strDecimal (s : jsstring) : number :=
  let '(neg, r) :=
    match s with
    | 43%N :: r => (false, r)
    | 45%N :: r => (true, r)
    | _ => (false, s)
    end in
  if str_eqb r (js "Infinity") then Infinity neg
  else match strUnsignedDecimal r with
       | Some (m, e) => of_decimal neg m e
       | None => NaN
       end.

Definition StringToNumber (s : jsstring) : number :=
  let t := trim s in
  match t with
  | [] => S754_zero false
  | _ =>
      match radixPrefix t with
      | Some (base, digits) =>
          match readDigits base digits with
          | Some v => of_Z (Z.of_N v)
          | None => NaN
          end
      | None => strDecimal t
      end
  end.

(** **** Number::toString (ECMA-262, 6.1.6.1.20), radix 10 *)

Fixpoint decimalDigits (fuel : nat) (n : N) (acc : jsstring) : jsstring :=
  match fuel with
  | O => acc
  | S f =>
      let acc' := (48 + n mod 10)%N :: acc in
      if (n / 10 =? 0)%N then acc' else decimalDigits f (n / 10)%N acc'
  end.

Definition NToString (n : N) : jsstring :=
  decimalDigits (S (N.to_nat (N.size n))) n [].

(** A positive finite Number as an exact fraction. *)
Definition fraction (m : positive) (e : Z) : Z * Z :=
  if 0 <=? e then (Zpos m * 2 ^ e, 1) else (Zpos m, 2 ^ (- e)).

Definition scale10 (x : Z * Z) (j : Z) : Z * Z :=
  let '(a, b) := x in
  if 0 <=? j then (a * 10 ^ j, b) else (a, b * 10 ^ (- j)).

(** The least [n], counting up from the start value, with [x < 10^n]. *)
Fixpoint decimalExponent (fuel : nat) (n : Z) (x : Z * Z) : Z :=
  match fuel with
  | O => n
  | S f =>
      let '(a, b) := scale10 x (- n) in
      if a <? b then n else decimalExponent f (n + 1) x
  end.

(** The shortest digit string [s] of [k] digits with [s * 10^(n-k)]
    reading back as [x]; of the two integers around [x / 10^(n-k)] the
    nearer one is taken, the even one on a tie.  Seventeen digits always
    identify a binary64 value, so the fuel does not run out. *)
Fixpoint shortestDigits (fuel : nat) (k n : Z) (x : number) (xq : Z * Z)
  : Z * Z :=
  match fuel with
  | O => (0, k)
  | S f =>
      let '(a, b) := scale10 xq (k - n) in
      let lo := a / b in
      let hi := if a mod b =? 0 then lo else lo + 1 in
      let reads s := num_eq (of_decimal false (Z.to_N s) (n - k)) x in
      let dlo := a - lo * b in
      let dhi := hi * b - a in
      match reads lo, reads hi with
      | true, true =>
          if dlo <? dhi then (lo, k)
          else if dhi <? dlo then (hi, k)
          else if Z.even lo then (lo, k) else (hi, k)
      | true, false => (lo, k)
      | false, true => (hi, k)
      | false, false => shortestDigits f (k + 1) n x xq
      end
  end.

Definition zeros (n : Z) : jsstring := repeat 48%N (Z.to_nat n).

Definition formatDigits (digits : jsstring) (n : Z) : jsstring :=
  let k := Z.of_nat (length digits) in
  if (k <=? n) && (n <=? 21) then digits ++ zeros (n - k)
  else if (0 <? n) && (n <=? 21) then
    firstn (Z.to_nat n) digits ++ js "." ++ skipn (Z.to_nat n) digits
  else if (-6 <? n) && (n <=? 0) then js "0." ++ zeros (- n) ++ digits
  else
    let e := n - 1 in
    let expo := (if 0 <=? e then js "e+" else js "e-")
                ++ NToString (Z.abs_N e) in
    match digits with
    | [d] => d :: expo
    | d :: rest => d :: js "." ++ rest ++ expo
    | [] => expo
    end.

Definition NumberToString (x : number) : jsstring :=
  match x with
  | S754_nan => js "NaN"
  | S754_zero _ => js "0"
  | S754_infinity neg => (if neg then js "-" else []) ++ js "Infinity"
  | S754_finite neg m e =>
      let xq := fraction m e in
      let n := decimalExponent 640 (-324) xq in
      let '(s, k) := shortestDigits 17 1 n (S754_finite false m e) xq in
      let '(s, n) := if s =? 10 ^ k then (1, n + 1) else (s, n) in
      (if neg then js "-" else []) ++ formatDigits (NToString (Z.to_N s)) n
  end.

(** *** Values

    The values a cell of a row holds are scalars, the primitive values of
    the language: a parsed CSV file gives strings, a spreadsheet numbers
    and booleans as well.  Reading a property of a row can also give one
    of the objects that every row inherits from [Object.prototype]: its
    methods, the function [Object] under [constructor], and the prototype
    itself under [__proto__]. *)

Inductive builtin :=
| ObjectPrototype
| ObjectConstructor
| HasOwnProperty
| IsPrototypeOf
| PropertyIsEnumerable
| ToLocaleStringMethod
| ToStringMethod
| ValueOfMethod
| DefineGetter
| DefineSetter
| LookupGetter
| LookupSetter.

(** The name of a built-in function; the prototype is no function. *)
Definition functionName (b : builtin) : option jsstring :=
  match b with
  | ObjectPrototype => None
  | ObjectConstructor => Some (js "Object")
  | HasOwnProperty => Some (js "hasOwnProperty")
  | IsPrototypeOf => Some (js "isPrototypeOf")
  | PropertyIsEnumerable => Some (js "propertyIsEnumerable")
  | ToLocaleStringMethod => Some (js "toLocaleString")
  | ToStringMethod => Some (js "toString")
  | ValueOfMethod => Some (js "valueOf")
  | DefineGetter => Some (js "__defineGetter__")
  | DefineSetter => Some (js "__defineSetter__")
  | LookupGetter => Some (js "__lookupGetter__")
  | LookupSetter => Some (js "__lookupSetter__")
  end.

(** The built-in objects are twelve different objects. *)
Definition sameBuiltin (a b : builtin) : bool :=
  match a, b with
  | ObjectPrototype, ObjectPrototype
  | ObjectConstructor, ObjectConstructor
  | HasOwnProperty, HasOwnProperty
  | IsPrototypeOf, IsPrototypeOf
  | PropertyIsEnumerable, PropertyIsEnumerable
  | ToLocaleStringMethod, ToLocaleStringMethod
  | ToStringMethod, ToStringMethod
  | ValueOfMethod, ValueOfMethod
  | DefineGetter, DefineGetter
  | DefineSetter, DefineSetter
  | LookupGetter, LookupGetter
  | LookupSetter, LookupSetter => true
  | _, _ => false
  end.

Inductive value :=
| VUndefined
| VNull
| VBool (b : bool)
| VNumber (x : number)
| VString (s : jsstring)
| VBuiltin (b : builtin).

Definition ToBoolean (v : value) : bool :=
  match v with
  | VUndefined | VNull => false
  | VBool b => b
  | VNumber (S754_zero _) | VNumber S754_nan => false
  | VNumber _ => true
  | VString [] => false
  | VString _ => true
  | VBuiltin _ => true
  end.

(** [String(v)].  A built-in function prints as V8 and JavaScriptCore
    print it; the standard leaves the white space of that text to the
    engine, and asks for the words [native code] between brackets. *)
Definition ToString (v : value) : jsstring :=
  match v with
  | VUndefined => js "undefined"
  | VNull => js "null"
  | VBool b => if b then js "true" else js "false"
  | VNumber x => NumberToString x
  | VString s => s
  | VBuiltin b =>
      match functionName b with
      | Some name => js "function " ++ name ++ js "() { [native code] }"
      | None => js "[object Object]"
      end
  end.

(** [Number(v)]; an object is converted through its text. *)
Definition ToNumber (v : value) : number :=
  match v with
  | VUndefined => NaN
  | VNull => S754_zero false
  | VBool b => if b then of_Z 1 else S754_zero false
  | VNumber x => x
  | VString s => StringToNumber s
  | VBuiltin _ => StringToNumber (ToString v)
  end.

(** [v === w] *)
Definition strictEquals (v w : value) : bool :=
  match v, w with
  | VUndefined, VUndefined | VNull, VNull => true
  | VBool a, VBool b => Bool.eqb a b
  | VNumber x, VNumber y => num_eq x y
  | VString s, VString t => str_eqb s t
  | VBuiltin a, VBuiltin b => sameBuiltin a b
  | _, _ => false
  end.

(** SameValueZero, the equality of [Set] and [Map] keys: as [===], but
    [NaN] is the same value as [NaN]. *)
Definition SameValueZero (v w : value) : bool :=
  match v, w with
  | VNumber S754_nan, VNumber S754_nan => true
  | _, _ => strictEquals v w
  end.

Definition isString (v : value) : bool :=
  match v with VString _ => true | _ => false end.

(** A row is a plain object, as the parsers of the uploaded files create
    it: the finite map of its own properties, column name to cell, with
    [Object.prototype] as its prototype. *)
Abbreviation Row := (gmap (list N) value).

(** The properties of [Object.prototype]. *)
Definition inheritedProperties : list (jsstring * builtin) :=
  [ (js "constructor", ObjectConstructor);
    (js "hasOwnProperty", HasOwnProperty);
    (js "isPrototypeOf", IsPrototypeOf);
    (js "propertyIsEnumerable", PropertyIsEnumerable);
    (js "toLocaleString", ToLocaleStringMethod);
    (js "toString", ToStringMethod);
    (js "valueOf", ValueOfMethod);
    (js "__proto__", ObjectPrototype);
    (js "__defineGetter__", DefineGetter);
    (js "__defineSetter__", DefineSetter);
    (js "__lookupGetter__", LookupGetter);
    (js "__lookupSetter__", LookupSetter) ].

Fixpoint inheritedFrom (props : list (jsstring * builtin)) (key : jsstring)
  : option builtin :=
  match props with
  | [] => None
  | (k, b) :: rest => if str_eqb key k then Some b else inheritedFrom rest key
  end.

Definition inherited : jsstring -> option builtin :=
  inheritedFrom inheritedProperties.

(** [row[key]]: the cell of the row, or else what the row inherits under
    the name, or else [undefined]. *)
Definition getProp (row : Row) (key : jsstring) : value :=
  match row !! key with
  | Some v => v
  | None =>
      match inherited key with
      | Some b => VBuiltin b
      | None => VUndefined
      end
  end.

(** [row[key] = v].  The assignment writes the cell of the row, and makes
    one when the row has none; the properties that the row inherits are
    writable and do not stand in its way.  The one exception is
    [__proto__], which is inherited as a setter: on a row without a cell
    of that name the assignment runs the setter, and the setter makes no
    cell.  (Given a scalar other than [null] the setter does nothing at
    all.  Given [null] it takes the prototype from the row, which then
    inherits nothing; the cells of the row are all that is kept of a row
    here, and they stay as they are.) *)
Definition setProp (row : Row) (key : jsstring) (v : value) : Row :=
  match row !! key with
  | Some _ => <[key := v]> row
  | None => if str_eqb key (js "__proto__") then row else <[key := v]> row
  end.

(** *** Exceptions

    A computation either returns or throws; the message of the error is all
    that is kept of it. *)

Inductive completion (A : Type) :=
| Return (a : A)
| Throw (error : jsstring).
Arguments Return {A} a.
Arguments Throw {A} error.

Definition bind {A B} (c : completion A) (f : A -> completion B)
  : completion B :=
  match c with
  | Return a => f a
  | Throw e => Throw e
  end.

(** [try { c } catch { h }] *)
Definition try_catch {A} (c : completion A) (h : jsstring -> completion A)
  : completion A :=
  match c with
  | Return a => Return a
  | Throw e => h e
  end.

(** *** Regular expressions

    A backtracking matcher in continuation-passing style, after the
    pattern semantics of ECMA-262, 22.2.2.  A match state is a position in
    the subject, held as the text before it (nearest code unit first) and
    the text after it. *)

Inductive regex :=
| Eps
| Chr (p : N -> bool)
| Seq (a b : regex)
| Alt (a b : regex)
| Star (a : regex)
| Group (i : nat) (a : regex)
| Bol
| Eol
| Ahead (a : regex)
| Behind (a : regex).

Record mstate := MState { before : jsstring; after : jsstring }.

Abbreviation captures := (list (nat * jsstring)).

Definition position (st : mstate) : nat := length (before st).

Definition step (fwd : bool) (st : mstate) : option (N * mstate) :=
  if fwd then
    match after st with
    | c :: r => Some (c, MState (c :: before st) r)
    | [] => None
    end
  else
    match before st with
    | c :: r => Some (c, MState r (c :: after st))
    | [] => None
    end.

Definition room (fwd : bool) (st : mstate) : nat :=
  if fwd then length (after st) else length (before st).

(** The text between two states of one subject. *)
Definition between_states (st st' : mstate) : jsstring :=
  if (position st <=? position st')%nat
  then firstn (position st' - position st) (after st)
  else firstn (position st - position st') (after st').

Abbreviation continuation :=
  (mstate -> captures -> option (mstate * captures)).

(** A greedy star takes an iteration first and gives it back on failure;
    an iteration that consumes nothing is refused, so the iterations are
    bounded by the text that is left, which is the fuel [n]. *)
Fixpoint starLoop (body : mstate -> captures -> continuation ->
                          option (mstate * captures))
    (k : continuation) (n : nat) (st : mstate) (caps : captures)
  : option (mstate * captures) :=
  match n with
  | O => k st caps
  | S n' =>
      match body st caps
              (fun st' caps' =>
                 if (position st' =? position st)%nat then None
                 else starLoop body k n' st' caps') with
      | Some m => Some m
      | None => k st caps
      end
  end.

Fixpoint run (r : regex) (fwd : bool) (st : mstate) (caps : captures)
    (k : continuation) : option (mstate * captures) :=
  match r with
  | Eps => k st caps
  | Chr p =>
      match step fwd st with
      | Some (c, st') => if p c then k st' caps else None
      | None => None
      end
  | Seq a b =>
      if fwd
      then run a fwd st caps (fun st' caps' => run b fwd st' caps' k)
      else run b fwd st caps (fun st' caps' => run a fwd st' caps' k)
  | Alt a b =>
      match run a fwd st caps k with
      | Some m => Some m
      | None => run b fwd st caps k
      end
  | Star a => starLoop (run a fwd) k (room fwd st) st caps
  | Group i a =>
      run a fwd st caps
        (fun st' caps' => k st' ((i, between_states st st') :: caps'))
  | Bol => match before st with [] => k st caps | _ :: _ => None end
  | Eol => match after st with [] => k st caps | _ :: _ => None end
  | Ahead a =>
      match run a true st caps (fun st' caps' => Some (st', caps')) with
      | Some (_, caps') => k st caps'
      | None => None
      end
  | Behind a =>
      match run a false st caps (fun st' caps' => Some (st', caps')) with
      | Some (_, caps') => k st caps'
      | None => None
      end
  end.

Record match_result := MatchResult {
  match_start : mstate;
  match_end : mstate;
  match_groups : captures
}.

(** The leftmost match at or after the given position. *)
Fixpoint search (r : regex) (bef aft : jsstring) : option match_result :=
  let st := MState bef aft in
  match run r true st [] (fun st' caps => Some (st', caps)) with
  | Some (st', caps) => Some (MatchResult st st' caps)
  | None =>
      match aft with
      | [] => None
      | c :: aft' => search r (c :: bef) aft'
      end
  end.

(** [s.match(r)] for a pattern without the [g] flag. *)
Definition exec (r : regex) (s : jsstring) : option match_result :=
  search r [] s.

(** [r.test(s)] *)
Definition test (r : regex) (s : jsstring) : bool :=
  match exec r s with Some _ => true | None => false end.

(** The text of group [i] of a match; a group that took no part reads as
    the empty text here. *)
Fixpoint group (i : nat) (caps : captures) : jsstring :=
  match caps with
  | [] => []
  | (j, s) :: rest => if (i =? j)%nat then s else group i rest
  end.

(** [s.replace(r, repl)] for a pattern with the [g] flag and a replacement
    text without [$]: every match, left to right, none overlapping. *)
Fixpoint replaceFrom (fuel : nat) (r : regex) (repl : jsstring)
    (st : mstate) : jsstring :=
  match fuel with
  | O => after st
  | S f =>
      match search r (before st) (after st) with
      | None => after st
      | Some m =>
          let skipped := between_states st (match_start m) in
          let e := match_end m in
          if (position e =? position (match_start m))%nat then
            match after e with
            | [] => skipped ++ repl
            | c :: rest =>
                skipped ++ repl ++
                c :: replaceFrom f r repl (MState (c :: before e) rest)
            end
          else skipped ++ repl ++ replaceFrom f r repl e
      end
  end.

Definition replaceAll (r : regex) (repl : jsstring) (s : jsstring)
  : jsstring :=
  replaceFrom (S (length s)) r repl (MState [] s).

(** Pattern atoms. *)

Definition plus (a : regex) : regex := Seq a (Star a).

Fixpoint seqs (rs : list regex) : regex :=
  match rs with
  | [] => Eps
  | [a] => a
  | a :: rest => Seq a (seqs rest)
  end.

(** A literal text. *)
Definition lit (s : jsstring) : regex :=
  seqs (map (fun c => Chr (N.eqb c)) s).

(** Canonicalize of the [i] flag (without [u]): the upper-case form of a
    code unit.  A code unit outside Basic Latin is never mapped into it, so
    for the patterns below, whose letters are all Basic Latin, only the
    Basic Latin part of the mapping decides a match. *)
Definition canonicalize (c : N) : N :=
  if between 97 122 c || (between 224 254 c && negb (c =? 247)%N)
  then (c - 32)%N else c.

(** A literal text under the [i] flag. *)
Definition lit_i (s : jsstring) : regex :=
  seqs (map (fun c => Chr (fun d => (canonicalize d =? canonicalize c)%N)) s).

Definition isLineTerminator (c : N) : bool :=
  ((c =? 10) || (c =? 13) || (c =? 8232) || (c =? 8233))%N.

Definition class_s : regex := Chr isWhiteSpace.
Definition class_not_s : regex := Chr (fun c => negb (isWhiteSpace c)).
Definition class_w : regex := Chr isWordChar.
Definition class_d : regex := Chr isDigit.
Definition dot : regex := Chr (fun c => negb (isLineTerminator c)).

(** *** JSON *)

#[local] Unset Elimination Schemes.
Inductive json :=
| JNull
| JBool (b : bool)
| JNumber (x : number)
| JString (s : jsstring)
| JArray (items : list json)
| JObject (props : list (jsstring * json)).
#[local] Set Elimination Schemes.

(** An array index is the canonical decimal form of an integer below
    [2^32 - 1]; an object lists such keys first, in ascending order, and
    then the other keys in the order of their creation. *)
Definition arrayIndex (k : jsstring) : option N :=
  match k with
  | [] => None
  | c :: rest =>
      if (c =? 48)%N && negb (Nat.eqb (length rest) 0) then None
      else if forallb isDigit k then
        match readInt 10 0%N k with
        | Some n => if (n <? 4294967295)%N then Some n else None
        | None => None
        end
      else None
  end.

Fixpoint insertIndex (i : N) (k : jsstring) (v : json)
    (props : list (jsstring * json)) : list (jsstring * json) :=
  match props with
  | [] => [(k, v)]
  | (k', v') :: rest =>
      match arrayIndex k' with
      | Some j => if (i <? j)%N then (k, v) :: props
                  else (k', v') :: insertIndex i k v rest
      | None => (k, v) :: props
      end
  end.

Fixpoint hasKey (k : jsstring) (props : list (jsstring * json)) : bool :=
  match props with
  | [] => false
  | (k', _) :: rest => str_eqb k k' || hasKey k rest
  end.

Fixpoint replaceProp (k : jsstring) (v : json)
    (props : list (jsstring * json)) : list (jsstring * json) :=
  match props with
  | [] => []
  | (k', v') :: rest =>
      if str_eqb k k' then (k', v) :: rest
      else (k', v') :: replaceProp k v rest
  end.

(** [obj[k] = v] on a plain object. *)
Definition defineProp (k : jsstring) (v : json)
    (props : list (jsstring * json)) : list (jsstring * json) :=
  if hasKey k props then replaceProp k v props
  else match arrayIndex k with
       | Some i => insertIndex i k v props
       | None => props ++ [(k, v)]
       end.

Fixpoint lookupProp (k : jsstring) (props : list (jsstring * json))
  : option json :=
  match props with
  | [] => None
  | (k', v) :: rest => if str_eqb k k' then Some v else lookupProp k rest
  end.

(** **** JSON.parse *)

Definition isJsonSpace (c : N) : bool :=
  ((c =? 32) || (c =? 9) || (c =? 10) || (c =? 13))%N.

Fixpoint skipSpace (s : jsstring) : jsstring :=
  match s with
  | c :: s' => if isJsonSpace c then skipSpace s' else s
  | [] => []
  end.

(** Four hexadecimal digits. *)
Definition hex4 (s : jsstring) : option (N * jsstring) :=
  match s with
  | a :: b :: c :: d :: rest =>
      match digitVal a, digitVal b, digitVal c, digitVal d with
      | Some x, Some y, Some z, Some w =>
          Some (((x * 16 + y) * 16 + z) * 16 + w, rest)%N
      | _, _, _, _ => None
      end
  | _ => None
  end.

Definition escapeChar (c : N) : option N :=
  if (c =? 34)%N then Some c
  else if (c =? ch "\")%N then Some c
  else if (c =? ch "/")%N then Some c
  else if (c =? ch "b")%N then Some 8%N
  else if (c =? ch "f")%N then Some 12%N
  else if (c =? ch "n")%N then Some 10%N
  else if (c =? ch "r")%N then Some 13%N
  else if (c =? ch "t")%N then Some 9%N
  else None.

(** The rest of a string literal, after its opening quote. *)
Fixpoint parseString (fuel : nat) (s acc : jsstring)
  : option (jsstring * jsstring) :=
  match fuel with
  | O => None
  | S f =>
      match s with
      | [] => None
      | c :: s' =>
          if (c =? 34)%N then Some (rev acc, s')
          else if (c =? ch "\")%N then
            match s' with
            | [] => None
            | e :: s'' =>
                if (e =? ch "u")%N then
                  match hex4 s'' with
                  | Some (u, rest) => parseString f rest (u :: acc)
                  | None => None
                  end
                else match escapeChar e with
                     | Some d => parseString f s'' (d :: acc)
                     | None => None
                     end
            end
          else if (c <? 32)%N then None
          else parseString f s' (c :: acc)
      end
  end.

(** A number token: an optional minus, an integer part without a leading
    zero (unless it is the one digit 0), an optional fraction of a point and
    digits, and an optional exponent of e or E, a sign and digits. *)
Definition isNumberChar (c : N) : bool :=
  isDigit c || (c =? ch "-")%N || (c =? ch "+")%N || (c =? ch ".")%N
  || (c =? ch "e")%N || (c =? ch "E")%N.

Definition jsonNumberShape (t : jsstring) : bool :=
  let body := match t with 45%N :: r => r | _ => t end in
  let '(ip, r1) := span isDigit body in
  let intOk :=
    match ip with
    | [] => false
    | [_] => true
    | 48%N :: _ => false
    | _ => true
    end in
  let '(fracOk, r2) :=
    match r1 with
    | 46%N :: r =>
        let '(fp, r') := span isDigit r in
        (negb (Nat.eqb (length fp) 0), r')
    | _ => (true, r1)
    end in
  let expOk :=
    match r2 with
    | [] => true
    | c :: r3 =>
        ((c =? ch "e")%N || (c =? ch "E")%N) &&
        let r4 := match r3 with
                  | 43%N :: r => r
                  | 45%N :: r => r
                  | _ => r3
                  end in
        negb (Nat.eqb (length r4) 0) && forallb isDigit r4
    end in
  intOk && fracOk && expOk.

Definition parseNumber (s : jsstring) : option (json * jsstring) :=
  let '(t, rest) := span isNumberChar s in
  if jsonNumberShape t then Some (JNumber (strDecimal t), rest) else None.

Definition parseLiteral (word : jsstring) (v : json) (s : jsstring)
  : option (json * jsstring) :=
  if startsWith s word then Some (v, skipn (length word) s) else None.

Fixpoint parseValue (fuel : nat) (s : jsstring) : option (json * jsstring) :=
  match fuel with
  | O => None
  | S f =>
      match skipSpace s with
      | [] => None
      | c :: s' =>
          if (c =? ch "{")%N then
            match skipSpace s' with
            | 125%N :: rest => Some (JObject [], rest)
            | _ => parseMembers f s' []
            end
          else if (c =? ch "[")%N then
            match skipSpace s' with
            | 93%N :: rest => Some (JArray [], rest)
            | _ => parseElements f s' []
            end
          else if (c =? 34)%N then
            match parseString (S (length s')) s' [] with
            | Some (str, rest) => Some (JString str, rest)
            | None => None
            end
          else if (c =? ch "t")%N then parseLiteral (js "true") (JBool true) (c :: s')
          else if (c =? ch "f")%N then parseLiteral (js "false") (JBool false) (c :: s')
          else if (c =? ch "n")%N then parseLiteral (js "null") JNull (c :: s')
          else parseNumber (c :: s')
      end
  end
with parseElements (fuel : nat) (s : jsstring) (acc : list json)
  : option (json * jsstring) :=
  match fuel with
  | O => None
  | S f =>
      match parseValue f s with
      | None => None
      | Some (v, rest) =>
          match skipSpace rest with
          | 44%N :: rest' => parseElements f rest' (v :: acc)
          | 93%N :: rest' => Some (JArray (rev (v :: acc)), rest')
          | _ => None
          end
      end
  end
with parseMembers (fuel : nat) (s : jsstring) (acc : list (jsstring * json))
  : option (json * jsstring) :=
  match fuel with
  | O => None
  | S f =>
      match skipSpace s with
      | 34%N :: s' =>
          match parseString (S (length s')) s' [] with
          | None => None
          | Some (key, rest) =>
              match skipSpace rest with
              | 58%N :: rest' =>
                  match parseValue f rest' with
                  | None => None
                  | Some (v, rest'') =>
                      let acc' := defineProp key v acc in
                      match skipSpace rest'' with
                      | 44%N :: more => parseMembers f more acc'
                      | 125%N :: more => Some (JObject acc', more)
                      | _ => None
                      end
                  end
              | _ => None
              end
          end
      | _ => None
      end
  end.

(** [JSON.parse(text)]: [None] stands for the SyntaxError.  A value
    consumes a code unit before the parser calls itself for a part of it,
    and a list of elements or members is one call above its first value, so
    twice the length of the text bounds the depth of the calls. *)
Definition JSON_parse (text : jsstring) : option json :=
  match parseValue (2 * length text + 2) text with
  | Some (v, rest) =>
      match skipSpace rest with
      | [] => Some v
      | _ :: _ => None
      end
  | None => None
  end.

(** **** JSON.stringify *)

Definition hexDigit (n : N) : N :=
  if (n <? 10)%N then (48 + n)%N else (87 + n)%N.

Definition unicodeEscape (c : N) : jsstring :=
  js "\u" ++ [hexDigit (c / 4096 mod 16); hexDigit (c / 256 mod 16);
              hexDigit (c / 16 mod 16); hexDigit (c mod 16)]%N.

Definition isHighSurrogate (c : N) : bool := between 55296 56319 c.
Definition isLowSurrogate (c : N) : bool := between 56320 57343 c.

(** QuoteJSONString, without the enclosing quotes. *)
Fixpoint quoteChars (s : jsstring) : jsstring :=
  match s with
  | [] => []
  | c :: s' =>
      if (c =? 8)%N then js "\b" ++ quoteChars s'
      else if (c =? 9)%N then js "\t" ++ quoteChars s'
      else if (c =? 10)%N then js "\n" ++ quoteChars s'
      else if (c =? 12)%N then js "\f" ++ quoteChars s'
      else if (c =? 13)%N then js "\r" ++ quoteChars s'
      else if (c =? 34)%N then [92; 34]%N ++ quoteChars s'
      else if (c =? ch "\")%N then js "\\" ++ quoteChars s'
      else if (c <? 32)%N then unicodeEscape c ++ quoteChars s'
      else if isHighSurrogate c then
        match s' with
        | d :: s'' =>
            if isLowSurrogate d then c :: d :: quoteChars s''
            else unicodeEscape c ++ quoteChars s'
        | [] => unicodeEscape c
        end
      else if isLowSurrogate c then unicodeEscape c ++ quoteChars s'
      else c :: quoteChars s'
  end.

Definition quote (s : jsstring) : jsstring :=
  34%N :: quoteChars s ++ [34%N].

Fixpoint join (sep : jsstring) (parts : list jsstring) : jsstring :=
  match parts with
  | [] => []
  | [p] => p
  | p :: rest => p ++ sep ++ join sep rest
  end.

Definition isFinite (x : number) : bool :=
  match x with
  | S754_nan | S754_infinity _ => false
  | _ => true
  end.

(** [JSON.stringify(v)], without indentation. *)
Fixpoint JSON_stringify (v : json) : jsstring :=
  match v with
  | JNull => js "null"
  | JBool b => if b then js "true" else js "false"
  | JNumber x => if isFinite x then NumberToString x else js "null"
  | JString s => quote s
  | JArray items => js "[" ++ join (js ",") (map JSON_stringify items) ++ js "]"
  | JObject props =>
      js "{" ++
      join (js ",")
        (map (fun kv => quote (fst kv) ++ js ":" ++ JSON_stringify (snd kv))
             props)
      ++ js "}"
  end.

Definition isArray (v : json) : bool :=
  match v with JArray _ => true | _ => false end.

End JS.

(** ** Datasets

    A dataset is the array of its rows.  The editor and the auto-fix panel
    write a cell with the same statement,
    [if (data[i]) { data[i][field] = newValue; }]; its index is a
    JavaScript number, for which an integer stands here: an index that is
    negative reads no row, and neither does one that is not an integer.
    A row is an object, so the test passes whenever the row is there.  The
    write goes to the row object itself, which the copied array shares with
    the array it was copied from; the array after the write is what is
    modelled. *)

Module Dataset.
Import JS.

(** [data[i]] *)
Definition rowAt (data : list Row) (i : Z) : option Row :=
  if 0 <=? i then data !! Z.to_nat i else None.

Definition writeCell (data : list Row) (rowIndex : Z) (field : jsstring)
    (newValue : value) : list Row :=
  match rowAt data rowIndex with
  | Some row => <[Z.to_nat rowIndex := setProp row field newValue]> data
  | None => data
  end.

End Dataset.

(** ** Sets of indices

    The components keep row and suggestion indices in a [Set]; it is kept
    here as the list of its members in insertion order, none twice, so
    that its [size] is the length of the list and [forEach] goes through
    the list. *)

Module IndexSet.

Definition has (s : list nat) (x : nat) : bool := existsb (Nat.eqb x) s.

Definition add (s : list nat) (x : nat) : list nat :=
  if has s x then s else s ++ [x].

Definition delete (s : list nat) (x : nat) : list nat :=
  List.filter (fun y => negb (Nat.eqb y x)) s.

(** [new Set(items)] *)
Definition from (items : list nat) : list nat := fold_left add items [].

End IndexSet.

(** ** utils/validators.ts *)

Module Validators.
Import JS.

Record ValidationError := {
  rowIndex : nat;
  field : jsstring;
  message : jsstring
}.

Record ValidationResult := {
  validated : bool;
  errors : list ValidationError
}.

(** [errors.push(e)] *)
Definition push (errors : list ValidationError) (e : ValidationError)
  : list ValidationError :=
  errors ++ [e].

Definition getIDField (entityType : jsstring) : jsstring :=
  if str_eqb entityType (js "clients") then js "ClientID"
  else if str_eqb entityType (js "workers") then js "WorkerID"
  else if str_eqb entityType (js "tasks") then js "TaskID"
  else js "ID".

(** The guard of every entity-specific check:
    [v !== undefined && v !== null && v !== ''] *)
Definition present (v : value) : bool :=
  negb (strictEquals v VUndefined) && negb (strictEquals v VNull)
  && negb (strictEquals v (VString [])).

(** [isNaN(n) || n < 1 || n > 5] *)
Definition outside_1_5 (n : number) : bool :=
  isNaN n || num_lt n (of_Z 1) || num_gt n (of_Z 5).

(** [isNaN(n) || n < 1] *)
Definition below_1 (n : number) : bool :=
  isNaN n || num_lt n (of_Z 1).

(** [v.split(',')]: a method of strings only; on a number or a boolean the
    property is undefined and the call is a TypeError. *)
Definition call_split (v : value) : completion (list jsstring) :=
  match v with
  | VString s => Return (split (ch ",") s)
  | _ => Throw (js "TypeError: row.RequestedTaskIDs.split is not a function")
  end.

Definition validateClient (row : Row) (rowIndex : nat)
    (errors : list ValidationError) : completion (list ValidationError) :=
  (* Validate PriorityLevel is a number from 1 to 5 *)
  let errors :=
    let v := getProp row (js "PriorityLevel") in
    if present v then
      let priority := ToNumber v in
      if outside_1_5 priority then
        push errors {| rowIndex := rowIndex;
                       field := js "PriorityLevel";
                       message := js "PriorityLevel must be a number between 1 and 5" |}
      else errors
    else errors in
  (* Validate RequestedTaskIDs is not empty and contains valid format *)
  bind
    (let v := getProp row (js "RequestedTaskIDs") in
     if present v then
       bind (call_split v) (fun pieces =>
         let taskIds := map trim pieces in
         if Nat.eqb (length taskIds) 0
            || existsb (fun id => str_eqb id []) taskIds
         then
           Return (push errors
             {| rowIndex := rowIndex;
                field := js "RequestedTaskIDs";
                message := js "RequestedTaskIDs must contain valid task IDs separated by commas" |})
         else Return errors)
     else Return errors)
    (fun errors =>
  (* Validate AttributesJSON is valid JSON *)
  let v := getProp row (js "AttributesJSON") in
  if present v then
    match JSON_parse (ToString v) with
    | Some _ => Return errors
    | None =>
        Return (push errors
          {| rowIndex := rowIndex;
             field := js "AttributesJSON";
             message := js "AttributesJSON must be valid JSON" |})
    end
  else Return errors).

Definition validateWorker (row : Row) (rowIndex : nat)
    (errors : list ValidationError) : completion (list ValidationError) :=
  (* Validate AvailableSlots is a valid JSON array *)
  let errors :=
    let v := getProp row (js "AvailableSlots") in
    if present v then
      match JSON_parse (ToString v) with
      | Some slots =>
          if negb (isArray slots) then
            push errors {| rowIndex := rowIndex;
                           field := js "AvailableSlots";
                           message := js "AvailableSlots must be a valid JSON array" |}
          else errors
      | None =>
          push errors {| rowIndex := rowIndex;
                         field := js "AvailableSlots";
                         message := js "AvailableSlots must be valid JSON" |}
      end
    else errors in
  (* Validate MaxLoadPerPhase is a positive number *)
  let errors :=
    let v := getProp row (js "MaxLoadPerPhase") in
    if present v then
      let maxLoad := ToNumber v in
      if below_1 maxLoad then
        push errors {| rowIndex := rowIndex;
                       field := js "MaxLoadPerPhase";
                       message := js "MaxLoadPerPhase must be a positive number" |}
      else errors
    else errors in
  (* Validate QualificationLevel is a number from 1 to 5 *)
  let errors :=
    let v := getProp row (js "QualificationLevel") in
    if present v then
      let qualification := ToNumber v in
      if outside_1_5 qualification then
        push errors {| rowIndex := rowIndex;
                       field := js "QualificationLevel";
                       message := js "QualificationLevel must be a number between 1 and 5" |}
      else errors
    else errors in
  Return errors.

(** [/^\d+\s*-\s*\d+$/] *)
Definition phasePattern : regex :=
  seqs [Bol; plus class_d; Star class_s; lit (js "-"); Star class_s;
        plus class_d; Eol].

Definition validateTask (row : Row) (rowIndex : nat)
    (errors : list ValidationError) : completion (list ValidationError) :=
  (* Ensure Duration >= 1 *)
  let errors :=
    let v := getProp row (js "Duration") in
    if present v then
      let duration := ToNumber v in
      if below_1 duration then
        push errors {| rowIndex := rowIndex;
                       field := js "Duration";
                       message := js "Duration must be a number greater than or equal to 1" |}
      else errors
    else errors in
  (* MaxConcurrent is a positive number *)
  let errors :=
    let v := getProp row (js "MaxConcurrent") in
    if present v then
      let maxConcurrent := ToNumber v in
      if below_1 maxConcurrent then
        push errors {| rowIndex := rowIndex;
                       field := js "MaxConcurrent";
                       message := js "MaxConcurrent must be a positive number" |}
      else errors
    else errors in
  (* Validate PreferredPhases format *)
  let errors :=
    let v := getProp row (js "PreferredPhases") in
    if present v then
      if negb (test phasePattern (ToString v)) then
        push errors {| rowIndex := rowIndex;
                       field := js "PreferredPhases";
                       message := js "PreferredPhases must be in format " ++ quoted (js "start - end")
                                  ++ js " (e.g., " ++ quoted (js "1 - 2") ++ js ")" |}
      else errors
    else errors in
  Return errors.

(** The [switch (entityType)] of the loop body; any other entity type has
    no checks of its own. *)
Definition validateEntity (entityType : jsstring) (row : Row) (rowIndex : nat)
    (errors : list ValidationError) : completion (list ValidationError) :=
  if str_eqb entityType (js "clients") then validateClient row rowIndex errors
  else if str_eqb entityType (js "workers") then validateWorker row rowIndex errors
  else if str_eqb entityType (js "tasks") then validateTask row rowIndex errors
  else Return errors.

(** [ids.has(v)] for the [Set] of identifiers, kept in insertion order. *)
Definition has (ids : list value) (v : value) : bool :=
  existsb (SameValueZero v) ids.

(** The state the loop body works on: the set [ids] and the array
    [errors]. *)
Record loop_state := {
  ids : list value;
  errs : list ValidationError
}.

(** The callback of [data.forEach]. *)
Definition validateRow (entityType idField : jsstring) (row : Row)
    (rowIndex : nat) (st : loop_state) : completion loop_state :=
  let id := getProp row idField in
  let st :=
    (* Check for missing ID *)
    if negb (ToBoolean id) || strictEquals id (VString []) then
      {| ids := ids st;
         errs := push (errs st)
                   {| rowIndex := rowIndex;
                      field := idField;
                      message := js "Missing " ++ idField |} |}
    else
      (* Check for duplicate ID *)
      if has (ids st) id then
        {| ids := ids st;
           errs := push (errs st)
                     {| rowIndex := rowIndex;
                        field := idField;
                        message := js "Duplicate " ++ idField ++ js ": "
                                   ++ ToString id |} |}
      else {| ids := ids st ++ [id]; errs := errs st |} in
  (* Entity-specific validation *)
  bind (validateEntity entityType row rowIndex (errs st))
       (fun errors => Return {| ids := ids st; errs := errors |}).

(** [data.forEach((row, rowIndex) => ...)], from index [rowIndex] on. *)
Fixpoint forEach (body : Row -> nat -> loop_state -> completion loop_state)
    (data : list Row) (rowIndex : nat) (st : loop_state)
  : completion loop_state :=
  match data with
  | [] => Return st
  | row :: rest =>
      bind (body row rowIndex st) (forEach body rest (S rowIndex))
  end.

(** [data] is [None] for a dataset that is [null] or [undefined]. *)
Definition validateData (entityType : jsstring) (data : option (list Row))
  : completion ValidationResult :=
  match data with
  | None | Some [] => Return {| validated := true; errors := [] |}
  | Some rows =>
      (* Check for missing or duplicate IDs *)
      let idField := getIDField entityType in
      bind (forEach (validateRow entityType idField) rows 0%nat
              {| ids := []; errs := [] |})
           (fun st =>
              Return {| validated := Nat.eqb (length (errs st)) 0;
                        errors := errs st |})
  end.

End Validators.

(** ** The natural-language editor component *)

Module NaturalLanguageEditor.
Import JS Dataset.

Record EditChange := {
  rowIndex : Z;
  field : jsstring;
  oldValue : value;
  newValue : value
}.

(** [/^set\s+(\w+)\s*=\s*([^\s]+)\s+where\s+(\w+)\s*=\s*([^\s]+)$/i] *)
Definition wherePattern : regex :=
  seqs [Bol; lit_i (js "set"); plus class_s; Group 1 (plus class_w);
        Star class_s; lit (js "="); Star class_s; Group 2 (plus class_not_s);
        plus class_s; lit_i (js "where"); plus class_s;
        Group 3 (plus class_w); Star class_s; lit (js "="); Star class_s;
        Group 4 (plus class_not_s); Eol].

(** [/^set\s+(\w+)\s*=\s*([^\s]+)$/i] *)
Definition allPattern : regex :=
  seqs [Bol; lit_i (js "set"); plus class_s; Group 1 (plus class_w);
        Star class_s; lit (js "="); Star class_s; Group 2 (plus class_not_s);
        Eol].

(** [Object.keys(obj).forEach(k => obj[k] = newValue)] on the value that
    [JSON.parse] returned; [None] is a TypeError ([Object.keys(null)], or
    the write into a string, which strict code refuses). *)
Definition setAllKeys (obj : json) (newValue : jsstring) : option json :=
  match obj with
  | JObject props =>
      Some (JObject (map (fun kv => (fst kv, JString newValue)) props))
  | JArray items => Some (JArray (map (fun _ => JString newValue) items))
  | JNull => None
  | JString (_ :: _) => None
  | JString [] | JBool _ | JNumber _ => Some obj
  end.

(** The [try] block for a JSON field: the new value, or [None] when the
    block threw. *)
Definition jsonEdit (text newValue : jsstring) : option jsstring :=
  match JSON_parse text with
  | Some obj =>
      match setAllKeys obj newValue with
      | Some obj' => Some (JSON_stringify obj')
      | None => None
      end
  | None => None
  end.

Definition looksLikeJSON (v : value) : bool :=
  match v with
  | VString s => startsWith (trim s) (js "{") && endsWith (trim s) (js "}")
  | _ => false
  end.

Definition looksLikeList (v : value) : bool :=
  match v with
  | VString s => includes s (js ",")
  | _ => false
  end.

(** The change computed for a row that the instruction applies to; the
    source has this body twice, once for each pattern. *)
Definition changeFor (row : Row) (i : nat) (field newValue : jsstring)
  : EditChange :=
  let current := getProp row field in
  let change nv :=
    {| rowIndex := Z.of_nat i; field := field; oldValue := current;
       newValue := nv |} in
  let fallback :=
    (* Handle array field (comma-separated) *)
    if looksLikeList current then
      change (VString (ToString current ++ js "," ++ newValue))
    else
      (* Fallback: set value *)
      change (VString newValue) in
  (* Handle JSON field *)
  if looksLikeJSON current then
    match jsonEdit (ToString current) newValue with
    | Some text => change (VString text)
    | None => fallback
    end
  else fallback.

(** [data.map((row, i) => ...)] from index [i] on, for a callback that
    answers a change or [null], followed by [.filter(Boolean)]. *)
Fixpoint mapFilter (f : Row -> nat -> option EditChange) (data : list Row)
    (i : nat) : list EditChange :=
  match data with
  | [] => []
  | row :: rest =>
      match f row i with
      | Some c => c :: mapFilter f rest (S i)
      | None => mapFilter f rest (S i)
      end
  end.

Definition parseEditInstruction `{CaseMapping} (instruction : jsstring)
    (data : list Row) : list EditChange :=
  (* set column=value where column2=somevalue *)
  match exec wherePattern instruction with
  | Some m =>
      let field := group 1 (match_groups m) in
      let newValue := group 2 (match_groups m) in
      let whereField := group 3 (match_groups m) in
      let whereValue := toLowerCase (group 4 (match_groups m)) in
      mapFilter
        (fun row i =>
           if str_eqb (toLowerCase (ToString (getProp row whereField)))
                whereValue
           then Some (changeFor row i field newValue)
           else None)
        data 0%nat
  | None =>
      (* set column=value (all rows) *)
      match exec allPattern instruction with
      | Some m =>
          let field := group 1 (match_groups m) in
          let newValue := group 2 (match_groups m) in
          mapFilter (fun row i => Some (changeFor row i field newValue))
            data 0%nat
      | None => []
      end
  end.

(** The component: its props and the state the two handlers use. *)

Inductive entity := clients | workers | tasks.

Record props := {
  clientRows : list Row;
  workerRows : list Row;
  taskRows : list Row
}.

Definition dataOf (selectedEntity : entity) (p : props) : list Row :=
  match selectedEntity with
  | clients => clientRows p
  | workers => workerRows p
  | tasks => taskRows p
  end.

(** The callback of [pendingChanges.forEach]. *)
Definition applyChange (data : list Row) (change : EditChange) : list Row :=
  writeCell data (rowIndex change) (field change) (newValue change).

Definition applyChanges (data : list Row) (changes : list EditChange)
  : list Row :=
  fold_left applyChange changes data.

(** What [handleEdit] leaves in the state: the error text or the pending
    changes. *)
Definition handleEdit `{CaseMapping} (selectedEntity : entity) (p : props)
    (instruction : jsstring) : jsstring + list EditChange :=
  let changes := parseEditInstruction instruction (dataOf selectedEntity p) in
  match changes with
  | [] => inl (js "Unable to parse instruction. Try: set column=value where column2=somevalue")
  | _ => inr changes
  end.

(** The dataset that [handleApplyChanges] hands to the change callback of
    the selected entity; [None] when it returns early. *)
Definition handleApplyChanges (selectedEntity : entity) (p : props)
    (pendingChanges : list EditChange) : option (entity * list Row) :=
  match pendingChanges with
  | [] => None
  | _ =>
      let data := dataOf selectedEntity p in
      Some (selectedEntity, applyChanges data pendingChanges)
  end.

End NaturalLanguageEditor.

(** ** components/AutoFixPanel.tsx *)

Module AutoFixPanel.
Import JS Dataset.

Record ValidationFix := {
  rowIndex : Z;
  field : jsstring;
  oldValue : value;
  newValue : value;
  reasoning : jsstring
}.

(** The statement both handlers apply to a fix. *)
Definition applyFix (updatedData : list Row) (fix_ : ValidationFix)
  : list Row :=
  writeCell updatedData (rowIndex fix_) (field fix_) (newValue fix_).

(** The callback of [selectedFixes.forEach]: [suggestedFixes[index]] is
    undefined for an index beyond the suggestions, and reading its
    [rowIndex] is then a TypeError. *)
Definition applySelected (suggestedFixes : list ValidationFix)
    (updatedData : list Row) (index : nat) : completion (list Row) :=
  match suggestedFixes !! index with
  | Some fix_ => Return (applyFix updatedData fix_)
  | None => Throw (js "TypeError: Cannot read properties of undefined (reading 'rowIndex')")
  end.

Fixpoint forEachSelected (suggestedFixes : list ValidationFix)
    (selectedFixes : list nat) (updatedData : list Row)
  : completion (list Row) :=
  match selectedFixes with
  | [] => Return updatedData
  | index :: rest =>
      bind (applySelected suggestedFixes updatedData index)
           (forEachSelected suggestedFixes rest)
  end.

(** [selectedFixes] is a [Set] of indices, here in its iteration order.
    The result is the argument of [onDataUpdate]; [None] when the handler
    returns early. *)
Definition handleApplySelectedFixes (data : list Row)
    (suggestedFixes : list ValidationFix) (selectedFixes : list nat)
  : completion (option (list Row)) :=
  match selectedFixes with
  | [] => Return None
  | _ =>
      bind (forEachSelected suggestedFixes selectedFixes data)
           (fun updatedData => Return (Some updatedData))
  end.

Definition handleApplyAllFixes (data : list Row)
    (suggestedFixes : list ValidationFix) : list Row :=
  fold_left applyFix suggestedFixes data.


(** The selection of fixes. *)

Definition handleFixSelection (selectedFixes : list nat) (index : nat)
  : list nat :=
  let newSelected := selectedFixes in
  if IndexSet.has newSelected index then IndexSet.delete newSelected index
  else IndexSet.add newSelected index.

(** [new Set(suggestedFixes.map((_, index) => index))] is the indices of
    the suggestions, in order. *)
Definition handleSelectAll (suggestedFixes : list ValidationFix)
    (selectedFixes : list nat) : list nat :=
  if Nat.eqb (length selectedFixes) (length suggestedFixes) then []
  else seq 0 (length suggestedFixes).

(** The two pieces of state that the handlers share. *)
Record panel := {
  suggested : list ValidationFix;
  selected : list nat
}.

(** What happens to the panel: suggestions arrive (none, when the request
    failed), a box is ticked or unticked, and the three buttons. *)
Inductive event :=
| FixesArrived (result : list ValidationFix)
| BoxToggled (index : nat)
| SelectAllPressed
| ApplySelectedPressed
| ApplyAllPressed.

(** The panel draws one box for each suggestion, and the buttons only
    while there are suggestions; Apply Selected is disabled while nothing
    is selected. *)
Definition offered (st : panel) (ev : event) : bool :=
  match ev with
  | FixesArrived _ => true
  | BoxToggled index => (index <? length (suggested st))%nat
  | SelectAllPressed | ApplyAllPressed =>
      negb (Nat.eqb (length (suggested st)) 0)
  | ApplySelectedPressed =>
      negb (Nat.eqb (length (suggested st)) 0)
      && negb (Nat.eqb (length (selected st)) 0)
  end.

Definition handle (st : panel) (ev : event) : panel :=
  match ev with
  | FixesArrived result => {| suggested := result; selected := [] |}
  | BoxToggled index =>
      {| suggested := suggested st;
         selected := handleFixSelection (selected st) index |}
  | SelectAllPressed =>
      {| suggested := suggested st;
         selected := handleSelectAll (suggested st) (selected st) |}
  | ApplySelectedPressed | ApplyAllPressed =>
      {| suggested := []; selected := [] |}
  end.

(** The panel after a sequence of events, each offered when it happens;
    it starts without suggestions. *)
Fixpoint session (st : panel) (events : list event) : option panel :=
  match events with
  | [] => Some st
  | ev :: rest =>
      if offered st ev then session (handle st ev) rest else None
  end.

Definition opened : panel := {| suggested := []; selected := [] |}.

End AutoFixPanel.

(** ** The provider call (lib/gemini.ts) *)

Module Gemini.
Import JS.

(** What [await fetch(url, ...)] comes back with: a rejection, or a
    response with its status and body text.  The prompt that was sent only
    decides which of these the provider answers with. *)
Inductive fetched :=
| NetworkError (error : jsstring)
| Response (ok : bool) (status : N) (body : jsstring).

(** [v[k]] on a value read from JSON, for a key that no prototype defines;
    [None] is [undefined]. *)
Definition member (v : json) (k : jsstring) : option json :=
  match v with
  | JObject props => lookupProp k props
  | JArray items =>
      match arrayIndex k with
      | Some i => nth_error items (N.to_nat i)
      | None => None
      end
  | JString s =>
      match arrayIndex k with
      | Some i => option_map (fun c => JString [c]) (nth_error s (N.to_nat i))
      | None => None
      end
  | JNull | JBool _ | JNumber _ => None
  end.

(** [v?.[k]] and [v?.k]: [undefined] when [v] is [undefined] or [null]. *)
Definition optional (v : option json) (k : jsstring) : option json :=
  match v with
  | None | Some JNull => None
  | Some x => member x k
  end.

(** [ToBoolean] on a value read from JSON, [None] being [undefined]. *)
Definition truthy (v : option json) : bool :=
  match v with
  | None | Some JNull => false
  | Some (JBool b) => b
  | Some (JNumber x) => ToBoolean (VNumber x)
  | Some (JString s) => ToBoolean (VString s)
  | Some (JArray _) | Some (JObject _) => true
  end.

(** [data.candidates?.[0]?.content?.parts?.[0]?.text || ''] *)
Definition readText (data : json) : completion json :=
  match data with
  | JNull =>
      Throw (js "TypeError: Cannot read properties of null (reading 'candidates')")
  | _ =>
      let candidates := member data (js "candidates") in
      let text :=
        optional (optional (optional (optional (optional candidates
          (js "0")) (js "content")) (js "parts")) (js "0")) (js "text") in
      if truthy text then
        match text with
        | Some t => Return t
        | None => Return (JString [])
        end
      else Return (JString [])
  end.

Definition geminiChatCompletion (reply : fetched) : completion json :=
  match reply with
  | NetworkError error => Throw error
  | Response ok status body =>
      if negb ok then
        Throw (js "Gemini API error: " ++ NToString status ++ js " " ++ body)
      else
        match JSON_parse body with
        | None => Throw (js "SyntaxError: Unexpected token in JSON")
        | Some data => readText data
        end
  end.

End Gemini.

(** ** The AI gateway (lib/ai.ts) *)

Module AI.
Import JS Gemini.

(** [/```json|```/g] *)
Definition fencePattern : regex :=
  Alt (lit (js "```json")) (lit (js "```")).

Definition extractJsonBlock (text : jsstring) : jsstring :=
  trim (replaceAll fencePattern [] text).

(** [new RegExp(`(?<=row\.)${col.toLowerCase()}(?=\b)`, 'g')].  The
    pattern text is written in a template literal, and the template
    resolves its escapes before the constructor sees the text: [\.] is the
    text [.], any code unit but a line terminator, and [\b] is the code
    unit U+0008.  The column name is taken as literal text, which is how
    the constructor reads a name that is free of pattern syntax; a name
    with a syntax character in it ([^ $ \ . * + ? ( ) [ ] { } |]) is
    outside what is modelled of the constructor. *)
Definition columnPattern `{CaseMapping} (col : jsstring) : regex :=
  seqs [Behind (Seq (lit (js "row")) dot);
        lit (toLowerCase col);
        Ahead (Chr (N.eqb 8))].

(** [columns.forEach(col => { mapped = mapped.replace(regex, col) })], for
    column names free of pattern syntax: the replacement text then has no
    [$] in it and is written as it is. *)
Definition mapFilterFunctionToOriginalColumns `{CaseMapping}
    (filterFunction : jsstring) (columns : list jsstring) : jsstring :=
  fold_left (fun mapped col => replaceAll (columnPattern col) col mapped)
    columns filterFunction.

(** [Object.keys(v)] on a value read from JSON. *)
Definition Object_keys (v : json) : completion (list jsstring) :=
  match v with
  | JObject props => Return (map fst props)
  | JArray items => Return (map (fun i => NToString (N.of_nat i)) (seq 0 (length items)))
  | JString s => Return (map (fun i => NToString (N.of_nat i)) (seq 0 (length s)))
  | JBool _ | JNumber _ => Return []
  | JNull => Throw (js "TypeError: Cannot convert undefined or null to object")
  end.

(** [data.length > 0 ? Object.keys(data[0]) : []] *)
Definition columnsOf (data : list json) : completion (list jsstring) :=
  match data with
  | [] => Return []
  | row :: _ => Object_keys row
  end.

(** The three steps every operation starts with:
    [const response = await geminiChatCompletion(...)],
    [if (!response) throw new Error('No response from Gemini')] and
    [extractJsonBlock(response)], whose [replace] is a method of strings
    only. *)
Definition cleanedResponse (reply : fetched) : completion jsstring :=
  bind (geminiChatCompletion reply) (fun response =>
    if negb (truthy (Some response)) then
      Throw (js "No response from Gemini")
    else
      match response with
      | JString text => Return (extractJsonBlock text)
      | _ => Throw (js "TypeError: text.replace is not a function")
      end).

(** [JSON.parse(cleaned)] inside its own [try], rethrown as [error]. *)
Definition parseOr (error : jsstring) (cleaned : jsstring) : completion json :=
  match JSON_parse cleaned with
  | Some parsed => Return parsed
  | None => Throw error
  end.

(** The inner [try] of [generateFilter]: any throw in it, the explicit one
    included, is rethrown as 'Unable to parse query.'. *)
Definition checkedFilter `{CaseMapping} (cleanResponse : jsstring)
    (columns : list jsstring) : completion json :=
  try_catch
    (bind (parseOr (js "SyntaxError") cleanResponse) (fun parsed =>
       match parsed with
       | JNull =>
           Throw (js "TypeError: Cannot read properties of null (reading 'filterFunction')")
       | JObject props =>
           match lookupProp (js "filterFunction") props with
           | Some (JString (c :: f)) =>
               (* Map property names in filterFunction to original columns *)
               let mapped :=
                 mapFilterFunctionToOriginalColumns (c :: f) columns in
               Return (JObject (defineProp (js "filterFunction")
                                  (JString mapped) props))
           | _ => Throw (js "Unable to parse query.")
           end
       | _ => Throw (js "Unable to parse query.")
       end))
    (fun _ => Throw (js "Unable to parse query.")).

(** [userQuery] and [entityType] only enter the prompt. *)
Definition generateFilter `{CaseMapping} (userQuery : jsstring)
    (data : list json) (entityType : jsstring) (reply : fetched)
  : completion json :=
  bind (columnsOf data) (fun columns =>
    try_catch
      (bind (cleanedResponse reply) (fun cleanResponse =>
         checkedFilter cleanResponse columns))
      (fun _ => Throw (js "Unable to parse query."))).

Definition generateEdit (userQuery : jsstring) (data : list json)
    (entityType : jsstring) (reply : fetched) : completion json :=
  try_catch
    (bind (columnsOf data) (fun columns =>
       bind (cleanedResponse reply) (parseOr (js "Unable to parse query."))))
    (fun _ => Throw (js "Failed to generate edit")).

Definition generateRuleSuggestions (clients workers tasks : list json)
    (reply : fetched) : completion json :=
  try_catch
    (bind (cleanedResponse reply)
       (parseOr (js "Failed to parse rule suggestions. Try refining your prompt.")))
    (fun _ => Throw (js "Failed to generate rule suggestions")).

Definition generateValidationFixes (errors data : list json)
    (reply : fetched) : completion json :=
  try_catch
    (bind (cleanedResponse reply)
       (parseOr (js "Failed to parse validation fixes. Try refining your prompt.")))
    (fun _ => Throw (js "Failed to generate validation fixes")).

Definition generateAIValidationWarnings (data : list json)
    (entityType : jsstring) (reply : fetched) : completion json :=
  try_catch
    (bind (cleanedResponse reply)
       (parseOr (js "Failed to parse AI validation warnings. Try refining your prompt.")))
    (fun _ => Throw (js "Failed to generate AI validation warnings")).

End AI.

(** ** The natural-language search component *)

Module NaturalLanguageSearch.
Import JS.

(** [typeof value === 'string' ? value.trim() : value] *)
Definition trimmed (v : value) : value :=
  match v with
  | VString s => VString (trim s)
  | _ => v
  end.

(** The body of [data.map]: the [for (const key in row)] loop gives the
    new row every key of the row, with the trimmed value. *)
Definition normalizeRow (row : Row) : Row := trimmed <$> row.

Definition normalizeDataRows (data : list Row) : list Row :=
  map normalizeRow data.

(** [rows.filter(filterFunction)].  The function is compiled from the text
    that the gateway returned; of a text that compiles, all that is known
    is that the function, given a row, throws or answers something that
    [filter] reads as true or false.  It is taken not to write to the
    row. *)
Fixpoint filterRows (filterFunction : Row -> completion bool)
    (rows : list Row) : completion (list Row) :=
  match rows with
  | [] => Return []
  | row :: rest =>
      bind (filterFunction row) (fun keep =>
        bind (filterRows filterFunction rest) (fun kept =>
          Return (if keep then row :: kept else kept)))
  end.

(** The rows that [handleSearch] shows: the filter runs on the normalized
    rows, and what it keeps is normalized once more. *)
Definition filtered (filterFunction : Row -> completion bool)
    (data : list Row) : completion (list Row) :=
  let normalizedData := normalizeDataRows data in
  bind (filterRows filterFunction normalizedData) (fun cleanedData =>
    Return (normalizeDataRows cleanedData)).

End NaturalLanguageSearch.

(** ** app/page.tsx *)

Module Page.
Import JS Validators.

Definition getErrorCount (errors : list ValidationError) : nat :=
  let uniqueRows := IndexSet.from (map rowIndex errors) in
  length uniqueRows.

End Page.

(** ** The API routes

    The five [POST] handlers have one shape: read the fields of the
    request, answer 400 when one of them is falsy, call the operation of
    the gateway, and answer 500 when anything threw.  A request is kept as
    the fields that the handlers read, each absent or of the type that the
    operation declares for it; a string is falsy when it is empty, an array
    never.  The body of the request is taken to be a JSON object. *)

Module Routes.
Import JS Gemini AI.

Record request := {
  userQuery : option jsstring;
  entityType : option jsstring;
  errors : option (list json);
  data : option (list json);
  clients : option (list json);
  workers : option (list json);
  tasks : option (list json)
}.

Record response := {
  status : N;
  body : json
}.

(** [NextResponse.json(result)] *)
Definition ok (result : json) : response :=
  {| status := 200; body := result |}.

(** [NextResponse.json({ error: message }, { status })] *)
Definition failure (status : N) (message : jsstring) : response :=
  {| status := status; body := JObject [(js "error", JString message)] |}.

(** A field that is there and not empty. *)
Definition filled (field : option jsstring) : option jsstring :=
  match field with
  | Some (c :: s) => Some (c :: s)
  | _ => None
  end.

(** api/autofix *)
Definition autofix (req : request) (reply : fetched) : response :=
  match errors req, data req, filled (entityType req) with
  | Some errors, Some data, Some entityType =>
      match generateValidationFixes errors data reply with
      | Return validationFixes => ok validationFixes
      | Throw _ => failure 500 (js "Failed to generate validation fixes")
      end
  | _, _, _ =>
      failure 400 (js "Missing required fields: errors, data, entityType")
  end.

(** api/query-edit *)
Definition queryEdit (req : request) (reply : fetched) : response :=
  match filled (userQuery req), data req, filled (entityType req) with
  | Some userQuery, Some data, Some entityType =>
      match generateEdit userQuery data entityType reply with
      | Return editResult => ok editResult
      | Throw _ => failure 500 (js "Failed to process query edit")
      end
  | _, _, _ =>
      failure 400 (js "Missing required fields: userQuery, data, entityType")
  end.

(** api/ai-validation *)
Definition aiValidation (req : request) (reply : fetched) : response :=
  match data req, filled (entityType req) with
  | Some data, Some entityType =>
      match generateAIValidationWarnings data entityType reply with
      | Return aiWarnings => ok aiWarnings
      | Throw _ => failure 500 (js "Failed to generate AI validation warnings")
      end
  | _, _ => failure 400 (js "Missing required fields: data, entityType")
  end.

(** api/rule-suggestions *)
Definition ruleSuggestions (req : request) (reply : fetched) : response :=
  match clients req, workers req, tasks req with
  | Some clients, Some workers, Some tasks =>
      match generateRuleSuggestions clients workers tasks reply with
      | Return ruleSuggestions => ok ruleSuggestions
      | Throw _ => failure 500 (js "Failed to generate rule suggestions")
      end
  | _, _, _ =>
      failure 400 (js "Missing required fields: clients, workers, tasks")
  end.

(** api/query-filter *)
Definition queryFilter `{CaseMapping} (req : request) (reply : fetched)
  : response :=
  match filled (userQuery req), data req, filled (entityType req) with
  | Some userQuery, Some data, Some entityType =>
      match generateFilter userQuery data entityType reply with
      | Return filterResult => ok filterResult
      | Throw _ => failure 500 (js "Failed to process query filter")
      end
  | _, _, _ =>
      failure 400 (js "Missing required fields: userQuery, data, entityType")
  end.

End Routes.

(** * The specification

    The notions the properties below are stated with, and the datasets
    they are tried on. *)

Module Statements.
Import JS Dataset.

(** [rowOf cells] is the row object with the given cells. *)
Definition rowOf (cells : list (jsstring * value)) : Row := list_to_map cells.

Definition text (s : string) : value := VString (js s).
Definition num (z : Z) : value := VNumber (of_Z z).

(** An index has a row in the dataset. *)
Definition inRange (data : list Row) (i : Z) : bool :=
  (0 <=? i) && (i <? Z.of_nat (length data)).

(** The guarded write of one entry of a batch, whatever record the entry
    is: [idx], [fld] and [val] read its row index, field and new value. *)
Definition writeEntry {A : Type} (idx : A -> Z) (fld : A -> jsstring)
    (val : A -> value) (data : list Row) (a : A) : list Row :=
  writeCell data (idx a) (fld a) (val a).




(** A table for the examples, which leaves a text as it is; the texts of
    the examples stay within Latin-1, where no table is read. *)
Definition exampleMapping : CaseMapping :=
  {| lowerBeyondLatin1 := fun s => s |}.

(** *** The states a match goes through *)

(** [st'] is [st] moved over the text [l] in the direction [fwd]. *)
Definition moved (fwd : bool) (l : jsstring) (st st' : mstate) : Prop :=
  if fwd
  then after st = l ++ after st' /\ before st' = rev l ++ before st
  else before st = l ++ before st' /\ after st' = rev l ++ after st.

Definition reach (fwd : bool) (st st' : mstate) : Prop :=
  exists l, moved fwd l st st'.

(** On its first choices the pattern [r] goes from [st] to [st'], and the
    match is decided by what follows: whenever the continuation matches
    from [st'], that is the match. *)
Definition leads (r : regex) (st : mstate) (caps : captures)
    (st' : mstate) (caps' : captures) : Prop :=
  forall k m, k st' caps' = Some m -> run r true st caps k = Some m.

(** The pattern [r] matches nowhere at or after [st]. *)
Definition fails (r : regex) (st : mstate) : Prop :=
  forall st' caps k,
    after st' `suffix_of` after st -> run r true st' caps k = None.

(** No code unit of the text is in the class. *)
Definition none (p : N -> bool) (s : jsstring) : Prop :=
  Forall (fun c => p c = false) s.

(** The text does not go on with a code unit of the class. *)
Definition stops (p : N -> bool) (s : jsstring) : Prop :=
  match s with
  | [] => True
  | c :: _ => p c = false
  end.

(** *** The fuel of the JSON parser

    With the fuel that the length of the text asks for, fuel makes no
    difference to what the parser answers. *)

Definition stableValue (n : nat) : Prop :=
  forall s f g, (length s <= n)%nat ->
    (2 * length s + 2 <= f)%nat -> (2 * length s + 2 <= g)%nat ->
    parseValue f s = parseValue g s.

Definition stableElements (n : nat) : Prop :=
  forall s acc f g, (length s <= n)%nat ->
    (2 * length s + 3 <= f)%nat -> (2 * length s + 3 <= g)%nat ->
    parseElements f s acc = parseElements g s acc.

Definition stableMembers (n : nat) : Prop :=
  forall s acc f g, (length s <= n)%nat ->
    (2 * length s + 3 <= f)%nat -> (2 * length s + 3 <= g)%nat ->
    parseMembers f s acc = parseMembers g s acc.

Module OfValidators.
Import Validators.

(** *** Identifier uniqueness *)

(** A duplicate error is told by its message. *)
Definition isDuplicate (e : ValidationError) : bool :=
  startsWith (message e) (js "Duplicate ").

(** The number of duplicate errors reported on row [j]. *)
Definition duplicateErrors (j : nat) (errs : list ValidationError) : nat :=
  length (List.filter (fun e => Nat.eqb (rowIndex e) j && isDuplicate e) errs).

Definition idsOf (idField : jsstring) (rows : list Row) : list value :=
  map (fun row => getProp row idField) rows.

(** Some row before row [i] holds the identifier [v]. *)
Definition seenBefore (idField : jsstring) (rows : list Row) (i : nat)
    (v : value) : bool :=
  existsb (SameValueZero v) (idsOf idField (take i rows)).

Definition expectedDuplicates (idField : jsstring) (rows : list Row)
    (j : nat) : nat :=
  match rows !! j with
  | Some row =>
      let v := getProp row idField in
      if ToBoolean v && seenBefore idField rows j v then 1%nat else 0%nat
  | None => 0%nat
  end.

(** First-seen-wins for every identifier that is present and not empty:
    a row is reported as a duplicate, once, exactly when an earlier row
    holds its identifier. *)
Definition first_seen_wins (entityType : jsstring) (rows : list Row) : Prop :=
  forall res i row,
    validateData entityType (Some rows) = Return res ->
    rows !! i = Some row ->
    present (getProp row (getIDField entityType)) = true ->
    duplicateErrors i (errors res) =
      if seenBefore (getIDField entityType) rows i
           (getProp row (getIDField entityType))
      then 1%nat else 0%nat.

(** [errs'] is [errs] followed by errors of row [i], none of them a
    duplicate error. *)
Definition extends (i : nat) (errs errs' : list ValidationError) : Prop :=
  exists extra, errs' = errs ++ extra /\
    Forall (fun e => rowIndex e = i /\ isDuplicate e = false) extra.

(** What the loop of [validateData] keeps true of its state once the rows
    [done] are behind it. *)
Record invariant (idField : jsstring) (done : list Row) (st : loop_state)
  : Prop := {
  inv_ids : forall v, ToBoolean v = true ->
            has (ids st) v = existsb (SameValueZero v) (idsOf idField done);
  inv_dups : forall j,
             duplicateErrors j (errs st) = expectedDuplicates idField done j;
  inv_bound : Forall (fun e => (rowIndex e < length done)%nat) (errs st)
}.

Definition idRow (id : string) : Row := rowOf [(js "ClientID", text id)].

Definition rowsAAB : list Row := [idRow "A"; idRow "A"; idRow "B"].

Definition resultAAB : ValidationResult :=
  {| validated := false;
     errors := [ {| rowIndex := 1; field := js "ClientID";
                    message := js "Duplicate ClientID: A" |} ] |}.

Definition zeroIdRow : Row := rowOf [(js "ClientID", num 0)].

Definition resultZeroIds : ValidationResult :=
  {| validated := false;
     errors := [ {| rowIndex := 0; field := js "ClientID";
                    message := js "Missing ClientID" |};
                 {| rowIndex := 1; field := js "ClientID";
                    message := js "Missing ClientID" |} ] |}.

(** *** Totality *)

(** [RequestedTaskIDs] is absent, empty or a string. *)
Definition splittable (row : Row) : bool :=
  let v := getProp row (js "RequestedTaskIDs") in
  negb (present v) || isString v.

Definition numericTaskIdsRow : Row :=
  rowOf [(js "ClientID", text "C1"); (js "RequestedTaskIDs", num 12)].

Definition rowsInvalid : list Row :=
  [ rowOf [(js "ClientID", text "C1"); (js "PriorityLevel", text "9")];
    rowOf [(js "PriorityLevel", text "abc"); (js "AttributesJSON", text "{")] ].

Definition resultInvalid : ValidationResult :=
  {| validated := false;
     errors :=
       [ {| rowIndex := 0; field := js "PriorityLevel";
            message := js "PriorityLevel must be a number between 1 and 5" |};
         {| rowIndex := 1; field := js "ClientID";
            message := js "Missing ClientID" |};
         {| rowIndex := 1; field := js "PriorityLevel";
            message := js "PriorityLevel must be a number between 1 and 5" |};
         {| rowIndex := 1; field := js "AttributesJSON";
            message := js "AttributesJSON must be valid JSON" |} ] |}.

(** *** PriorityLevel *)

(** The number of errors on the field [f]. *)
Definition fieldErrors (f : jsstring) (errs : list ValidationError) : nat :=
  length (List.filter (fun e => str_eqb (field e) f) errs).

Definition integer_1_to_5 (n : number) : bool :=
  existsb (fun k => num_eq n (of_Z k)) [1; 2; 3; 4; 5].

(** The rule as a test for an integer from 1 to 5. *)
Definition priority_is_integer_rule (row : Row) : Prop :=
  forall i errs',
    present (getProp row (js "PriorityLevel")) = true ->
    validateClient row i [] = Return errs' ->
    fieldErrors (js "PriorityLevel") errs' =
      if integer_1_to_5 (ToNumber (getProp row (js "PriorityLevel")))
      then 0%nat else 1%nat.

Definition priorityRow (v : value) : Row := rowOf [(js "PriorityLevel", v)].

(** The number of PriorityLevel errors of a client row that has this
    PriorityLevel and nothing else. *)
Definition flagged (v : value) : nat :=
  match validateClient (priorityRow v) 0 [] with
  | Return errs => fieldErrors (js "PriorityLevel") errs
  | Throw _ => 0%nat
  end.

Definition priorityError (i : nat) : ValidationError :=
  {| rowIndex := i; field := js "PriorityLevel";
     message := js "PriorityLevel must be a number between 1 and 5" |}.


(** *** The errors of a row, and the fields that are read *)

(** A missing-identifier error is told by its message. *)
Definition isMissing (e : ValidationError) : bool :=
  startsWith (message e) (js "Missing ").

(** The number of missing-identifier errors reported on row [j]. *)
Definition missingErrors (j : nat) (errs : list ValidationError) : nat :=
  length (List.filter (fun e => Nat.eqb (rowIndex e) j && isMissing e) errs).

(** The fields that the validator of an entity type reads. *)
Definition checkedFields (entityType : jsstring) : list jsstring :=
  getIDField entityType ::
  (if str_eqb entityType (js "clients")
   then [js "PriorityLevel"; js "RequestedTaskIDs"; js "AttributesJSON"]
   else if str_eqb entityType (js "workers")
   then [js "AvailableSlots"; js "MaxLoadPerPhase"; js "QualificationLevel"]
   else if str_eqb entityType (js "tasks")
   then [js "Duration"; js "MaxConcurrent"; js "PreferredPhases"]
   else []).

(** [errs'] is [errs] followed by errors of row [i] that are neither
    missing-identifier nor duplicate errors. *)
Definition checks (i : nat) (errs errs' : list ValidationError) : Prop :=
  exists extra, errs' = errs ++ extra /\
    Forall (fun e => rowIndex e = i /\ isMissing e = false) extra.

(** The errors are in the order of their rows. *)
Definition ordered (errs : list ValidationError) : Prop :=
  forall a b ea eb, errs !! a = Some ea -> errs !! b = Some eb ->
    (a <= b)%nat -> (rowIndex ea <= rowIndex eb)%nat.

Definition unidentifiedRows : list Row :=
  [ rowOf [(js "TaskID", text "T1"); (js "Duration", num 0)];
    rowOf [(js "Duration", num 2)];
    rowOf [(js "TaskID", text "T3"); (js "PreferredPhases", text "2,3")] ].

Definition resultUnidentified : ValidationResult :=
  {| validated := false;
     errors :=
       [ {| rowIndex := 0; field := js "Duration";
            message := js "Duration must be a number greater than or equal to 1" |};
         {| rowIndex := 1; field := js "TaskID";
            message := js "Missing TaskID" |};
         {| rowIndex := 2; field := js "PreferredPhases";
            message := js "PreferredPhases must be in format "
                       ++ quoted (js "start - end") ++ js " (e.g., "
                       ++ quoted (js "1 - 2") ++ js ")" |} ] |}.

Definition identifiedRows : list Row :=
  [ rowOf [(js "WorkerID", text "W1"); (js "MaxLoadPerPhase", num 2)];
    rowOf [(js "WorkerID", text "W2"); (js "WorkerGroup", text "A")] ].

(** *** PreferredPhases *)

(** A range of phases as the validator takes it: digits, a hyphen, digits,
    with white space around the hyphen or none. *)
Definition isRange (s : jsstring) : Prop :=
  exists a ws1 ws2 b,
    s = a ++ ws1 ++ js "-" ++ ws2 ++ b /\
    a ≠ [] /\ forallb isDigit a = true /\
    forallb isWhiteSpace ws1 = true /\ forallb isWhiteSpace ws2 = true /\
    b ≠ [] /\ forallb isDigit b = true.

(** The errors of row [j] on the field [f]. *)
Definition cellErrors (j : nat) (f : jsstring) (errs : list ValidationError)
  : list ValidationError :=
  List.filter (fun e => Nat.eqb (rowIndex e) j && str_eqb (field e) f) errs.

Definition rangeRows : list Row :=
  [ rowOf [(js "TaskID", text "T1"); (js "PreferredPhases", text "1 - 3")];
    rowOf [(js "TaskID", text "T2"); (js "PreferredPhases", text "[1,2,3]")] ].

Definition resultRange : ValidationResult :=
  {| validated := false;
     errors :=
       [ {| rowIndex := 1; field := js "PreferredPhases";
            message := js "PreferredPhases must be in format "
                       ++ quoted (js "start - end") ++ js " (e.g., "
                       ++ quoted (js "1 - 2") ++ js ")" |} ] |}.

(** *** Datasets read from CSV *)

(** Every cell of the row is a string, as the CSV parser delivers it. *)
Definition textual (row : Row) : Prop :=
  forall key v, row !! key = Some v -> isString v = true.

Definition textualRows : list Row :=
  [ rowOf [(js "ClientID", text "C1"); (js "RequestedTaskIDs", text "12")];
    rowOf [(js "ClientID", text ""); (js "PriorityLevel", text "high")] ].

End OfValidators.

Module OfEditor.
Import NaturalLanguageEditor.

(** The field and the replacement text that an instruction names, by the
    first pattern that matches it. *)
Definition replacementOf (instruction : jsstring)
  : option (jsstring * jsstring) :=
  match exec wherePattern instruction with
  | Some m => Some (group 1 (match_groups m), group 2 (match_groups m))
  | None =>
      match exec allPattern instruction with
      | Some m => Some (group 1 (match_groups m), group 2 (match_groups m))
      | None => None
      end
  end.

(** The row satisfies the condition of a conditional instruction. *)
Definition satisfies `{CaseMapping} (m : match_result) (row : Row) : bool :=
  str_eqb (toLowerCase (ToString (getProp row (group 3 (match_groups m)))))
          (toLowerCase (group 4 (match_groups m))).

(** All keys of the object written with the replacement text. *)
Definition overwritten (props : list (jsstring * json)) (repl : jsstring)
  : json :=
  JObject (map (fun kv => (fst kv, JString repl)) props).

(** A JSON-looking value that does not parse gets the replacement text as
    it is. *)
Definition parse_failure_is_literal `{CaseMapping} (instruction : jsstring)
    (data : list Row) : Prop :=
  forall fld repl c s,
    replacementOf instruction = Some (fld, repl) ->
    In c (parseEditInstruction instruction data) ->
    oldValue c = VString s ->
    looksLikeJSON (VString s) = true ->
    JSON_parse s = None ->
    newValue c = VString repl.

Definition bracesRow : Row := rowOf [(js "Tags", text "{a,b}")].

(** The text of an object with the keys a and b. *)
Definition attributesText : jsstring :=
  js "{" ++ quoted (js "a") ++ js ":1," ++ quoted (js "b") ++ js ":[2]}".

Definition attributesRow : Row :=
  rowOf [(js "AttributesJSON", VString attributesText)].

(** Two changes write the same cell. *)
Definition sameCell (c c' : EditChange) : Prop :=
  rowIndex c' = rowIndex c /\ field c' = field c.

Definition priorityChange (i : Z) (v : string) : EditChange :=
  {| rowIndex := i; field := js "PriorityLevel"; oldValue := text "3";
     newValue := text v |}.

(** The last entry of the batch that writes a cell of a row of the dataset
    decides what the cell holds, whatever the field. *)
Definition last_entry_decides (e : entity) (p : props)
    (batch : list EditChange) : Prop :=
  forall changes1 c changes2,
    batch = changes1 ++ c :: changes2 ->
    is_Some (rowAt (dataOf e p) (rowIndex c)) ->
    Forall (fun c' => ~ sameCell c c') changes2 ->
    exists data' row',
      handleApplyChanges e p batch = Some (e, data') /\
      rowAt data' (rowIndex c) = Some row' /\
      getProp row' (field c) = newValue c.

(** A change of the first row on the field [__proto__], as the instruction
    [set __proto__=v] proposes it. *)
Definition protoChange (v : string) : EditChange :=
  {| rowIndex := 0; field := js "__proto__";
     oldValue := VBuiltin ObjectPrototype; newValue := text v |}.

Definition oneClient : props :=
  {| clientRows := [rowOf [(js "ClientID", text "C1");
                           (js "PriorityLevel", text "3")]];
     workerRows := [];
     taskRows := [] |}.


(** *** Parsed changes *)

(** The rows that an instruction applies to. *)
Definition selects `{CaseMapping} (instruction : jsstring) (row : Row)
  : bool :=
  match exec wherePattern instruction with
  | Some m => satisfies m row
  | None =>
      match exec allPattern instruction with
      | Some _ => true
      | None => false
      end
  end.

(** The row once the change computed for it is written. *)
Definition edited (fld repl : jsstring) (row : Row) : Row :=
  setProp row fld (newValue (changeFor row 0 fld repl)).

(** [row'] is [row] with [v] written to the cell [fld]: the cell holds
    [v] and the other cells are as they were; but on the field
    [__proto__] of a row without such a cell nothing is written. *)
Definition written (fld : jsstring) (v : value) (row row' : Row) : Prop :=
  (forall g, g ≠ fld -> row' !! g = row !! g) /\
  (fld ≠ js "__proto__" \/ is_Some (row !! fld) -> row' !! fld = Some v) /\
  (fld = js "__proto__" -> row !! fld = None -> row' = row).

(** A change that [data] can take: it names a row of [data], records the
    cell as it is, and brings a string. *)
Definition writable (data : list Row) (c : EditChange) : Prop :=
  isString (newValue c) = true /\
  exists row, rowAt data (rowIndex c) = Some row /\
              oldValue c = getProp row (field c).

(** The error that [handleEdit] reports. *)
Definition unparsed : jsstring :=
  js "Unable to parse instruction. Try: set column=value where column2=somevalue".

(** *** Instructions that are understood *)

(** A column name: word characters, at least one. *)
Definition isName (s : jsstring) : bool :=
  negb (Nat.eqb (length s) 0) && forallb isWordChar s.

(** A value as an instruction can name it: no white space, and not
    empty. *)
Definition isWord (s : jsstring) : bool :=
  negb (Nat.eqb (length s) 0) && forallb (fun c => negb (isWhiteSpace c)) s.

(** The condition [where <name>=<value>] holds of the row: the cell reads
    as the value, whatever the case of the letters. *)
Definition holds `{CaseMapping} (name value : jsstring) (row : Row) : bool :=
  str_eqb (toLowerCase (ToString (getProp row name))) (toLowerCase value).

End OfEditor.

Module OfAutoFix.
Import AutoFixPanel.

(** The suggestions that the selected indices name, in the order of the
    selection. *)
Definition chosen (suggestedFixes : list ValidationFix)
    (selectedFixes : list nat) : list ValidationFix :=
  omap (fun index => suggestedFixes !! index) selectedFixes.

Definition priorityFix (i : Z) (v : string) : ValidationFix :=
  {| rowIndex := i; field := js "PriorityLevel"; oldValue := text "9";
     newValue := text v; reasoning := js "PriorityLevel must be between 1-5" |}.


(** Two fixes write the same cell. *)
Definition sameTarget (f f' : ValidationFix) : Prop :=
  rowIndex f' = rowIndex f /\ field f' = field f.

End OfAutoFix.

Module OfGateway.
Import Gemini AI.

(** [candidates[0].content.parts[0].text] *)
Definition textPath : list jsstring :=
  [js "candidates"; js "0"; js "content"; js "parts"; js "0"; js "text"].

(** The value at the end of a path of keys, if all of it is there. *)
Definition follow (path : list jsstring) (data : json) : option json :=
  fold_left (fun v k => match v with Some x => member x k | None => None end)
    path (Some data).

(** A text without the code unit U+0008. *)
Definition noBackspace (s : jsstring) : Prop := Forall (fun c => c ≠ 8%N) s.

(** The characters of pattern syntax. *)
Definition isSyntaxCharacter (c : N) : bool :=
  existsb (N.eqb c) (js "^$\.*+?()[]{}|").

(** A column name that the constructor of patterns reads as literal text
    and that [replace] writes as it is: no syntax character in the name,
    nor in its lower-case form. *)
Definition plainName `{CaseMapping} (col : jsstring) : bool :=
  forallb (fun c => negb (isSyntaxCharacter c)) col
  && forallb (fun c => negb (isSyntaxCharacter c)) (toLowerCase col).

(** A continuation that fails on every state at or after a state. *)
Definition dead (k : mstate -> captures -> option (mstate * captures))
    (st : mstate) : Prop :=
  forall st' caps, after st' `suffix_of` after st -> k st' caps = None.

(** A body in which the path is absent is answered with the empty text. *)
Definition absent_text_is_empty (body : jsstring) : Prop :=
  forall status data,
    JSON_parse body = Some data ->
    follow textPath data = None ->
    geminiChatCompletion (Response true status body) = Return (JString []).


(** What an operation makes of the provider's answer: the answer has to be
    a text that is not empty and, once its fences are taken out, parses. *)
Definition answered (reply : fetched) (v : json) : Prop :=
  exists text,
    geminiChatCompletion reply = Return (JString text) /\
    text ≠ [] /\
    JSON_parse (extractJsonBlock text) = Some v.

(** The fence of a code block. *)
Definition fence : jsstring := js "```".

End OfGateway.

Module OfSearch.
Import NaturalLanguageSearch.

(** The filter returns on the row, without a throw. *)
Definition answers (filterFunction : Row -> completion bool) (row : Row)
  : Prop :=
  exists keep, filterFunction row = Return keep.

(** The filter keeps the row. *)
Definition keeps (filterFunction : Row -> completion bool) (row : Row)
  : bool :=
  match filterFunction row with
  | Return keep => keep
  | Throw _ => false
  end.

End OfSearch.

Module OfPage.
Import Validators.

(** The rows of a dataset of [n] rows that have an error. *)
Definition errorRows (n : nat) (errs : list ValidationError) : list nat :=
  List.filter (fun i => existsb (fun e => Nat.eqb (rowIndex e) i) errs)
    (seq 0 n).

End OfPage.

Module OfRoutes.
Import Gemini AI Routes OfGateway.

Definition given {A} (field : option A) : bool :=
  match field with Some _ => true | None => false end.

(** The fields that each route requires. *)
Definition asks_fixes (req : request) : bool :=
  given (errors req) && given (data req) && given (filled (entityType req)).

Definition asks_query (req : request) : bool :=
  given (filled (userQuery req)) && given (data req)
  && given (filled (entityType req)).

Definition asks_warnings (req : request) : bool :=
  given (data req) && given (filled (entityType req)).

Definition asks_rules (req : request) : bool :=
  given (clients req) && given (workers req) && given (tasks req).

(** What a route may answer: 400 with its message exactly when a required
    field is missing, whatever the provider does; 200 only with what the
    provider's answer parses to, as [sent] relates the two; 500 with the
    route's own message otherwise. *)
Definition contract (required : request -> bool) (missing failed : jsstring)
    (sent : json -> json -> Prop)
    (route : request -> fetched -> response) : Prop :=
  forall req reply,
    if required req then
      (status (route req reply) = 200%N /\
       exists v, answered reply v /\ sent v (body (route req reply)))
      \/ route req reply = failure 500 failed
    else route req reply = failure 400 missing.

(** The filter route sends the object of the answer, which holds a
    predicate text that is not empty, and sends it as it is when the text
    has no U+0008 in it. *)
Definition sent_filter (v sent : json) : Prop :=
  exists props f,
    v = JObject props /\
    lookupProp (js "filterFunction") props = Some (JString f) /\
    f ≠ [] /\
    (noBackspace f -> sent = v).

(** The columns of the request, those of its first row, are free of
    pattern syntax. *)
Definition plainRequest `{CaseMapping} (req : request) : Prop :=
  forall rows columns,
    data req = Some rows -> columnsOf rows = Return columns ->
    forallb plainName columns = true.

(** The contract of the filter route, whose operation compiles a pattern
    from every column name: what it answers when the required fields are
    there is stated for the requests whose columns are free of pattern
    syntax. *)
Definition filter_contract `{CaseMapping} (missing failed : jsstring)
    (route : request -> fetched -> response) : Prop :=
  forall req reply,
    if asks_query req then
      plainRequest req ->
      (status (route req reply) = 200%N /\
       exists v, answered reply v /\ sent_filter v (body (route req reply)))
      \/ route req reply = failure 500 failed
    else route req reply = failure 400 missing.

(** The route answers 200, with what the provider's answer parses to,
    whenever the required fields are there and the answer parses. *)
Definition serves (required : request -> bool)
    (route : request -> fetched -> response) : Prop :=
  forall req reply v,
    required req = true -> answered reply v -> route req reply = ok v.

End OfRoutes.

End Statements.

(** * Proofs *)

(** ** Facts about the runtime *)

Module RuntimeFacts.
Import JS Statements.

Lemma str_eqb_eq s t : str_eqb s t = true <-> s = t.
Proof.
  revert t.
  induction s as [| c s IH]; intros [| d t]; simpl; try (split; congruence).
  rewrite andb_true_iff, N.eqb_eq, IH.
  split; [intros [-> ->]; done | intros [= -> ->]; done].
Qed.

Lemma str_eqb_refl s : str_eqb s s = true.
Proof. by apply str_eqb_eq. Qed.

(** On numbers other than zero and NaN, [===] is equality. *)
Lemma num_eq_eq x y :
  match x with S754_finite _ _ _ | S754_infinity _ => True | _ => False end ->
  num_eq x y = true -> y = x.
Proof.
  unfold num_eq, SFeqb, SFcompare.
  destruct x as [sx | sx | | sx mx ex], y as [sy | sy | | sy my ey]; try done;
    intros _.
  all: try (destruct sx; done).
  all: try (destruct sx, sy; simpl; intros; simplify_eq; done).
  destruct sx, sy; try done.
  - destruct (Z.compare_spec ex ey); try done. subst.
    change (Pos.compare_cont Eq mx my) with (Pos.compare mx my).
    destruct (Pos.compare_spec mx my); try done. by subst.
  - destruct (Z.compare_spec ex ey); try done. subst.
    change (Pos.compare_cont Eq mx my) with (Pos.compare mx my).
    destruct (Pos.compare_spec mx my); try done. by subst.
Qed.

Lemma num_eq_refl x :
  match x with S754_nan => False | _ => True end -> num_eq x x = true.
Proof.
  unfold num_eq, SFeqb, SFcompare.
  destruct x as [sx | sx | | sx mx ex]; try done; intros _.
  - by destruct sx.
  - destruct sx; rewrite Z.compare_refl;
      change (Pos.compare_cont Eq mx mx) with (Pos.compare mx mx);
      by rewrite Pos.compare_refl.
Qed.

Lemma sameBuiltin_eq a b : sameBuiltin a b = true <-> a = b.
Proof. split; [by destruct a, b | intros <-; by destruct a]. Qed.

(** A truthy value is the same value as itself only. *)
Lemma SameValueZero_eq v w :
  ToBoolean v = true -> SameValueZero v w = true -> w = v.
Proof.
  destruct v as [| | b | x | s | o]; simpl; try done.
  - intros ->. destruct w as [| | [] | y | t | o']; done.
  - intros Hx. destruct x; try done;
      destruct w as [| | b' | y | t | o']; try done;
      simpl; intros H; f_equal; by apply num_eq_eq.
  - intros _. destruct w as [| | b' | y | t | o']; try done.
    simpl. intros H. f_equal. symmetry. by apply str_eqb_eq.
  - intros _. destruct w as [| | b' | y | t | o']; try done.
    simpl. intros H. f_equal. symmetry. by apply sameBuiltin_eq.
Qed.

Lemma SameValueZero_refl v : ToBoolean v = true -> SameValueZero v v = true.
Proof.
  destruct v as [| | b | x | s | o]; simpl; try done.
  - by intros ->.
  - intros H. destruct x; try done; by apply num_eq_refl.
  - intros _. apply str_eqb_refl.
  - intros _. by apply sameBuiltin_eq.
Qed.

(** Within Latin-1 the lower-case form is that of the code units, whatever
    the tables of the engine say of other texts. *)
Lemma toLowerCase_latin1 {table : CaseMapping} s :
  isLatin1 s = true -> toLowerCase s = map lowerChar s.
Proof. intros H. unfold toLowerCase. by rewrite H. Qed.

Lemma existsb_snoc {A} (f : A -> bool) l x :
  existsb f (l ++ [x]) = existsb f l || f x.
Proof. rewrite existsb_app. simpl. by rewrite orb_false_r. Qed.

(** *** Cells *)

(** A name that no object inherits reads as the cell, or as undefined. *)
Lemma getProp_own row key :
  inherited key = None -> getProp row key = default VUndefined (row !! key).
Proof. intros H. unfold getProp. rewrite H. by destruct (row !! key). Qed.

Lemma getProp_cell row key v : row !! key = Some v -> getProp row key = v.
Proof. intros H. unfold getProp. by rewrite H. Qed.

(** The assignment makes or writes the cell, but for [__proto__] on a row
    that has no such cell. *)
Lemma setProp_cell row f v :
  f ≠ js "__proto__" \/ is_Some (row !! f) -> setProp row f v !! f = Some v.
Proof.
  intros H. unfold setProp. destruct (row !! f) as [w |] eqn:E.
  - apply lookup_insert_eq.
  - destruct (str_eqb f (js "__proto__")) eqn:Hf.
    + apply str_eqb_eq in Hf. destruct H as [H | [w H]]; done.
    + apply lookup_insert_eq.
Qed.

Lemma setProp_other row f g v : f ≠ g -> setProp row f v !! g = row !! g.
Proof.
  intros H. unfold setProp.
  destruct (row !! f); [by apply lookup_insert_ne |].
  destruct (str_eqb f (js "__proto__")); [done | by apply lookup_insert_ne].
Qed.

(** The setter of [__proto__] makes no cell. *)
Lemma setProp_proto row v :
  row !! js "__proto__" = None -> setProp row (js "__proto__") v = row.
Proof. intros H. unfold setProp. by rewrite H. Qed.

Lemma getProp_setProp row f v :
  f ≠ js "__proto__" \/ is_Some (row !! f) -> getProp (setProp row f v) f = v.
Proof. intros H. apply getProp_cell. by apply setProp_cell. Qed.

Lemma getProp_setProp_ne row f g v :
  f ≠ g -> getProp (setProp row f v) g = getProp row g.
Proof. intros H. unfold getProp. by rewrite setProp_other. Qed.

(** *** Trimming *)

Lemma trimStart_suffix s :
  exists ws, s = ws ++ trimStart s /\ forallb isWhiteSpace ws = true.
Proof.
  induction s as [| c s [ws [Hs Hws]]]; simpl.
  - by exists [].
  - destruct (isWhiteSpace c) eqn:Hc.
    + exists (c :: ws). simpl. rewrite Hc, Hws. split; [by f_equal | done].
    + by exists [].
Qed.

Lemma trimEnd_prefix s : exists ws, s = trimEnd s ++ ws.
Proof.
  unfold trimEnd. destruct (trimStart_suffix (rev s)) as [ws [Hs _]].
  exists (rev ws). rewrite <- rev_app_distr, <- Hs. by rewrite rev_involutive.
Qed.

Lemma startsWith_app s t p :
  startsWith s p = true -> startsWith (s ++ t) p = true.
Proof.
  revert s. induction p as [| d p IH]; intros [| c s]; simpl; try done.
  rewrite !andb_true_iff. intros [? ?]. split; [done | by apply IH].
Qed.

Lemma trim_startsWith s p :
  startsWith (trim s) p = true -> startsWith (trimStart s) p = true.
Proof.
  unfold trim. intros H. destruct (trimEnd_prefix (trimStart s)) as [ws Hws].
  rewrite Hws. by apply startsWith_app.
Qed.

(** *** JSON: a text that opens with a brace parses to an object *)

Lemma parseMembers_object : forall fuel s acc v rest,
  parseMembers fuel s acc = Some (v, rest) -> exists props, v = JObject props.
Proof.
  induction fuel as [| f IH]; intros s acc v rest; simpl; [done |].
  repeat (case_match; try done); intros; simplify_eq; eauto.
Qed.

(** Past the white space that [trim] drops, the parser is at the brace or
    at a code unit that is no JSON white space and starts no value. *)
Lemma skipSpace_brace s :
  startsWith (trimStart s) [123%N] = true ->
  exists c tl, skipSpace s = c :: tl /\
    ((c =? 123)%N = true \/ (isWhiteSpace c = true /\ isJsonSpace c = false)).
Proof.
  induction s as [| c s IH]; simpl; [done |].
  destruct (isWhiteSpace c) eqn:Hc.
  - destruct (isJsonSpace c) eqn:Hj; [done |].
    intros _. exists c, s. split; [done |]. by right.
  - simpl. intros Hs.
    assert (Hb : (c =? 123)%N = true) by by destruct (c =? 123)%N.
    replace (isJsonSpace c) with false
      by (apply N.eqb_eq in Hb; by subst c).
    exists c, s. split; [done |]. by left.
Qed.

Lemma whitespace_is_no_number_char c :
  isWhiteSpace c = true -> isNumberChar c = false.
Proof.
  intros Hw.
  assert (Hn : forall k, isWhiteSpace k = false -> (c =? k)%N = false).
  { intros k Hk. destruct (N.eqb_spec c k); [by subst; congruence | done]. }
  unfold isNumberChar, isDigit, between.
  rewrite !Hn by done.
  unfold isWhiteSpace, between in Hw.
  destruct (N.leb_spec 48 c), (N.leb_spec c 57); simpl; try done.
  exfalso. revert Hw.
  repeat match goal with
         | |- context [(?a <=? ?b)%N] => destruct (N.leb_spec a b); try lia
         | |- context [(?a =? ?b)%N] => destruct (N.eqb_spec a b); try lia
         end; simpl; done.
Qed.

Lemma parseValue_brace fuel s v rest :
  startsWith (trimStart s) (js "{") = true ->
  parseValue fuel s = Some (v, rest) -> exists props, v = JObject props.
Proof.
  intros Hs. change (js "{") with [123%N] in Hs.
  destruct fuel as [| f]; [done |].
  destruct (skipSpace_brace s Hs) as [c [tl [Hsk Hc]]]. simpl. rewrite Hsk.
  destruct Hc as [Hc | [Hw Hj]].
  - apply N.eqb_eq in Hc. subst c. change (123 =? ch "{")%N with true.
    cbv iota.
    repeat case_match; intros; simplify_eq; eauto using parseMembers_object.
  - assert (Hn : forall k, isWhiteSpace k = false -> (c =? k)%N = false).
    { intros k Hk. destruct (N.eqb_spec c k); [by subst; congruence | done]. }
    rewrite !Hn by done.
    unfold parseNumber. simpl span.
    by rewrite whitespace_is_no_number_char.
Qed.

Lemma JSON_parse_brace s v :
  startsWith (trim s) (js "{") = true ->
  JSON_parse s = Some v -> exists props, v = JObject props.
Proof.
  intros Hs. apply trim_startsWith in Hs. unfold JSON_parse.
  destruct (parseValue _ _) as [[v' rest] |] eqn:Hp; [| done].
  destruct (skipSpace rest); [| done]. intros [= <-].
  by eapply parseValue_brace.
Qed.

(** *** JSON: the parser has the fuel it needs *)

Lemma skipSpace_length s : (length (skipSpace s) <= length s)%nat.
Proof.
  induction s as [| c s IH]; simpl; [lia |].
  destruct (isJsonSpace c); simpl; lia.
Qed.

Lemma span_length p s a b :
  span p s = (a, b) -> length s = (length a + length b)%nat.
Proof.
  revert a b. induction s as [| c s IH]; intros a b; simpl.
  - by intros [= <- <-].
  - destruct (p c).
    + destruct (span p s) as [a' b'] eqn:E. intros [= <- <-]. simpl.
      by rewrite (IH a' b').
    + by intros [= <- <-].
Qed.

Lemma hex4_length s u rest :
  hex4 s = Some (u, rest) -> (length rest < length s)%nat.
Proof.
  unfold hex4. repeat (case_match; try done). intros [= <- <-]. simpl. lia.
Qed.

Lemma parseString_length : forall f s acc r rest,
  parseString f s acc = Some (r, rest) -> (length rest < length s)%nat.
Proof.
  induction f as [| f IH]; intros s acc r rest; simpl; [done |].
  repeat (case_match; try done); intros Hres; simplify_eq; simpl;
    try lia;
    try (apply IH in Hres; simpl in *;
         try match goal with
             | Hh : hex4 _ = Some _ |- _ => apply hex4_length in Hh
             end; lia).
Qed.

Lemma parseString_fuel : forall f g s acc,
  (length s < f)%nat -> (length s < g)%nat ->
  parseString f s acc = parseString g s acc.
Proof.
  induction f as [| f IH]; intros g s acc Hf Hg; [lia |].
  destruct g as [| g]; [lia |]. simpl.
  repeat (case_match; try done); simplify_eq; simpl in *;
    apply IH; try lia.
  all: match goal with Hh : hex4 _ = Some _ |- _ => apply hex4_length in Hh end;
    lia.
Qed.

Lemma parseNumber_length s v rest :
  parseNumber s = Some (v, rest) -> (length rest < length s)%nat.
Proof.
  unfold parseNumber. destruct (span isNumberChar s) as [t r] eqn:E.
  destruct (jsonNumberShape t) eqn:Hshape; [| done]. intros [= <- <-].
  apply span_length in E. destruct t; [done |]. simpl in E. lia.
Qed.

Lemma parseLiteral_length word v s r rest :
  word ≠ [] ->
  parseLiteral word v s = Some (r, rest) -> (length rest < length s)%nat.
Proof.
  unfold parseLiteral. intros Hw. destruct (startsWith s word) eqn:E; [| done].
  intros [= <- <-]. rewrite length_skipn.
  destruct word as [| d w]; [done |]. destruct s; [done |]. simpl. lia.
Qed.

Ltac len_facts IHv IHe IHm :=
  repeat match goal with
  | H : skipSpace ?x = _ |- _ =>
      let L := fresh "L" in
      pose proof (skipSpace_length x) as L; rewrite H in L; simpl in L; clear H
  | H : parseString _ _ _ = Some _ |- _ => apply parseString_length in H
  | H : parseValue _ _ = Some _ |- _ => apply IHv in H
  | H : parseElements _ _ _ = Some _ |- _ => apply IHe in H
  | H : parseMembers _ _ _ = Some _ |- _ => apply IHm in H
  | H : parseNumber _ = Some _ |- _ => apply parseNumber_length in H
  | H : parseLiteral _ _ _ = Some _ |- _ =>
      apply parseLiteral_length in H; [| done]
  end.

Lemma parse_length : forall f,
  (forall s v rest, parseValue f s = Some (v, rest) ->
                    (length rest < length s)%nat) /\
  (forall s acc v rest, parseElements f s acc = Some (v, rest) ->
                        (length rest < length s)%nat) /\
  (forall s acc v rest, parseMembers f s acc = Some (v, rest) ->
                        (length rest < length s)%nat).
Proof.
  induction f as [| f [IHv [IHe IHm]]]; [by repeat split |].
  split; [| split].
  - intros s v rest. cbn [parseValue].
    repeat (case_match; try done); intros Hres; simplify_eq;
      len_facts IHv IHe IHm; simpl in *; lia.
  - intros s acc v rest. cbn [parseElements].
    repeat (case_match; try done); intros Hres; simplify_eq;
      len_facts IHv IHe IHm; simpl in *; lia.
  - intros s acc v rest. cbn [parseMembers].
    repeat (case_match; try done); intros Hres; simplify_eq;
      len_facts IHv IHe IHm; simpl in *; lia.
Qed.

Ltac skip_facts :=
  repeat match goal with
  | H : skipSpace ?x = _ |- _ =>
      let L := fresh "L" in
      pose proof (skipSpace_length x) as L; rewrite H in L; simpl in L; clear H
  | H : parseString _ _ _ = Some _ |- _ => apply parseString_length in H
  | H : parseValue _ _ = Some _ |- _ => apply parse_length in H
  end.

Lemma stableValue_step n :
  stableElements n -> stableMembers n -> stableValue (S n).
Proof.
  intros HE HM s f g Hs Hf Hg.
  destruct f as [| f]; [lia |]. destruct g as [| g]; [lia |].
  cbn [parseValue].
  repeat (case_match; try done); skip_facts;
    first [apply HE | apply HM]; simpl in *; lia.
Qed.

Lemma stableElements_step n :
  stableValue (S n) -> stableElements n -> stableElements (S n).
Proof.
  intros HV HE s acc f g Hs Hf Hg.
  destruct f as [| f]; [lia |]. destruct g as [| g]; [lia |].
  cbn [parseElements]. rewrite (HV s f g) by lia.
  repeat (case_match; try done); skip_facts; apply HE; simpl in *; lia.
Qed.

Lemma stableMembers_step n :
  stableValue (S n) -> stableMembers n -> stableMembers (S n).
Proof.
  intros HV HM s acc f g Hs Hf Hg.
  destruct f as [| f]; [lia |]. destruct g as [| g]; [lia |].
  cbn [parseMembers].
  repeat case_match; try done.
  all: repeat match goal with
       | Ha : parseValue ?a ?x = _, Hb : parseValue ?b ?x = _ |- _ =>
           rewrite (HV x a b) in Ha by (skip_facts; simpl in *; lia);
           rewrite Ha in Hb
       end; simplify_eq; try done.
  all: repeat match goal with
       | Ha : skipSpace ?x = _, Hb : skipSpace ?x = _ |- _ =>
           rewrite Ha in Hb; simplify_eq
       end; try done.
  all: skip_facts; apply HM; simpl in *; lia.
Qed.

Lemma parse_stable : forall n,
  stableValue n /\ stableElements n /\ stableMembers n.
Proof.
  induction n as [| n [HV [HE HM]]].
  - assert (HV0 : stableValue 0).
    { intros s f g Hs Hf Hg. destruct s; [| simpl in Hs; lia].
      destruct f as [| f]; [simpl in *; lia |].
      destruct g as [| g]; [simpl in *; lia |]. done. }
    split; [exact HV0 |]. split.
    + intros s acc f g Hs Hf Hg. destruct s; [| simpl in Hs; lia].
      destruct f as [| f]; [simpl in *; lia |].
      destruct g as [| g]; [simpl in *; lia |].
      cbn [parseElements]. rewrite (HV0 [] f g) by (simpl in *; lia).
      destruct g; [simpl in *; lia | done].
    + intros s acc f g Hs Hf Hg. destruct s; [| simpl in Hs; lia].
      destruct f as [| f]; [simpl in *; lia |].
      destruct g as [| g]; [simpl in *; lia |]. done.
  - pose proof (stableValue_step n HE HM) as HV'.
    split; [exact HV' |]. split.
    + by apply stableElements_step.
    + by apply stableMembers_step.
Qed.

(** More fuel than [JSON_parse] gives the parser changes no result. *)
Lemma JSON_parse_fuel text fuel :
  (2 * length text + 2 <= fuel)%nat ->
  parseValue fuel text = parseValue (2 * length text + 2) text.
Proof.
  intros H. by apply (proj1 (parse_stable (length text))).
Qed.

(** *** Regular expressions: the matcher has the fuel it needs *)

Lemma reach_refl fwd st : reach fwd st st.
Proof. exists []. by destruct fwd. Qed.

Lemma reach_trans fwd a b c : reach fwd a b -> reach fwd b c -> reach fwd a c.
Proof.
  intros [l Hl] [m Hm]. exists (l ++ m). destruct fwd; simpl in *.
  - destruct Hl as [Hl1 Hl2], Hm as [Hm1 Hm2]. split.
    + by rewrite Hl1, Hm1, app_assoc.
    + by rewrite Hm2, Hl2, rev_app_distr, app_assoc.
  - destruct Hl as [Hl1 Hl2], Hm as [Hm1 Hm2]. split.
    + by rewrite Hl1, Hm1, app_assoc.
    + by rewrite Hm2, Hl2, rev_app_distr, app_assoc.
Qed.

Lemma reach_step fwd st c st' : step fwd st = Some (c, st') -> reach fwd st st'.
Proof.
  unfold step. intros H. exists [c]. destruct fwd; simpl.
  - destruct (after st) eqn:E; [done |]. by simplify_eq.
  - destruct (before st) eqn:E; [done |]. by simplify_eq.
Qed.

Lemma reach_room fwd st st' :
  reach fwd st st' ->
  (room fwd st' <= room fwd st)%nat /\
  (position st' ≠ position st -> room fwd st' < room fwd st)%nat.
Proof.
  intros [l Hl]. unfold room, position. destruct fwd; simpl in Hl.
  - destruct Hl as [H1 H2]. rewrite H1, H2, !length_app, length_rev. lia.
  - destruct Hl as [H1 H2]. rewrite H1, !length_app. lia.
Qed.

(** What [run] answers, its continuation answered at a state it reached. *)
Lemma run_inv r : forall fwd st caps k res,
  run r fwd st caps k = Some res ->
  exists st' caps', reach fwd st st' /\ k st' caps' = Some res.
Proof.
  induction r as [| p | a IHa b IHb | a IHa b IHb | a IHa | i a IHa | |
                  | a IHa | a IHa]; intros fwd st caps k res; cbn [run].
  - intros H. exists st, caps. split; [apply reach_refl | done].
  - destruct (step fwd st) as [[c st'] |] eqn:Hstep; [| done].
    destruct (p c); [| done]. intros H. exists st', caps.
    split; [by eapply reach_step | done].
  - destruct fwd.
    + intros H. apply IHa in H as [st1 [caps1 [H1 H]]].
      apply IHb in H as [st2 [caps2 [H2 H]]].
      exists st2, caps2. split; [by eapply reach_trans | done].
    + intros H. apply IHb in H as [st1 [caps1 [H1 H]]].
      apply IHa in H as [st2 [caps2 [H2 H]]].
      exists st2, caps2. split; [by eapply reach_trans | done].
  - destruct (run a fwd st caps k) eqn:Ha.
    + intros [= <-]. by apply IHa in Ha.
    + apply IHb.
  - generalize (room fwd st). intros n. revert st caps.
    induction n as [| n IHn]; intros st caps; cbn [starLoop].
    + intros H. exists st, caps. split; [apply reach_refl | done].
    + destruct (run a fwd st caps _) eqn:Ha.
      * intros [= <-]. apply IHa in Ha as [st1 [caps1 [H1 H]]].
        destruct (_ =? _)%nat; [done |].
        apply IHn in H as [st2 [caps2 [H2 H]]].
        exists st2, caps2. split; [by eapply reach_trans | done].
      * intros H. exists st, caps. split; [apply reach_refl | done].
  - intros H. apply IHa in H as [st1 [caps1 [H1 H]]]. eauto.
  - destruct (before st); [| done]. intros H. exists st, caps.
    split; [apply reach_refl | done].
  - destruct (after st); [| done]. intros H. exists st, caps.
    split; [apply reach_refl | done].
  - destruct (run a true st caps _) as [[e caps'] |]; [| done].
    intros H. exists st, caps'. split; [apply reach_refl | done].
  - destruct (run a false st caps _) as [[e caps'] |]; [| done].
    intros H. exists st, caps'. split; [apply reach_refl | done].
Qed.

(** Two continuations that agree on the states [run] can reach. *)
Lemma run_ext r : forall fwd st caps k k',
  (forall st' caps', reach fwd st st' -> k st' caps' = k' st' caps') ->
  run r fwd st caps k = run r fwd st caps k'.
Proof.
  induction r as [| p | a IHa b IHb | a IHa b IHb | a IHa | i a IHa | |
                  | a IHa | a IHa]; intros fwd st caps k k' Hk; cbn [run].
  - apply Hk, reach_refl.
  - destruct (step fwd st) as [[c st'] |] eqn:Hstep; [| done].
    destruct (p c); [| done]. apply Hk. by eapply reach_step.
  - destruct fwd.
    + apply IHa. intros st1 caps1 H1. apply IHb. intros st2 caps2 H2.
      apply Hk. by eapply reach_trans.
    + apply IHb. intros st1 caps1 H1. apply IHa. intros st2 caps2 H2.
      apply Hk. by eapply reach_trans.
  - rewrite (IHa fwd st caps k k' Hk), (IHb fwd st caps k k' Hk). done.
  - generalize (room fwd st). intros n.
    assert (Hgen : forall st1 caps1, reach fwd st st1 ->
              starLoop (run a fwd) k n st1 caps1 =
              starLoop (run a fwd) k' n st1 caps1).
    { induction n as [| n IHn]; intros st1 caps1 H1; cbn [starLoop].
      - by apply Hk.
      - rewrite (Hk st1 caps1 H1).
        erewrite IHa; [reflexivity |].
        intros st2 caps2 H2. cbv beta.
        destruct (_ =? _)%nat; [done |]. apply IHn. by eapply reach_trans. }
    apply Hgen, reach_refl.
  - apply IHa. intros st1 caps1 H1. by apply Hk.
  - destruct (before st); [| done]. apply Hk, reach_refl.
  - destruct (after st); [| done]. apply Hk, reach_refl.
  - destruct (run a true st caps _) as [[e caps'] |]; [| done].
    apply Hk, reach_refl.
  - destruct (run a false st caps _) as [[e caps'] |]; [| done].
    apply Hk, reach_refl.
Qed.

(** The star has the fuel it needs: more of it changes nothing. *)
Lemma starLoop_fuel a fwd k : forall n m st caps,
  (room fwd st <= n)%nat -> (room fwd st <= m)%nat ->
  starLoop (run a fwd) k n st caps = starLoop (run a fwd) k m st caps.
Proof.
  assert (Hstuck : forall n st caps, room fwd st = 0%nat ->
            starLoop (run a fwd) k n st caps = k st caps).
  { intros [| n] st caps H0; cbn [starLoop]; [done |].
    destruct (run a fwd st caps _) as [res |] eqn:Ha; [| done].
    apply run_inv in Ha as [st1 [caps1 [H1 H]]].
    apply reach_room in H1 as [Hle Hlt].
    destruct (Nat.eqb_spec (position st1) (position st)); [done |].
    specialize (Hlt ltac:(done)). lia. }
  induction n as [| n IHn]; intros m st caps Hn Hm.
  - rewrite !Hstuck by lia. done.
  - destruct m as [| m]; [rewrite !Hstuck by lia; done |].
    cbn [starLoop]. erewrite run_ext; [reflexivity |].
    intros st1 caps1 H1. cbv beta.
    apply reach_room in H1 as [Hle Hlt].
    destruct (Nat.eqb_spec (position st1) (position st)); [done |].
    specialize (Hlt ltac:(done)). apply IHn; lia.
Qed.

(** A match lies ahead of where the search began, and ends at or after
    its start. *)
Lemma search_inv r : forall aft bef m,
  search r bef aft = Some m ->
  reach true (MState bef aft) (match_start m) /\
  reach true (match_start m) (match_end m).
Proof.
  induction aft as [| c aft IH]; intros bef m; cbn [search]; cbv zeta.
  - destruct (run r true _ [] _) as [[e caps] |] eqn:Hrun; [| done].
    intros [= <-]. cbn [match_start match_end]. split; [apply reach_refl |].
    apply run_inv in Hrun as [st' [caps' [H1 H]]]. by simplify_eq.
  - destruct (run r true _ [] _) as [[e caps] |] eqn:Hrun.
    + intros [= <-]. cbn [match_start match_end]. split; [apply reach_refl |].
      apply run_inv in Hrun as [st' [caps' [H1 H]]]. by simplify_eq.
    + intros H. apply IH in H as [H1 H2]. split; [| done].
      eapply reach_trans; [| exact H1]. by exists [c].
Qed.

(** The replacement has the fuel it needs. *)
Lemma replaceFrom_fuel r repl : forall f g st,
  (length (after st) < f)%nat -> (length (after st) < g)%nat ->
  replaceFrom f r repl st = replaceFrom g r repl st.
Proof.
  induction f as [| f IH]; intros g st Hf Hg; [lia |].
  destruct g as [| g]; [lia |]. cbn [replaceFrom].
  destruct (search r (before st) (after st)) as [m |] eqn:Hs; [| done].
  assert (Hst : MState (before st) (after st) = st) by by destruct st.
  apply search_inv in Hs as [H1 H2]. rewrite Hst in H1. clear Hst. cbv zeta.
  apply reach_room in H1 as [Hle1 _].
  apply reach_room in H2 as [Hle2 Hlt2].
  unfold room in *.
  destruct (Nat.eqb_spec (position (match_end m)) (position (match_start m))).
  - destruct (after (match_end m)) as [| c rest] eqn:E; [done |].
    do 3 f_equal. apply IH; simpl in *; lia.
  - specialize (Hlt2 ltac:(done)). do 2 f_equal. apply IH; lia.
Qed.

End RuntimeFacts.

(** ** Facts about texts and patterns *)

Module PatternFacts.
Import JS Statements Statements.OfGateway RuntimeFacts.

(** *** Trimming *)

Lemma trimStart_fixed s :
  match s with [] => True | c :: _ => isWhiteSpace c = false end ->
  trimStart s = s.
Proof. destruct s as [| c s]; [done |]. simpl. by intros ->. Qed.

Lemma trimStart_head s :
  match trimStart s with [] => True | c :: _ => isWhiteSpace c = false end.
Proof.
  induction s as [| c s IH]; [done |]. simpl.
  destruct (isWhiteSpace c) eqn:E; [exact IH | exact E].
Qed.

Lemma trim_trim s : trim (trim s) = trim s.
Proof.
  unfold trim, trimEnd.
  set (y := trimStart s).
  set (z := trimStart (rev y)).
  assert (Hz : match z with [] => True | c :: _ => isWhiteSpace c = false end)
    by apply trimStart_head.
  assert (Hy : match y with [] => True | c :: _ => isWhiteSpace c = false end)
    by apply trimStart_head.
  assert (Hrz : trimStart (rev z) = rev z).
  { apply trimStart_fixed.
    destruct (trimStart_suffix (rev y)) as [ws [Hws _]]. fold z in Hws.
    apply (f_equal (@rev N)) in Hws.
    rewrite rev_involutive, rev_app_distr in Hws.
    destruct (rev z) as [| c r] eqn:E; [done |].
    rewrite Hws in Hy. exact Hy. }
  rewrite Hrz, rev_involutive. by rewrite (trimStart_fixed z).
Qed.

(** *** Classes of code units *)

Lemma word_is_no_space c : isWordChar c = true -> isWhiteSpace c = false.
Proof.
  unfold isWordChar, isWhiteSpace, isDigit, between. intros H.
  repeat (apply orb_true_iff in H as [H | H]);
    repeat (apply andb_true_iff in H as [? H]);
    repeat match goal with
           | H : (_ <=? _)%N = true |- _ => apply N.leb_le in H
           | H : (_ =? _)%N = true |- _ => apply N.eqb_eq in H
           end;
    repeat (apply orb_false_iff; split);
    try (apply andb_false_iff;
         (left; apply N.leb_gt; lia) || (right; apply N.leb_gt; lia));
    try (apply N.eqb_neq; lia).
Qed.

Lemma digit_is_no_space c : isDigit c = true -> isWhiteSpace c = false.
Proof.
  unfold isDigit, isWhiteSpace, between. intros H.
  apply andb_true_iff in H as [H1 H2].
  apply N.leb_le in H1, H2.
  repeat (apply orb_false_iff; split);
    try (apply andb_false_iff;
         (left; apply N.leb_gt; lia) || (right; apply N.leb_gt; lia));
    try (apply N.eqb_neq; lia).
Qed.

Lemma space_is_no_digit c : isWhiteSpace c = true -> isDigit c = false.
Proof.
  intros H. destruct (isDigit c) eqn:E; [| done].
  apply digit_is_no_space in E. congruence.
Qed.

(** *** Texts *)

Lemma includes_cons c s p :
  includes (c :: s) p = startsWith (c :: s) p || includes s p.
Proof. done. Qed.

Lemma includes_app_r p : forall t s,
  includes s p = true -> includes (t ++ s) p = true.
Proof.
  induction t as [| c t IH]; intros s H; [done |].
  cbn [app]. rewrite includes_cons, IH by done. apply orb_true_r.
Qed.

Lemma includes_app_l p : forall s t,
  includes s p = true -> includes (s ++ t) p = true.
Proof.
  induction s as [| c s IH]; intros t H.
  - destruct p; [by destruct t | done].
  - cbn [app]. rewrite includes_cons in *.
    apply orb_true_iff in H as [H | H].
    + change (c :: s ++ t) with ((c :: s) ++ t).
      by rewrite startsWith_app.
    + rewrite IH by done. apply orb_true_r.
Qed.

Lemma trim_keeps_out p s : includes s p = false -> includes (trim s) p = false.
Proof.
  intros H. destruct (includes (trim s) p) eqn:E; [| done].
  unfold trim in E.
  destruct (trimEnd_prefix (trimStart s)) as [ws Hws].
  destruct (trimStart_suffix s) as [ws' [Hws' _]].
  rewrite <- H, Hws', Hws. symmetry.
  by apply includes_app_r, includes_app_l.
Qed.

(** *** Matches on first choices *)

Lemma starLoop_S body k n st caps :
  starLoop body k (S n) st caps =
  match body st caps
          (fun st' caps' =>
             if (position st' =? position st)%nat then None
             else starLoop body k n st' caps') with
  | Some m => Some m
  | None => k st caps
  end.
Proof. reflexivity. Qed.

Lemma run_chr_cons p b c r caps k :
  run (Chr p) true (MState b (c :: r)) caps k =
  if p c then k (MState (c :: b) r) caps else None.
Proof. reflexivity. Qed.

Lemma run_seq a b st caps k :
  run (Seq a b) true st caps k =
  run a true st caps (fun st' caps' => run b true st' caps' k).
Proof. reflexivity. Qed.

Lemma run_chr_nil p b caps k : run (Chr p) true (MState b []) caps k = None.
Proof. reflexivity. Qed.

Lemma position_cons c b r r' :
  (position (MState (c :: b) r) =? position (MState b r'))%nat = false.
Proof. unfold position. cbn [before length]. apply Nat.eqb_neq. lia. Qed.

Lemma leads_seq a b st caps st1 caps1 st2 caps2 :
  leads a st caps st1 caps1 -> leads b st1 caps1 st2 caps2 ->
  leads (Seq a b) st caps st2 caps2.
Proof.
  intros Ha Hb k m Hk. cbn [run]. apply Ha. by apply Hb.
Qed.

Lemma leads_eps st caps : leads Eps st caps st caps.
Proof. by intros k m Hk. Qed.

Lemma leads_chr p c b r caps :
  p c = true -> leads (Chr p) (MState b (c :: r)) caps (MState (c :: b) r) caps.
Proof. intros Hp k m Hk. by rewrite run_chr_cons, Hp. Qed.

Lemma leads_bol r caps : leads Bol (MState [] r) caps (MState [] r) caps.
Proof. by intros k m Hk. Qed.

Lemma leads_eol b caps : leads Eol (MState b []) caps (MState b []) caps.
Proof. by intros k m Hk. Qed.

Lemma leads_group i a st caps st' caps' :
  leads a st caps st' caps' ->
  leads (Group i a) st caps st' ((i, between_states st st') :: caps').
Proof. intros Ha k m Hk. cbn [run]. by apply Ha. Qed.

Lemma starLoop_greedy p k m caps : forall l n b r,
  forallb p l = true -> stops p r ->
  k (MState (rev l ++ b) r) caps = Some m ->
  (length l <= n)%nat ->
  starLoop (run (Chr p) true) k n (MState b (l ++ r)) caps = Some m.
Proof.
  induction l as [| c l IH]; intros n b r Hl Hr Hk Hn.
  - simpl in Hk. destruct n as [| n]; [exact Hk |].
    rewrite starLoop_S. cbn [app].
    destruct r as [| d r]; [by rewrite run_chr_nil, Hk |].
    simpl in Hr. by rewrite run_chr_cons, Hr, Hk.
  - simpl in Hl. apply andb_true_iff in Hl as [Hc Hl].
    destruct n as [| n]; [simpl in Hn; lia |].
    rewrite starLoop_S. cbn [app]. rewrite run_chr_cons, Hc.
    rewrite (position_cons c b (l ++ r) (c :: l ++ r)).
    rewrite (IH n (c :: b) r Hl Hr); [done | | simpl in Hn; lia].
    simpl in Hk. by rewrite <- app_assoc in Hk.
Qed.

Lemma leads_star p l b r caps :
  forallb p l = true -> stops p r ->
  leads (Star (Chr p)) (MState b (l ++ r)) caps (MState (rev l ++ b) r) caps.
Proof.
  intros Hl Hr k m Hk. cbn [run]. apply starLoop_greedy; try done.
  unfold room. cbn [after]. rewrite length_app. lia.
Qed.

Lemma leads_plus p c l b r caps :
  p c = true -> forallb p l = true -> stops p r ->
  leads (plus (Chr p)) (MState b (c :: l ++ r)) caps
    (MState (rev (c :: l) ++ b) r) caps.
Proof.
  intros Hc Hl Hr. unfold plus. eapply leads_seq; [by apply leads_chr |].
  simpl. rewrite <- app_assoc. by apply leads_star.
Qed.

Lemma leads_chars (ps : list (N -> bool)) : forall t b r caps,
  Forall2 (fun p c => p c = true) ps t ->
  leads (seqs (map Chr ps)) (MState b (t ++ r)) caps
    (MState (rev t ++ b) r) caps.
Proof.
  induction ps as [| p ps IH]; intros t b r caps H.
  - inversion H. apply leads_eps.
  - inversion H as [| ? c ? t' Hp Hrest]; subst.
    destruct ps as [| q ps].
    + inversion Hrest; subst. by apply leads_chr.
    + change (seqs (map Chr (p :: q :: ps)))
        with (Seq (Chr p) (seqs (map Chr (q :: ps)))).
      eapply leads_seq; [by apply leads_chr |].
      simpl. rewrite <- app_assoc. by apply IH.
Qed.

Lemma leads_lit s b r caps :
  leads (lit s) (MState b (s ++ r)) caps (MState (rev s ++ b) r) caps.
Proof.
  unfold lit. rewrite <- (map_map N.eqb Chr).
  apply leads_chars. induction s as [| c s IH]; constructor; [| done].
  apply N.eqb_refl.
Qed.

Lemma leads_lit_i s b r caps :
  leads (lit_i s) (MState b (s ++ r)) caps (MState (rev s ++ b) r) caps.
Proof.
  unfold lit_i.
  rewrite <- (map_map (fun c d => (canonicalize d =? canonicalize c)%N) Chr).
  apply leads_chars. induction s as [| c s IH]; constructor; [| done].
  apply N.eqb_refl.
Qed.

Lemma between_states_past b l r :
  between_states (MState b (l ++ r)) (MState (rev l ++ b) r) = l.
Proof.
  unfold between_states, position. cbn [before after].
  rewrite length_app, length_rev.
  destruct (Nat.leb_spec (length b) (length l + length b)) as [_ | ?]; [| lia].
  replace (length l + length b - length b)%nat with (length l) by lia.
  by rewrite firstn_app, Nat.sub_diag, firstn_all, firstn_O, app_nil_r.
Qed.

Lemma between_states_moved st st' l :
  after st = l ++ after st' -> before st' = rev l ++ before st ->
  between_states st st' = l.
Proof.
  destruct st as [b a], st' as [b' a']. cbn [before after].
  intros -> ->. apply between_states_past.
Qed.

(** A literal that lies ahead is passed in one way only. *)
Lemma run_chars (ps : list (N -> bool)) : forall t b r caps k,
  Forall2 (fun p c => p c = true) ps t ->
  run (seqs (map Chr ps)) true (MState b (t ++ r)) caps k =
  k (MState (rev t ++ b) r) caps.
Proof.
  induction ps as [| p ps IH]; intros t b r caps k H.
  - by inversion H.
  - inversion H as [| ? c ? t' Hp Hrest]; subst.
    destruct ps as [| q ps].
    + inversion Hrest; subst. simpl. by rewrite Hp.
    + change (seqs (map Chr (p :: q :: ps)))
        with (Seq (Chr p) (seqs (map Chr (q :: ps)))).
      rewrite run_seq. cbn [app]. rewrite run_chr_cons, Hp.
      rewrite IH by done. simpl. by rewrite <- app_assoc.
Qed.

Lemma run_lit_i s b r caps k :
  run (lit_i s) true (MState b (s ++ r)) caps k =
  k (MState (rev s ++ b) r) caps.
Proof.
  unfold lit_i.
  rewrite <- (map_map (fun c d => (canonicalize d =? canonicalize c)%N) Chr).
  apply run_chars. induction s as [| c s IH]; constructor; [| done].
  apply N.eqb_refl.
Qed.

Lemma startsWith_drop : forall p s,
  startsWith s p = true -> s = p ++ drop (length p) s.
Proof.
  induction p as [| d p IH]; intros s; [done |]. simpl.
  destruct s as [| c s]; [done |]. intros H.
  apply andb_true_iff in H as [Hc Hs]. apply N.eqb_eq in Hc. subst d.
  simpl. f_equal. by apply IH.
Qed.

(** A literal is passed when the text ahead starts with it. *)
Lemma run_lit : forall s b a caps k,
  run (lit s) true (MState b a) caps k =
  if startsWith a s then k (MState (rev s ++ b) (drop (length s) a)) caps
  else None.
Proof.
  unfold lit. induction s as [| c s IH]; intros b a caps k; [done |].
  assert (Hone : forall k',
    run (Chr (N.eqb c)) true (MState b a) caps k' =
    match a with
    | x :: r => if (x =? c)%N then k' (MState (c :: b) r) caps else None
    | [] => None
    end).
  { intros k'. destruct a as [| x r]; [done |]. rewrite run_chr_cons.
    rewrite (N.eqb_sym c x). destruct (N.eqb_spec x c) as [-> | _].
    all: done. }
  destruct s as [| d s].
  - cbn [map seqs]. rewrite Hone. destruct a as [| x r]; [done |].
    simpl. by rewrite andb_true_r.
  - change (seqs (map (fun c => Chr (N.eqb c)) (c :: d :: s)))
      with (Seq (Chr (N.eqb c)) (seqs (map (fun c => Chr (N.eqb c)) (d :: s)))).
    rewrite run_seq, Hone. destruct a as [| x r]; [done |].
    cbn [startsWith]. destruct (x =? c)%N; cbn [andb]; [| done].
    rewrite IH.
    change (drop (length (c :: d :: s)) (x :: r))
      with (drop (length (d :: s)) r).
    change (rev (c :: d :: s)) with (rev (d :: s) ++ [c]).
    by rewrite <- app_assoc.
Qed.

(** *** Patterns that cannot match *)

Lemma run_dead r st caps k : dead k st -> run r true st caps k = None.
Proof.
  intros Hk. destruct (run r true st caps k) as [res |] eqn:Hrun; [| done].
  apply run_inv in Hrun as [st' [caps' [[l [Hl _]] Hres]]].
  rewrite Hk in Hres; [done |]. by exists l.
Qed.

Lemma fails_seq_l a b st : fails a st -> fails (Seq a b) st.
Proof. intros Ha st' caps k Hsuf. cbn [run]. by apply Ha. Qed.

Lemma fails_seq_r a b st : fails b st -> fails (Seq a b) st.
Proof.
  intros Hb st' caps k Hsuf. cbn [run]. apply run_dead.
  intros st'' caps' Hsuf'. apply Hb. by etrans.
Qed.

Lemma fails_chr p st : none p (after st) -> fails (Chr p) st.
Proof.
  intros Hp st' caps k [pre Hsuf]. cbn [run]. unfold step.
  destruct (after st') as [| c r]; [done |].
  unfold none in Hp. rewrite Hsuf in Hp.
  apply Forall_app in Hp as [_ Hp]. inversion_clear Hp as [| ? ? Hc _].
  by rewrite Hc.
Qed.

Lemma fails_bol a c bef aft caps k :
  run (Seq Bol a) true (MState (c :: bef) aft) caps k = None.
Proof. done. Qed.

Lemma search_bol a : forall aft c bef,
  search (Seq Bol a) (c :: bef) aft = None.
Proof.
  induction aft as [| d aft IH]; intros c bef; cbn [search]; cbv zeta.
  - by rewrite fails_bol.
  - rewrite fails_bol. apply IH.
Qed.

(** A pattern anchored at the start matches at the start or not at all. *)
Lemma exec_bol a s :
  exec (Seq Bol a) s =
  match run a true (MState [] s) [] (fun st' caps => Some (st', caps)) with
  | Some (st', caps) => Some (MatchResult (MState [] s) st' caps)
  | None => None
  end.
Proof.
  unfold exec. destruct s as [| c s]; cbn [search]; cbv zeta; cbn [run before].
  - done.
  - destruct (run a true _ _ _) as [[st' caps] |]; [done |]. apply search_bol.
Qed.

(** *** What a match went over *)

Lemma chr_inv p st caps k m :
  run (Chr p) true st caps k = Some m ->
  exists c r, after st = c :: r /\ p c = true /\
              k (MState (c :: before st) r) caps = Some m.
Proof.
  destruct st as [b [| c r]]; [done |]. rewrite run_chr_cons.
  destruct (p c) eqn:Hp; [| done]. intros Hk. by exists c, r.
Qed.

Lemma starLoop_inv p k m caps : forall n st,
  starLoop (run (Chr p) true) k n st caps = Some m ->
  exists l r, after st = l ++ r /\ forallb p l = true /\
              k (MState (rev l ++ before st) r) caps = Some m.
Proof.
  induction n as [| n IH]; intros st.
  - simpl. intros Hk. exists [], (after st). by destruct st.
  - rewrite starLoop_S.
    destruct (run (Chr p) true st caps _) as [m' |] eqn:Hbody.
    + intros [= ->]. apply chr_inv in Hbody as [c [r [Hst [Hp Hk]]]].
      destruct (_ =? _)%nat; [done |].
      apply IH in Hk as [l [r' [Hr [Hl Hk]]]]. cbn [before after] in *.
      exists (c :: l), r'. subst r. split; [done |]. split.
      * simpl. by rewrite Hp.
      * simpl. by rewrite <- app_assoc.
    + intros Hk. exists [], (after st). by destruct st.
Qed.

Lemma star_inv p st caps k m :
  run (Star (Chr p)) true st caps k = Some m ->
  exists l r, after st = l ++ r /\ forallb p l = true /\
              k (MState (rev l ++ before st) r) caps = Some m.
Proof. apply starLoop_inv. Qed.

Lemma plus_inv p st caps k m :
  run (plus (Chr p)) true st caps k = Some m ->
  exists l r, after st = l ++ r /\ l ≠ [] /\ forallb p l = true /\
              k (MState (rev l ++ before st) r) caps = Some m.
Proof.
  unfold plus. rewrite run_seq. intros H.
  apply chr_inv in H as [c [r [Hst [Hp H]]]].
  apply star_inv in H as [l [r' [Hr [Hl Hk]]]]. cbn [before after] in *.
  exists (c :: l), r'. subst r. split; [done |]. split; [done |]. split.
  - simpl. by rewrite Hp.
  - simpl. by rewrite <- app_assoc.
Qed.

End PatternFacts.

(** ** utils/validators.ts *)

Module ValidatorsProofs.
Import JS Validators Statements Statements.OfValidators RuntimeFacts.

(** *** What the entity-specific checks add *)

Lemma extends_refl i errs : extends i errs errs.
Proof. exists []. split; [by rewrite app_nil_r | constructor]. Qed.

Lemma extends_trans i a b c : extends i a b -> extends i b c -> extends i a c.
Proof.
  intros [x [-> Hx]] [y [-> Hy]]. exists (x ++ y).
  split; [by rewrite app_assoc | by apply Forall_app].
Qed.

Lemma extends_push i errs f m :
  startsWith m (js "Duplicate ") = false ->
  extends i errs (push errs {| rowIndex := i; field := f; message := m |}).
Proof.
  intros H. eexists. split; [reflexivity |]. repeat constructor. exact H.
Qed.

Ltac entity_step :=
  match goal with
  | |- extends _ ?a ?a => apply extends_refl
  | |- extends _ _ (push _ _) =>
      eapply extends_trans; [| apply extends_push; vm_compute; reflexivity]
  | |- extends _ _ (if ?b then _ else _) => destruct b
  | |- extends _ _ (match ?o with Some _ => _ | None => _ end) => destruct o
  end.

Ltac entity_checks :=
  repeat (case_match; try discriminate); intros; simplify_eq;
  repeat entity_step.

Lemma validateClient_extends row i errs errs' :
  validateClient row i errs = Return errs' -> extends i errs errs'.
Proof. unfold validateClient, bind. entity_checks. Qed.

Lemma validateWorker_extends row i errs errs' :
  validateWorker row i errs = Return errs' -> extends i errs errs'.
Proof. unfold validateWorker. entity_checks. Qed.

Lemma validateTask_extends row i errs errs' :
  validateTask row i errs = Return errs' -> extends i errs errs'.
Proof. unfold validateTask. entity_checks. Qed.

Lemma validateEntity_extends et row i errs errs' :
  validateEntity et row i errs = Return errs' -> extends i errs errs'.
Proof.
  unfold validateEntity. repeat case_match.
  - apply validateClient_extends.
  - apply validateWorker_extends.
  - apply validateTask_extends.
  - intros [= <-]. apply extends_refl.
Qed.

(** *** Counting duplicate errors *)

Lemma duplicateErrors_app j a b :
  duplicateErrors j (a ++ b) = (duplicateErrors j a + duplicateErrors j b)%nat.
Proof. unfold duplicateErrors. by rewrite List.filter_app, length_app. Qed.

Lemma duplicateErrors_singleton j e :
  duplicateErrors j [e] =
  if Nat.eqb (rowIndex e) j && isDuplicate e then 1%nat else 0%nat.
Proof. unfold duplicateErrors. simpl. by destruct (_ && _). Qed.

Lemma duplicateErrors_other j errs :
  Forall (fun e => rowIndex e ≠ j \/ isDuplicate e = false) errs ->
  duplicateErrors j errs = 0%nat.
Proof.
  unfold duplicateErrors. induction 1 as [| e l He _ IH]; [done |]. simpl.
  destruct He as [He | He].
  - apply Nat.eqb_neq in He. by rewrite He.
  - by rewrite He, andb_false_r.
Qed.

Lemma isDuplicate_duplicate i f x :
  isDuplicate {| rowIndex := i; field := f;
                 message := js "Duplicate " ++ x |} = true.
Proof. vm_compute. reflexivity. Qed.

Lemma isDuplicate_missing i f x :
  isDuplicate {| rowIndex := i; field := f;
                 message := js "Missing " ++ x |} = false.
Proof. vm_compute. reflexivity. Qed.

Lemma extends_duplicateErrors i j errs errs' :
  extends i errs errs' -> duplicateErrors j errs' = duplicateErrors j errs.
Proof.
  intros [extra [-> Hx]]. rewrite duplicateErrors_app.
  rewrite (duplicateErrors_other j extra); [lia |].
  eapply Forall_impl; [exact Hx |]. intros e [_ He]. by right.
Qed.

Lemma bound_S n errs :
  Forall (fun e => (rowIndex e < n)%nat) errs ->
  Forall (fun e => (rowIndex e < S n)%nat) errs.
Proof.
  intros H. eapply Forall_impl; [exact H |]. intros e He. simpl in He. lia.
Qed.

Lemma extends_bound i n errs errs' :
  (i < n)%nat -> extends i errs errs' ->
  Forall (fun e => (rowIndex e < n)%nat) errs ->
  Forall (fun e => (rowIndex e < n)%nat) errs'.
Proof.
  intros Hi [extra [-> Hx]] H. apply Forall_app. split.
  - exact H.
  - eapply Forall_impl; [exact Hx |]. intros e [-> _]. exact Hi.
Qed.

Lemma bound_no_duplicates n errs :
  Forall (fun e => (rowIndex e < n)%nat) errs ->
  duplicateErrors n errs = 0%nat.
Proof.
  intros H. apply duplicateErrors_other. eapply Forall_impl; [exact H |].
  intros e He. left. simpl in He. lia.
Qed.

(** *** The expected count, row by row *)

Lemma expectedDuplicates_ge idField rows j :
  (length rows <= j)%nat -> expectedDuplicates idField rows j = 0%nat.
Proof.
  intros Hj. unfold expectedDuplicates. by rewrite lookup_ge_None_2.
Qed.

Lemma expectedDuplicates_snoc idField done row j :
  expectedDuplicates idField (done ++ [row]) j =
  if Nat.eqb j (length done) then
    if ToBoolean (getProp row idField)
       && existsb (SameValueZero (getProp row idField)) (idsOf idField done)
    then 1%nat else 0%nat
  else expectedDuplicates idField done j.
Proof.
  destruct (Nat.eqb_spec j (length done)) as [-> | Hne].
  - unfold expectedDuplicates, seenBefore.
    rewrite list_lookup_middle by done. by rewrite take_app_length.
  - destruct (Nat.lt_ge_cases j (length done)).
    + unfold expectedDuplicates, seenBefore.
      rewrite lookup_app_l by done. by rewrite take_app_le by lia.
    + rewrite !expectedDuplicates_ge;
        [done | lia | rewrite length_app; simpl; lia].
Qed.

(** The test for a missing identifier is the test for a falsy one. *)
Lemma missing_guard v :
  negb (ToBoolean v) || strictEquals v (VString []) = negb (ToBoolean v).
Proof.
  destruct v as [| | b | x | [| c s] | o]; try done; by destruct (negb _).
Qed.

(** *** The loop *)

Lemma validateRow_invariant et idField done row st st' :
  invariant idField done st ->
  validateRow et idField row (length done) st = Return st' ->
  invariant idField (done ++ [row]) st'.
Proof.
  intros [Hids Hdups Hbound]. unfold validateRow.
  rewrite missing_guard.
  set (v := getProp row idField).
  set (n := length done).
  assert (Hn : duplicateErrors n (errs st) = 0%nat)
    by by apply bound_no_duplicates.
  assert (Hlen : length (done ++ [row]) = S n)
    by (rewrite length_app; simpl; lia).
  destruct (ToBoolean v) eqn:Hv; cbn [negb].
  - (* the identifier is there *)
    destruct (has (ids st) v) eqn:Hhas; cbn [ids errs].
    + (* and seen before *)
      destruct (validateEntity _ _ _ _) as [errs' |] eqn:He; [| discriminate].
      cbn [bind]. intros [= <-]. apply validateEntity_extends in He.
      split; cbn [ids errs].
      * intros w Hw. rewrite Hids by done. unfold idsOf.
        rewrite map_app. cbn [map]. rewrite existsb_snoc. fold v.
        destruct (SameValueZero w v) eqn:Hwv; [| by rewrite !orb_false_r].
        apply SameValueZero_eq in Hwv; [| done]. subst w.
        rewrite orb_true_r. by rewrite <- Hids.
      * intros j. rewrite (extends_duplicateErrors _ _ _ _ He).
        unfold push. rewrite duplicateErrors_app, duplicateErrors_singleton.
        rewrite isDuplicate_duplicate, andb_true_r. cbn [rowIndex].
        rewrite expectedDuplicates_snoc. fold n. fold v.
        rewrite (Nat.eqb_sym j n).
        destruct (Nat.eqb_spec n j) as [<- | Hne].
        -- by rewrite Hn, Hv, <- Hids, Hhas.
        -- rewrite Hdups. lia.
      * rewrite Hlen. eapply extends_bound; [| exact He |]; [lia |].
        unfold push. apply Forall_app. split; [by apply bound_S |].
        constructor; [cbn [rowIndex]; lia | constructor].
    + (* and new *)
      destruct (validateEntity _ _ _ _) as [errs' |] eqn:He; [| discriminate].
      cbn [bind]. intros [= <-]. apply validateEntity_extends in He.
      split; cbn [ids errs].
      * intros w Hw. unfold has. rewrite existsb_snoc. fold (has (ids st) w).
        rewrite Hids by done. unfold idsOf.
        rewrite map_app. cbn [map]. by rewrite existsb_snoc.
      * intros j. rewrite (extends_duplicateErrors _ _ _ _ He).
        rewrite expectedDuplicates_snoc. fold n. fold v.
        destruct (Nat.eqb_spec j n) as [-> | Hne].
        -- by rewrite Hn, Hv, <- Hids, Hhas.
        -- apply Hdups.
      * rewrite Hlen. eapply extends_bound; [| exact He |]; [lia |].
        by apply bound_S.
  - (* the identifier is missing *)
    cbn [ids errs].
    destruct (validateEntity _ _ _ _) as [errs' |] eqn:He; [| discriminate].
    cbn [bind]. intros [= <-]. apply validateEntity_extends in He.
    split; cbn [ids errs].
    + intros w Hw. rewrite Hids by done. unfold idsOf.
      rewrite map_app. cbn [map]. rewrite existsb_snoc. fold v.
      destruct (SameValueZero w v) eqn:Hwv; [| by rewrite !orb_false_r].
      apply SameValueZero_eq in Hwv; [| done]. subst w. congruence.
    + intros j. rewrite (extends_duplicateErrors _ _ _ _ He).
      unfold push. rewrite duplicateErrors_app, duplicateErrors_singleton.
      rewrite isDuplicate_missing, andb_false_r, Nat.add_0_r.
      rewrite expectedDuplicates_snoc. fold n. fold v.
      destruct (Nat.eqb_spec j n) as [-> | Hne].
      * by rewrite Hn, Hv.
      * apply Hdups.
    + rewrite Hlen. eapply extends_bound; [| exact He |]; [lia |].
      unfold push. apply Forall_app. split; [by apply bound_S |].
      constructor; [cbn [rowIndex]; lia | constructor].
Qed.

Lemma forEach_invariant et idField rest : forall done st st',
  invariant idField done st ->
  forEach (validateRow et idField) rest (length done) st = Return st' ->
  invariant idField (done ++ rest) st'.
Proof.
  induction rest as [| row rest IH]; intros done st st' Hinv.
  - simpl. intros [= <-]. by rewrite app_nil_r.
  - simpl.
    destruct (validateRow _ _ _ _ _) as [st1 |] eqn:Hrow; [| discriminate].
    cbn [bind]. intros Hrest.
    replace (done ++ row :: rest) with ((done ++ [row]) ++ rest)
      by (by rewrite <- app_assoc).
    apply (IH (done ++ [row]) st1); [by eapply validateRow_invariant |].
    rewrite length_app. simpl. by rewrite Nat.add_1_r.
Qed.

Lemma invariant_init idField :
  invariant idField [] {| ids := []; errs := [] |}.
Proof.
  split; cbn [ids errs]; [done | by intros j; destruct j | constructor].
Qed.

Lemma validateData_invariant et rows res :
  validateData et (Some rows) = Return res ->
  exists st, invariant (getIDField et) rows st /\ errors res = errs st.
Proof.
  unfold validateData. destruct rows as [| row rows].
  - intros [= <-]. eexists. split; [apply invariant_init | done].
  - destruct (forEach _ _ _ _) as [st |] eqn:Hloop; [| discriminate].
    cbn [bind]. intros [= <-]. exists st. split; [| done].
    by apply (forEach_invariant et (getIDField et) (row :: rows) [] _ st
                (invariant_init _)).
Qed.

(** *** Where the validator returns *)

Lemma validateData_empty et :
  validateData et None = Return {| validated := true; errors := [] |} /\
  validateData et (Some []) = Return {| validated := true; errors := [] |}.
Proof. split; reflexivity. Qed.

Lemma validateClient_returns row i errs :
  splittable row = true -> exists errs', validateClient row i errs = Return errs'.
Proof.
  unfold splittable, validateClient, isString, call_split, bind.
  intros H. repeat case_match; simplify_eq; try done; eauto.
Qed.

Lemma validateEntity_returns et row i errs :
  splittable row = true ->
  exists errs', validateEntity et row i errs = Return errs'.
Proof.
  intros H. unfold validateEntity. repeat case_match.
  - by apply validateClient_returns.
  - unfold validateWorker. eauto.
  - unfold validateTask. eauto.
  - eauto.
Qed.

Lemma forEach_returns et idField rows : forall i st,
  forallb splittable rows = true ->
  exists st', forEach (validateRow et idField) rows i st = Return st'.
Proof.
  induction rows as [| row rows IH]; intros i st H; simpl.
  - eauto.
  - simpl in H. apply andb_true_iff in H as [Hrow Hrows].
    unfold validateRow at 1.
    match goal with |- context [validateEntity et row i ?e] =>
      destruct (validateEntity_returns et row i e Hrow) as [errs' ->] end.
    cbn [bind]. by apply IH.
Qed.

(** The validator returns for every entity type and every dataset in which
    each [RequestedTaskIDs] is absent, empty or a string. *)
Lemma validateData_returns et rows :
  forallb splittable rows = true ->
  exists res, validateData et (Some rows) = Return res.
Proof.
  intros H. unfold validateData. destruct rows as [| row rows]; [eauto |].
  destruct (forEach_returns et (getIDField et) (row :: rows) 0%nat
              {| ids := []; errs := [] |} H) as [st ->].
  cbn [bind]. eauto.
Qed.

(** C2, at the failing input.  A client row whose RequestedTaskIDs is the
    number 12, as a spreadsheet cell is read, makes [validateData] throw a
    TypeError instead of returning a result. *)
Theorem validateData_throws_on_numeric_task_ids :
  validateData (js "clients") (Some [numericTaskIdsRow]) =
  Throw (js "TypeError: row.RequestedTaskIDs.split is not a function").
Proof. vm_compute. reflexivity. Qed.

(** C3.  Whenever validation returns, a row is reported as a duplicate
    exactly once if its identifier is truthy and an earlier row holds the
    same identifier, and never otherwise: the first holder of an identifier
    is not reported, and neither is a row whose identifier is falsy, which
    the test for a missing identifier takes. *)
Theorem duplicate_first_seen_wins et rows res i row :
  validateData et (Some rows) = Return res ->
  rows !! i = Some row ->
  duplicateErrors i (errors res) =
    if ToBoolean (getProp row (getIDField et))
       && seenBefore (getIDField et) rows i (getProp row (getIDField et))
    then 1%nat else 0%nat.
Proof.
  intros Hres Hrow.
  destruct (validateData_invariant _ _ _ Hres) as [st [Hinv ->]].
  rewrite (inv_dups _ _ _ Hinv). unfold expectedDuplicates. by rewrite Hrow.
Qed.

(** The identifiers A, A, B: row 1 is reported, row 0 is not. *)
Lemma duplicate_first_seen_wins_witness :
  validateData (js "clients") (Some rowsAAB) = Return resultAAB /\
  duplicateErrors 1 (errors resultAAB) = 1%nat /\
  duplicateErrors 0 (errors resultAAB) = 0%nat.
Proof.
  assert (H : validateData (js "clients") (Some rowsAAB) = Return resultAAB)
    by (vm_compute; reflexivity).
  split; [exact H |]. split.
  - exact (duplicate_first_seen_wins (js "clients") rowsAAB resultAAB 1
             (idRow "A") H eq_refl).
  - exact (duplicate_first_seen_wins (js "clients") rowsAAB resultAAB 0
             (idRow "A") H eq_refl).
Defined.

(** Two rows with the identifier 0, a number: the second row holds the
    value of the first and is not reported as a duplicate. *)
Lemma first_seen_wins_fails_on_zero :
  ~ first_seen_wins (js "clients") [zeroIdRow; zeroIdRow].
Proof.
  intros H. specialize (H resultZeroIds 1%nat zeroIdRow).
  vm_compute in H. specialize (H eq_refl eq_refl eq_refl). discriminate.
Qed.

(** C9.  Every error that validation returns has a row index below the
    number of rows of the dataset it was given. *)
Theorem errors_within_dataset et data res :
  validateData et data = Return res ->
  Forall (fun e => (rowIndex e < length (default [] data))%nat) (errors res).
Proof.
  destruct data as [rows |].
  - intros Hres.
    destruct (validateData_invariant _ _ _ Hres) as [st [Hinv ->]].
    exact (inv_bound _ _ _ Hinv).
  - intros [= <-]. constructor.
Qed.

Lemma errors_within_dataset_witness :
  validateData (js "clients") (Some rowsInvalid) = Return resultInvalid /\
  Forall (fun e => (rowIndex e < 2)%nat) (errors resultInvalid).
Proof.
  assert (H : validateData (js "clients") (Some rowsInvalid)
              = Return resultInvalid) by (vm_compute; reflexivity).
  split; [exact H |].
  exact (errors_within_dataset (js "clients") (Some rowsInvalid)
           resultInvalid H).
Defined.

(** *** PriorityLevel *)

Lemma fieldErrors_push f errs e :
  fieldErrors f (push errs e) =
  (fieldErrors f errs + if str_eqb (field e) f then 1 else 0)%nat.
Proof.
  unfold fieldErrors, push. rewrite List.filter_app, length_app. simpl.
  by destruct (str_eqb _ _).
Qed.

Lemma priority_level_errors row i errs errs' :
  validateClient row i errs = Return errs' ->
  fieldErrors (js "PriorityLevel") errs' =
    (fieldErrors (js "PriorityLevel") errs +
     if present (getProp row (js "PriorityLevel"))
        && outside_1_5 (ToNumber (getProp row (js "PriorityLevel")))
     then 1 else 0)%nat.
Proof.
  unfold validateClient, bind.
  repeat (case_match; try discriminate); intros; simplify_eq;
    rewrite ?fieldErrors_push; cbn [field andb];
    change (str_eqb (js "PriorityLevel") (js "PriorityLevel")) with true;
    change (str_eqb (js "RequestedTaskIDs") (js "PriorityLevel")) with false;
    change (str_eqb (js "AttributesJSON") (js "PriorityLevel")) with false;
    cbv iota; lia.
Qed.

(** C5.  When [validateClient] returns, it has added exactly
    one PriorityLevel error if the value is present, not empty, and its
    Number is NaN, below 1 or above 5, and none otherwise; there is no test
    for an integer.  So 0, 6 and abc are flagged, and the empty text is
    skipped. *)
Theorem priority_level_rule :
  (forall row i errs errs',
     validateClient row i errs = Return errs' ->
     fieldErrors (js "PriorityLevel") errs' =
       (fieldErrors (js "PriorityLevel") errs +
        if present (getProp row (js "PriorityLevel"))
           && outside_1_5 (ToNumber (getProp row (js "PriorityLevel")))
        then 1 else 0)%nat) /\
  flagged (num 0) = 1%nat /\ flagged (num 6) = 1%nat /\
  flagged (text "0") = 1%nat /\ flagged (text "6") = 1%nat /\
  flagged (text "abc") = 1%nat /\ flagged (text "") = 0%nat.
Proof.
  split; [exact priority_level_errors |]. vm_compute. repeat split.
Qed.

Lemma priority_level_rule_witness :
  validateClient (priorityRow (num 0)) 7 [] = Return [priorityError 7] /\
  fieldErrors (js "PriorityLevel") [priorityError 7] = 1%nat.
Proof.
  assert (H : validateClient (priorityRow (num 0)) 7 []
              = Return [priorityError 7]) by (vm_compute; reflexivity).
  split; [exact H |].
  exact (proj1 priority_level_rule _ _ _ _ H).
Defined.

(** The value 2.5 is no integer from 1 to 5 and is not flagged. *)
Lemma priority_is_integer_rule_fails_on_fraction :
  ~ priority_is_integer_rule (priorityRow (text "2.5")).
Proof.
  intros H. specialize (H 0%nat [] eq_refl).
  vm_compute in H. specialize (H eq_refl). discriminate.
Qed.


Import PatternFacts.

(** *** Where validation throws *)

Lemma validateEntity_total et row i errs :
  et ≠ js "clients" ->
  exists errs', validateEntity et row i errs = Return errs'.
Proof.
  intros H. unfold validateEntity.
  destruct (str_eqb et (js "clients")) eqn:E.
  - by apply str_eqb_eq in E.
  - repeat case_match; unfold validateWorker, validateTask; eauto.
Qed.

Lemma forEach_total et idField rows : forall i st,
  et ≠ js "clients" ->
  exists st', forEach (validateRow et idField) rows i st = Return st'.
Proof.
  induction rows as [| row rows IH]; intros i st H; simpl; [eauto |].
  unfold validateRow at 1.
  match goal with |- context [validateEntity et row i ?e] =>
    destruct (validateEntity_total et row i e H) as [errs' ->] end.
  cbn [bind]. by apply IH.
Qed.

(** Workers, tasks and every entity type without checks of its own:
    validation returns, whatever the dataset and the types of its cells. *)
Theorem validation_never_throws_off_clients et data :
  et ≠ js "clients" -> exists res, validateData et data = Return res.
Proof.
  intros H. unfold validateData. destruct data as [[| row rows] |]; eauto.
  destruct (forEach_total et (getIDField et) (row :: rows) 0%nat
              {| ids := []; errs := [] |} H) as [st ->].
  cbn [bind]. eauto.
Qed.

Lemma validateClient_throws row i errs :
  splittable row = false ->
  validateClient row i errs =
  Throw (js "TypeError: row.RequestedTaskIDs.split is not a function").
Proof.
  unfold splittable, validateClient, isString, call_split, bind.
  intros H. repeat case_match; simplify_eq; try done.
Qed.

Lemma forEach_clients rows : forall i st,
  match forEach (validateRow (js "clients") (js "ClientID")) rows i st with
  | Return _ => forallb splittable rows = true
  | Throw e =>
      forallb splittable rows = false /\
      e = js "TypeError: row.RequestedTaskIDs.split is not a function"
  end.
Proof.
  induction rows as [| row rows IH]; intros i st; simpl; [done |].
  unfold validateRow at 1.
  change (validateEntity (js "clients") row i) with (validateClient row i).
  destruct (splittable row) eqn:Hrow.
  - match goal with |- context [validateClient row i ?e] =>
      destruct (validateClient_returns row i e Hrow) as [errs' ->] end.
    cbn [bind]. apply IH.
  - rewrite validateClient_throws by done. by cbn [bind].
Qed.

(** Clients: validation returns exactly when every [RequestedTaskIDs] is
    absent, empty or a string; otherwise it throws the TypeError of the
    [split] call, whatever else the dataset holds. *)
Theorem clients_validation_throws_exactly_on_unsplittable rows :
  match validateData (js "clients") (Some rows) with
  | Return _ => forallb splittable rows = true
  | Throw e =>
      forallb splittable rows = false /\
      e = js "TypeError: row.RequestedTaskIDs.split is not a function"
  end.
Proof.
  unfold validateData. destruct rows as [| row rows]; [done |].
  change (getIDField (js "clients")) with (js "ClientID").
  pose proof (forEach_clients (row :: rows) 0%nat {| ids := []; errs := [] |})
    as H.
  destruct (forEach _ _ _ _); cbn [bind]; exact H.
Qed.

(** *** The errors of a row *)

Lemma checks_refl i errs : checks i errs errs.
Proof. exists []. split; [by rewrite app_nil_r | constructor]. Qed.

Lemma checks_trans i a b c : checks i a b -> checks i b c -> checks i a c.
Proof.
  intros [x [-> Hx]] [y [-> Hy]]. exists (x ++ y).
  split; [by rewrite app_assoc | by apply Forall_app].
Qed.

Lemma checks_push i errs f m :
  startsWith m (js "Missing ") = false ->
  checks i errs (push errs {| rowIndex := i; field := f; message := m |}).
Proof.
  intros H. eexists. split; [reflexivity |]. repeat constructor. exact H.
Qed.

Ltac check_step :=
  match goal with
  | |- checks _ ?a ?a => apply checks_refl
  | |- checks _ _ (push _ _) =>
      eapply checks_trans; [| apply checks_push; vm_compute; reflexivity]
  | |- checks _ _ (if ?b then _ else _) => destruct b
  | |- checks _ _ (match ?o with Some _ => _ | None => _ end) => destruct o
  end.

Ltac check_all :=
  repeat (case_match; try discriminate); intros; simplify_eq;
  repeat check_step.

Lemma validateEntity_checks et row i errs errs' :
  validateEntity et row i errs = Return errs' -> checks i errs errs'.
Proof.
  unfold validateEntity. repeat case_match.
  - unfold validateClient, bind. check_all.
  - unfold validateWorker. check_all.
  - unfold validateTask. check_all.
  - intros [= <-]. apply checks_refl.
Qed.

Lemma missingErrors_app j a b :
  missingErrors j (a ++ b) = (missingErrors j a + missingErrors j b)%nat.
Proof. unfold missingErrors. by rewrite List.filter_app, length_app. Qed.

Lemma missingErrors_other j errs :
  Forall (fun e => rowIndex e ≠ j \/ isMissing e = false) errs ->
  missingErrors j errs = 0%nat.
Proof.
  unfold missingErrors. induction 1 as [| e errs He _ IH]; [done |].
  simpl. destruct He as [He | He].
  - apply Nat.eqb_neq in He. by rewrite He.
  - by rewrite He, andb_false_r.
Qed.

Lemma ordered_app x y :
  ordered x -> ordered y ->
  (forall e e', e ∈ x -> e' ∈ y -> (rowIndex e <= rowIndex e')%nat) ->
  ordered (x ++ y).
Proof.
  intros Hx Hy Hxy a b ea eb Ha Hb Hab.
  apply lookup_app_Some in Ha as [Ha | [Hla Ha]];
    apply lookup_app_Some in Hb as [Hb | [Hlb Hb]].
  - by apply (Hx a b).
  - apply Hxy; by eapply list_elem_of_lookup_2.
  - apply lookup_lt_Some in Hb. lia.
  - apply (Hy (a - length x)%nat (b - length x)%nat); [done | done | lia].
Qed.

Lemma ordered_same i errs :
  Forall (fun e => rowIndex e = i) errs -> ordered errs.
Proof.
  intros H a b ea eb Ha Hb _.
  rewrite Forall_forall in H.
  rewrite (H ea), (H eb); [done | |]; by eapply list_elem_of_lookup_2.
Qed.

(** What one row adds to the errors. *)
Lemma validateRow_errors et idField row i st st' :
  validateRow et idField row i st = Return st' ->
  exists extra, errs st' = errs st ++ extra /\
    Forall (fun e => rowIndex e = i) extra /\
    missingErrors i extra =
      if ToBoolean (getProp row idField) then 0%nat else 1%nat.
Proof.
  unfold validateRow. rewrite missing_guard.
  destruct (ToBoolean (getProp row idField)) eqn:Hv; cbn [negb].
  - destruct (has _ _); cbn [ids errs];
      (destruct (validateEntity _ _ _ _) as [errs' |] eqn:He; [| discriminate]);
      cbn [bind]; intros [= <-]; cbn [errs];
      apply validateEntity_checks in He as [extra [-> Hextra]].
    + unfold push. rewrite <- app_assoc. eexists. split; [reflexivity |].
      split.
      * constructor; [done |]. eapply Forall_impl; [exact Hextra |].
        by intros e [? ?].
      * apply missingErrors_other. constructor; [by right |].
        eapply Forall_impl; [exact Hextra |]. intros e [_ ?]. by right.
    + exists extra. split; [done |]. split.
      * eapply Forall_impl; [exact Hextra |]. by intros e [? ?].
      * apply missingErrors_other.
        eapply Forall_impl; [exact Hextra |]. intros e [_ ?]. by right.
  - cbn [ids errs].
    destruct (validateEntity _ _ _ _) as [errs' |] eqn:He; [| discriminate].
    cbn [bind]. intros [= <-]. cbn [errs].
    apply validateEntity_checks in He as [extra [-> Hextra]].
    unfold push. rewrite <- app_assoc. eexists. split; [reflexivity |].
    split.
    + constructor; [done |]. eapply Forall_impl; [exact Hextra |].
      by intros e [? ?].
    + change (?a :: extra) with ([a] ++ extra).
      rewrite missingErrors_app.
      rewrite (missingErrors_other i extra).
      * unfold missingErrors. cbn [List.filter rowIndex].
        rewrite Nat.eqb_refl. unfold isMissing. cbn [message].
        by rewrite startsWith_app.
      * eapply Forall_impl; [exact Hextra |]. intros e [_ ?]. by right.
Qed.

(** What the rows from [n] on add to the errors. *)
Lemma forEach_errors et idField rest : forall n st st',
  forEach (validateRow et idField) rest n st = Return st' ->
  exists extra, errs st' = errs st ++ extra /\
    Forall (fun e => (n <= rowIndex e < n + length rest)%nat) extra /\
    ordered extra /\
    forall j row, rest !! j = Some row ->
      missingErrors (n + j) extra =
        if ToBoolean (getProp row idField) then 0%nat else 1%nat.
Proof.
  induction rest as [| row rest IH]; intros n st st'; simpl.
  - intros [= <-]. exists []. rewrite app_nil_r.
    repeat split; [constructor | | done]. intros a b ea eb Ha. done.
  - destruct (validateRow _ _ _ _ _) as [st1 |] eqn:Hrow; [| discriminate].
    cbn [bind]. intros Hrest.
    apply validateRow_errors in Hrow as [x [Hx [Hxi Hxm]]].
    apply IH in Hrest as [y [Hy [Hyi [Hyo Hym]]]].
    exists (x ++ y). rewrite Hy, Hx, app_assoc. split; [done |].
    split; [| split].
    + apply Forall_app. split.
      * eapply Forall_impl; [exact Hxi |]. intros e He. simpl in He. lia.
      * eapply Forall_impl; [exact Hyi |]. intros e He. simpl in He. lia.
    + apply ordered_app; [by eapply ordered_same | done |].
      intros e e' He He'. rewrite Forall_forall in Hxi, Hyi.
      rewrite (Hxi e He). pose proof (Hyi e' He'). lia.
    + intros j r Hj. rewrite missingErrors_app. destruct j as [| j].
      * simpl in Hj. injection Hj as <-. rewrite Nat.add_0_r, Hxm.
        rewrite (missingErrors_other n y); [lia |].
        eapply Forall_impl; [exact Hyi |]. intros e He. left. simpl in He. lia.
      * simpl in Hj. rewrite (missingErrors_other _ x).
        -- replace (n + S j)%nat with (S n + j)%nat by lia. by apply Hym.
        -- eapply Forall_impl; [exact Hxi |]. intros e He. left.
           simpl in He. lia.
Qed.

Lemma validateData_errors et rows res :
  validateData et (Some rows) = Return res ->
  Forall (fun e => (rowIndex e < length rows)%nat) (errors res) /\
  ordered (errors res) /\
  forall j row, rows !! j = Some row ->
    missingErrors j (errors res) =
      if ToBoolean (getProp row (getIDField et)) then 0%nat else 1%nat.
Proof.
  unfold validateData. destruct rows as [| row rows].
  - intros [= <-]. repeat split; [constructor | by intros a b ea eb Ha | done].
  - destruct (forEach _ _ _ _) as [st |] eqn:Hloop; [| discriminate].
    cbn [bind]. intros [= <-]. cbn [errors].
    apply forEach_errors in Hloop as [extra [-> [Hb [Ho Hm]]]].
    cbn [errs app]. repeat split; [| done | done].
    eapply Forall_impl; [exact Hb |]. intros e He. simpl in He |- *. lia.
Qed.

(** The errors come in the order of the rows: an error is never followed
    by an error of an earlier row. *)
Theorem errors_follow_row_order et data res :
  validateData et data = Return res -> ordered (errors res).
Proof.
  destruct data as [rows |].
  - intros H. by apply validateData_errors in H as [_ [H _]].
  - intros [= <-]. by intros a b ea eb Ha.
Qed.

(** A row is reported as missing its identifier exactly when the
    identifier is falsy (absent, empty, [null], [false], 0 or [NaN]), and
    then once. *)
Theorem missing_identifier_is_reported_once et rows res i row :
  validateData et (Some rows) = Return res ->
  rows !! i = Some row ->
  missingErrors i (errors res) =
    if ToBoolean (getProp row (getIDField et)) then 0%nat else 1%nat.
Proof.
  intros H Hi. apply validateData_errors in H as [_ [_ H]]. by apply H.
Qed.

Lemma validated_no_errors et data res :
  validateData et data = Return res ->
  validated res = true <-> errors res = [].
Proof.
  unfold validateData. destruct data as [[| row rows] |];
    try (intros [= <-]; done).
  destruct (forEach _ _ _ _) as [st |]; [| discriminate].
  cbn [bind]. intros [= <-]. cbn [validated errors].
  destruct (errs st); simpl; split; congruence.
Qed.

Lemma not_seen_before idField rows i j ri rj :
  rows !! i = Some ri -> rows !! j = Some rj -> (i < j)%nat ->
  ToBoolean (getProp rj idField) = true ->
  expectedDuplicates idField rows j = 0%nat ->
  SameValueZero (getProp rj idField) (getProp ri idField) = false.
Proof.
  intros Hi Hj Hij Hv. unfold expectedDuplicates. rewrite Hj, Hv. cbn [andb].
  destruct (seenBefore _ _ _ _) eqn:Hseen; [discriminate |]. intros _.
  unfold seenBefore in Hseen.
  destruct (SameValueZero _ _) eqn:Hsame; [| done].
  rewrite <- Hseen. symmetry. apply existsb_exists.
  exists (getProp ri idField). split; [| done].
  unfold idsOf. apply (in_map (fun row => getProp row idField)).
  apply list_elem_of_In.
  apply elem_of_take. eauto.
Qed.

(** A dataset that validation passes has a truthy identifier on every
    row, and no two of its rows hold the same identifier. *)
Theorem validated_rows_are_identified et rows res :
  validateData et (Some rows) = Return res ->
  validated res = true ->
  (forall i row, rows !! i = Some row ->
     ToBoolean (getProp row (getIDField et)) = true) /\
  (forall i j ri rj, rows !! i = Some ri -> rows !! j = Some rj -> i ≠ j ->
     SameValueZero (getProp ri (getIDField et)) (getProp rj (getIDField et))
     = false).
Proof.
  intros Hres Hval.
  apply (validated_no_errors _ _ _ Hres) in Hval.
  assert (Hids : forall i row, rows !! i = Some row ->
            ToBoolean (getProp row (getIDField et)) = true).
  { intros i row Hi.
    pose proof (validateData_errors _ _ _ Hres) as [_ [_ Hm]].
    specialize (Hm i row Hi). rewrite Hval in Hm.
    by destruct (ToBoolean _). }
  split; [exact Hids |].
  destruct (validateData_invariant _ _ _ Hres) as [st [[_ Hdups _] Herrs]].
  rewrite <- Herrs, Hval in Hdups.
  assert (Hlt : forall i j ri rj, rows !! i = Some ri -> rows !! j = Some rj ->
            (i < j)%nat ->
            SameValueZero (getProp rj (getIDField et))
              (getProp ri (getIDField et)) = false).
  { intros i j ri rj Hi Hj Hij.
    eapply not_seen_before; eauto. by rewrite <- Hdups. }
  intros i j ri rj Hi Hj Hne.
  destruct (Nat.lt_total i j) as [Hij | [-> | Hji]]; [| done | by eauto].
  destruct (SameValueZero _ _) eqn:Hsame; [| done].
  apply SameValueZero_eq in Hsame; [| by eauto].
  rewrite <- (Hlt i j ri rj Hi Hj Hij). rewrite Hsame.
  symmetry. apply SameValueZero_refl. by eauto.
Qed.

(** *** Rows that come later *)

Lemma forEach_app body a b : forall n st,
  forEach body (a ++ b) n st =
  bind (forEach body a n st) (forEach body b (n + length a)).
Proof.
  induction a as [| row a IH]; intros n st; simpl.
  - by rewrite Nat.add_0_r.
  - destruct (body row n st) as [st1 |]; cbn [bind]; [| done].
    rewrite IH.
    by replace (S n + length a)%nat with (n + S (length a))%nat by lia.
Qed.

Lemma filter_below n (errs : list ValidationError) :
  Forall (fun e => (rowIndex e < n)%nat) errs ->
  List.filter (fun e => (rowIndex e <? n)%nat) errs = errs.
Proof.
  induction 1 as [| e errs He _ IH]; [done |]. simpl.
  apply Nat.ltb_lt in He. by rewrite He, IH.
Qed.

Lemma filter_above n (errs : list ValidationError) :
  Forall (fun e => (n <= rowIndex e)%nat) errs ->
  List.filter (fun e => (rowIndex e <? n)%nat) errs = [].
Proof.
  induction 1 as [| e errs He _ IH]; [done |]. simpl.
  apply Nat.ltb_ge in He. by rewrite He, IH.
Qed.

(** The errors of the first rows of a dataset do not depend on the rows
    after them: validating the first rows alone returns the errors that
    the whole dataset has on these rows. *)
Theorem later_rows_leave_earlier_errors et rows more res :
  validateData et (Some (rows ++ more)) = Return res ->
  exists res0,
    validateData et (Some rows) = Return res0 /\
    errors res0 =
      List.filter (fun e => (rowIndex e <? length rows)%nat) (errors res).
Proof.
  destruct rows as [| row rows].
  - intros H. eexists. split; [reflexivity |]. cbn [errors length].
    pose proof (validateData_errors _ _ _ H) as [_ _].
    symmetry. apply filter_above. apply Forall_forall. intros; lia.
  - unfold validateData. cbn [app].
    change (row :: rows ++ more) with ((row :: rows) ++ more).
    rewrite forEach_app.
    destruct (forEach _ (row :: rows) _ _) as [st1 |] eqn:H1;
      [| discriminate].
    cbn [bind].
    destruct (forEach _ more _ _) as [st2 |] eqn:H2; [| discriminate].
    cbn [bind]. intros [= <-]. eexists. split; [reflexivity |].
    cbn [errors].
    apply forEach_errors in H1 as [x [Hx [Hxb _]]].
    apply forEach_errors in H2 as [y [Hy [Hyb _]]].
    rewrite Hy, Hx. cbn [errs app]. rewrite List.filter_app.
    rewrite filter_below, filter_above, app_nil_r; [done | |].
    + eapply Forall_impl; [exact Hyb |]. intros e He. simpl in He |- *. lia.
    + eapply Forall_impl; [exact Hxb |]. intros e He. simpl in He |- *. lia.
Qed.

(** *** Fields the validator does not read *)

Lemma validateRow_unread et row i st f v :
  f ∉ checkedFields et ->
  validateRow et (getIDField et) (setProp row f v) i st =
  validateRow et (getIDField et) row i st.
Proof.
  intros Hf. unfold checkedFields in Hf.
  apply not_elem_of_cons in Hf as [Hid Hf].
  unfold validateRow. rewrite (getProp_setProp_ne row f) by done.
  f_equal. unfold validateEntity.
  destruct (str_eqb et (js "clients")).
  { repeat (apply not_elem_of_cons in Hf as [? Hf]).
    unfold validateClient. by rewrite !(getProp_setProp_ne row f) by done. }
  destruct (str_eqb et (js "workers")).
  { repeat (apply not_elem_of_cons in Hf as [? Hf]).
    unfold validateWorker. by rewrite !(getProp_setProp_ne row f) by done. }
  destruct (str_eqb et (js "tasks")); [| done].
  repeat (apply not_elem_of_cons in Hf as [? Hf]).
  unfold validateTask. by rewrite !(getProp_setProp_ne row f) by done.
Qed.

Lemma forEach_insert body row' : forall rows k n st row,
  rows !! k = Some row ->
  (forall st', body row' (n + k)%nat st' = body row (n + k)%nat st') ->
  forEach body (<[k := row']> rows) n st = forEach body rows n st.
Proof.
  induction rows as [| r rows IH]; intros k n st row Hk Hb; [done |].
  destruct k as [| k]; simpl in Hk |- *.
  - injection Hk as ->. rewrite Nat.add_0_r in Hb. by rewrite Hb.
  - destruct (body r n st) as [st1 |]; cbn [bind]; [| done].
    apply (IH k (S n) st1 row Hk).
    intros st'. replace (S n + k)%nat with (n + S k)%nat by lia. apply Hb.
Qed.

(** Writing a cell of a field that is not read leaves the result as it
    was. *)
Lemma writeCell_unread et rows i f v :
  f ∉ checkedFields et ->
  validateData et (Some (Dataset.writeCell rows i f v)) =
  validateData et (Some rows).
Proof.
  intros Hf. unfold Dataset.writeCell, Dataset.rowAt.
  destruct (0 <=? i); [| done].
  destruct (rows !! Z.to_nat i) as [row |] eqn:Hrow; [| done].
  unfold validateData.
  destruct rows as [| r rows]; [done |].
  assert (H : forall st,
    forEach (validateRow et (getIDField et))
      (<[Z.to_nat i := setProp row f v]> (r :: rows)) 0 st =
    forEach (validateRow et (getIDField et)) (r :: rows) 0 st).
  { intros st. apply (forEach_insert _ _ _ _ _ _ row Hrow).
    intros st'. by apply validateRow_unread. }
  destruct (Z.to_nat i); simpl in H |- *; by rewrite H.
Qed.

(** *** PreferredPhases *)

Lemma phasePattern_range s : test phasePattern s = true <-> isRange s.
Proof.
  unfold test, phasePattern.
  change (seqs ?l) with
    (Seq Bol (Seq (plus class_d) (Seq (Star class_s) (Seq (lit (js "-"))
      (Seq (Star class_s) (Seq (plus class_d) Eol)))))).
  rewrite exec_bol. split.
  - destruct (run _ true _ _ _) as [[st' caps] |] eqn:Hrun; [| done].
    intros _. rewrite run_seq in Hrun.
    apply plus_inv in Hrun as [a [r1 [H1 [Ha [Hda Hrun]]]]].
    rewrite run_seq in Hrun.
    apply star_inv in Hrun as [ws1 [r2 [H2 [Hws1 Hrun]]]].
    rewrite run_seq in Hrun.
    change (lit (js "-")) with (Chr (N.eqb 45)) in Hrun.
    apply chr_inv in Hrun as [c [r3 [H3 [Hc Hrun]]]].
    apply N.eqb_eq in Hc. subst c.
    rewrite run_seq in Hrun.
    apply star_inv in Hrun as [ws2 [r4 [H4 [Hws2 Hrun]]]].
    rewrite run_seq in Hrun.
    apply plus_inv in Hrun as [b [r5 [H5 [Hb [Hdb Hrun]]]]].
    cbn [run before after] in *.
    destruct r5 as [| x r5]; [| done].
    exists a, ws1, ws2, b. subst. rewrite app_nil_r. done.
  - intros [a [ws1 [ws2 [b [-> [Ha [Hda [Hws1 [Hws2 [Hb Hdb]]]]]]]]]].
    destruct a as [| c a]; [done |]. destruct b as [| d b]; [done |].
    simpl in Hda, Hdb.
    apply andb_true_iff in Hda as [Hc Hda].
    apply andb_true_iff in Hdb as [Hd Hdb].
    match goal with
    | |- context [run ?r true ?st [] _] => eassert (Hl : leads r st [] _ _)
    end.
    { eapply leads_seq; [apply leads_plus; [exact Hc | exact Hda |] |].
      { destruct ws1 as [| x ws1]; [done |]. simpl in Hws1 |- *.
        apply andb_true_iff in Hws1 as [Hx _]. by apply space_is_no_digit. }
      eapply leads_seq; [apply leads_star; [exact Hws1 | done] |].
      eapply leads_seq; [apply (leads_lit (js "-")) |].
      eapply leads_seq; [apply leads_star; [exact Hws2 |] |].
      { simpl. by apply digit_is_no_space. }
      eapply leads_seq; [| apply leads_eol].
      rewrite <- (app_nil_r (d :: b)).
      apply leads_plus; [exact Hd | exact Hdb | done]. }
    by rewrite (Hl _ _ eq_refl).
Qed.

(** *** The errors of one row *)

Lemma cellErrors_app j f a b :
  cellErrors j f (a ++ b) = cellErrors j f a ++ cellErrors j f b.
Proof. apply List.filter_app. Qed.

Lemma cellErrors_other j f errs :
  Forall (fun e => rowIndex e ≠ j) errs -> cellErrors j f errs = [].
Proof.
  unfold cellErrors. induction 1 as [| e errs He _ IH]; [done |]. simpl.
  apply Nat.eqb_neq in He. by rewrite He.
Qed.

(** The errors that a dataset has on a row are the ones that the loop
    body adds when it comes to the row. *)
Lemma validateData_row et rows res j row f :
  validateData et (Some rows) = Return res ->
  rows !! j = Some row ->
  exists st st',
    validateRow et (getIDField et) row j st = Return st' /\
    exists extra, errs st' = errs st ++ extra /\
                  cellErrors j f (errors res) = cellErrors j f extra.
Proof.
  intros Hres Hj.
  assert (Hsplit : rows = take j rows ++ row :: drop (S j) rows)
    by (by rewrite take_drop_middle).
  assert (Hlen : length (take j rows) = j).
  { apply length_take_le. apply lookup_lt_Some in Hj. lia. }
  revert Hres. unfold validateData.
  destruct rows as [| r0 rows0] eqn:Hrows; [done |]. rewrite <- Hrows in *.
  rewrite Hsplit at 1. rewrite forEach_app, Hlen.
  destruct (forEach _ (take j rows) _ _) as [st |] eqn:Hpre; [| done].
  cbn [bind forEach].
  destruct (validateRow _ _ _ _ _) as [st' |] eqn:Hrow; [| done].
  cbn [bind].
  destruct (forEach _ (drop _ _) _ _) as [st'' |] eqn:Hpost; [| done].
  cbn [bind]. intros [= <-]. cbn [errors].
  exists st, st'. split; [done |].
  apply forEach_errors in Hpre as [x [Hx [Hxb _]]].
  pose proof (validateRow_errors _ _ _ _ _ _ Hrow) as [y [Hy _]].
  apply forEach_errors in Hpost as [z [Hz [Hzb _]]].
  exists y. split; [done |].
  rewrite Hz, Hy, Hx. cbn [errs app]. rewrite !cellErrors_app.
  rewrite (cellErrors_other j f x), (cellErrors_other j f z), app_nil_r;
    [done | |].
  - eapply Forall_impl; [exact Hzb |]. intros e He. simpl in He. lia.
  - eapply Forall_impl; [exact Hxb |]. intros e He. simpl in He. lia.
Qed.

Lemma cellErrors_one j f g m :
  cellErrors j f [{| rowIndex := j; field := g; message := m |}] =
  if str_eqb g f then [{| rowIndex := j; field := g; message := m |}] else [].
Proof. unfold cellErrors. simpl. by rewrite Nat.eqb_refl. Qed.

Ltac row_errors Hy :=
  unfold push in Hy; rewrite <- ?app_assoc in Hy;
  match type of Hy with
  | ?b = ?b ++ ?x =>
      assert (x = []) by (apply (app_inv_head b); by rewrite app_nil_r)
  | _ => apply app_inv_head in Hy
  end;
  subst;
  rewrite ?cellErrors_app, ?cellErrors_one.

Lemma other_fields :
  str_eqb (js "TaskID") (js "PreferredPhases") = false /\
  str_eqb (js "Duration") (js "PreferredPhases") = false /\
  str_eqb (js "MaxConcurrent") (js "PreferredPhases") = false /\
  str_eqb (js "PreferredPhases") (js "PreferredPhases") = true.
Proof. by vm_compute. Qed.

(** A task row is reported on [PreferredPhases] exactly when the cell is
    there and does not read as a range of phases, and then once. *)
Theorem preferred_phases_must_be_a_range rows res j row :
  validateData (js "tasks") (Some rows) = Return res ->
  rows !! j = Some row ->
  (length (cellErrors j (js "PreferredPhases") (errors res)) <= 1)%nat /\
  (cellErrors j (js "PreferredPhases") (errors res) ≠ [] <->
   present (getProp row (js "PreferredPhases")) = true /\
   ~ isRange (ToString (getProp row (js "PreferredPhases")))).
Proof.
  intros Hres Hj.
  destruct (validateData_row _ _ _ _ _ (js "PreferredPhases") Hres Hj)
    as [st [st' [Hrow [extra [Hy ->]]]]].
  destruct other_fields as [F1 [F2 [F3 F4]]].
  pose proof (phasePattern_range
                (ToString (getProp row (js "PreferredPhases")))) as Hrange.
  revert Hrow. unfold validateRow.
  change (getIDField (js "tasks")) with (js "TaskID").
  change (validateEntity (js "tasks") row j) with (validateTask row j).
  unfold validateTask. cbn [bind].
  repeat case_match; intros [= <-]; cbn [errs] in Hy; row_errors Hy;
    rewrite ?F1, ?F2, ?F3, ?F4.
  all: change (cellErrors j (js "PreferredPhases") [])
         with (@nil ValidationError) in *.
  all: rewrite ?app_nil_r; cbn [app length].
  all: split; [lia |].
  all: repeat match goal with
       | H : negb _ = true |- _ => apply negb_true_iff in H
       | H : negb _ = false |- _ => apply negb_false_iff in H
       end.
  all: try (split; [intros _; split; [done |]; intros Hr; apply Hrange in Hr;
                    congruence
                   | done]).
  all: try (split; [done |]; intros [Hp Hr]; first [congruence |
              exfalso; apply Hr; by apply Hrange]).
Qed.

(** *** Datasets read from CSV *)

Lemma textual_splittable row : textual row -> splittable row = true.
Proof.
  intros H. unfold splittable, getProp.
  destruct (row !! js "RequestedTaskIDs") as [v |] eqn:E; [| done].
  simpl. rewrite (H _ _ E). apply orb_true_r.
Qed.

(** A dataset whose cells are all strings, as the CSV parser delivers
    them, is validated without a throw, whatever the entity type. *)
Theorem textual_datasets_are_validated et rows :
  Forall textual rows -> exists res, validateData et (Some rows) = Return res.
Proof.
  intros H. apply validateData_returns. apply forallb_forall.
  intros row Hrow. apply textual_splittable.
  rewrite Forall_forall in H. apply H. by apply list_elem_of_In.
Qed.

Lemma textual_rowOf cells :
  Forall (fun cell => isString (snd cell) = true) cells ->
  textual (rowOf cells).
Proof.
  intros H key v Hv. apply elem_of_list_to_map_2 in Hv.
  rewrite Forall_forall in H. apply (H (key, v) Hv).
Qed.

(** *** On small datasets *)

Lemma validation_never_throws_off_clients_witness :
  exists res, validateData (js "tasks") (Some [numericTaskIdsRow]) = Return res.
Proof.
  apply validation_never_throws_off_clients. vm_compute. discriminate.
Defined.

Lemma validated_rows_are_identified_witness :
  (forall i row, identifiedRows !! i = Some row ->
     ToBoolean (getProp row (getIDField (js "workers"))) = true) /\
  (forall i j ri rj,
     identifiedRows !! i = Some ri -> identifiedRows !! j = Some rj ->
     i ≠ j ->
     SameValueZero (getProp ri (getIDField (js "workers")))
       (getProp rj (getIDField (js "workers"))) = false).
Proof.
  apply (validated_rows_are_identified (js "workers") identifiedRows
           {| validated := true; errors := [] |}).
  - vm_compute. reflexivity.
  - reflexivity.
Defined.

Lemma missing_identifier_is_reported_once_witness :
  validateData (js "tasks") (Some unidentifiedRows)
  = Return resultUnidentified /\
  missingErrors 1 (errors resultUnidentified) = 1%nat /\
  missingErrors 0 (errors resultUnidentified) = 0%nat.
Proof.
  assert (H : validateData (js "tasks") (Some unidentifiedRows)
              = Return resultUnidentified) by (vm_compute; reflexivity).
  split; [exact H |]. split.
  - exact (missing_identifier_is_reported_once (js "tasks") unidentifiedRows
             resultUnidentified 1 _ H eq_refl).
  - exact (missing_identifier_is_reported_once (js "tasks") unidentifiedRows
             resultUnidentified 0 _ H eq_refl).
Defined.

Lemma errors_follow_row_order_witness :
  ordered (errors resultUnidentified).
Proof.
  apply (errors_follow_row_order (js "tasks") (Some unidentifiedRows)).
  vm_compute. reflexivity.
Defined.

Lemma later_rows_leave_earlier_errors_witness :
  exists res0,
    validateData (js "tasks") (Some (take 2 unidentifiedRows)) = Return res0 /\
    errors res0 =
      List.filter (fun e => (rowIndex e <? 2)%nat) (errors resultUnidentified).
Proof.
  apply (later_rows_leave_earlier_errors (js "tasks") (take 2 unidentifiedRows)
           (drop 2 unidentifiedRows) resultUnidentified).
  vm_compute. reflexivity.
Defined.


Lemma preferred_phases_must_be_a_range_witness :
  (length (cellErrors 1 (js "PreferredPhases") (errors resultRange))
   <= 1)%nat /\
  (cellErrors 1 (js "PreferredPhases") (errors resultRange) ≠ [] <->
   present (getProp (rowOf [(js "TaskID", text "T2");
                            (js "PreferredPhases", text "[1,2,3]")])
              (js "PreferredPhases")) = true /\
   ~ isRange (ToString
                (getProp (rowOf [(js "TaskID", text "T2");
                                 (js "PreferredPhases", text "[1,2,3]")])
                   (js "PreferredPhases")))).
Proof.
  apply (preferred_phases_must_be_a_range rangeRows resultRange 1).
  - vm_compute. reflexivity.
  - reflexivity.
Defined.

Lemma textual_datasets_are_validated_witness :
  exists res, validateData (js "clients") (Some textualRows) = Return res.
Proof.
  apply textual_datasets_are_validated.
  constructor; [apply textual_rowOf; by repeat constructor |].
  constructor; [apply textual_rowOf; by repeat constructor |].
  constructor.
Defined.

End ValidatorsProofs.

(** ** Writing cells *)

Module DatasetProofs.
Import JS Dataset Statements RuntimeFacts.

Lemma rowAt_inRange data i : inRange data i = true <-> is_Some (rowAt data i).
Proof.
  unfold inRange, rowAt. destruct (Z.leb_spec 0 i); simpl.
  - rewrite lookup_lt_is_Some, Z.ltb_lt. lia.
  - split; [done | by intros [? ?]].
Qed.


Lemma length_writeCell data i f v : length (writeCell data i f v) = length data.
Proof. unfold writeCell. destruct (rowAt _ _); [apply length_insert | done]. Qed.

Lemma inRange_writeCell data i f v j :
  inRange (writeCell data i f v) j = inRange data j.
Proof. unfold inRange. by rewrite length_writeCell. Qed.


Lemma writeCell_written data i f v row :
  rowAt data i = Some row ->
  rowAt (writeCell data i f v) i = Some (setProp row f v).
Proof.
  intros H. unfold writeCell. rewrite H. unfold rowAt in *.
  destruct (0 <=? i); [| done].
  apply list_lookup_insert_eq. by eapply lookup_lt_Some.
Qed.

(** A write to another row leaves the row as it is. *)
Lemma rowAt_writeCell_ne data i i' f v :
  i' ≠ i -> rowAt (writeCell data i' f v) i = rowAt data i.
Proof.
  intros Hne. unfold writeCell.
  destruct (rowAt data i') as [r' |] eqn:Hr'; [| done].
  unfold rowAt in *.
  destruct (Z.leb_spec 0 i); [| done].
  destruct (Z.leb_spec 0 i'); [| done].
  by rewrite list_lookup_insert_ne by lia.
Qed.

(** A write to another cell leaves the cell as it is. *)
Lemma writeCell_other data i f i' f' v' row :
  ~ (i' = i /\ f' = f) ->
  rowAt data i = Some row ->
  exists row', rowAt (writeCell data i' f' v') i = Some row' /\
               row' !! f = row !! f.
Proof.
  intros Hne Hrow.
  destruct (decide (i' = i)) as [-> | Hidx].
  - exists (setProp row f' v'). split; [by apply writeCell_written |].
    apply setProp_other. intros Hf. apply Hne. by split.
  - exists row. split; [by rewrite rowAt_writeCell_ne | done].
Qed.

(** A batch of entries of any record type, written in order. *)
Section Batch.
Context {A : Type} (idx : A -> Z) (fld : A -> jsstring) (val : A -> value).

Abbreviation write := (writeEntry idx fld val).


Lemma batch_in_range : forall batch data i,
  is_Some (rowAt data i) -> is_Some (rowAt (fold_left write batch data) i).
Proof.
  induction batch as [| a rest IH]; intros data i H; simpl; [done |].
  apply IH. apply rowAt_inRange. unfold writeEntry. rewrite inRange_writeCell.
  by apply rowAt_inRange.
Qed.

Lemma batch_other i f : forall batch data row,
  Forall (fun a => ~ (idx a = i /\ fld a = f)) batch ->
  rowAt data i = Some row ->
  exists row', rowAt (fold_left write batch data) i = Some row' /\
               row' !! f = row !! f.
Proof.
  induction batch as [| a rest IH]; intros data row Hall Hrow; simpl.
  - eauto.
  - inversion_clear Hall as [| ? ? Ha Hrest].
    destruct (writeCell_other data i f (idx a) (fld a) (val a) row Ha Hrow)
      as [r1 [Hr1 Hg1]].
    destruct (IH _ _ Hrest Hr1) as [r2 [Hr2 Hg2]].
    exists r2. split; [done | congruence].
Qed.

(** The last entry that writes a cell decides what the cell holds; the
    assignment to [__proto__] apart, which writes no cell. *)
Lemma batch_last_write before a after data :
  is_Some (rowAt data (idx a)) ->
  fld a ≠ js "__proto__" ->
  Forall (fun a' => ~ (idx a' = idx a /\ fld a' = fld a)) after ->
  exists row',
    rowAt (fold_left write (before ++ a :: after) data) (idx a) = Some row' /\
    getProp row' (fld a) = val a.
Proof.
  intros Hin Hfld Hlast.
  destruct (batch_in_range before _ _ Hin) as [r1 Hr1].
  pose proof (writeCell_written _ (idx a) (fld a) (val a) r1 Hr1) as Hw.
  destruct (batch_other _ _ after _ _ Hlast Hw) as [r2 [Hr2 Hg2]].
  exists r2. split.
  - rewrite fold_left_app. exact Hr2.
  - apply getProp_cell. rewrite Hg2. apply setProp_cell. by left.
Qed.




End Batch.

End DatasetProofs.

(** ** The natural-language editor *)

Module EditorProofs.
Import JS Dataset NaturalLanguageEditor.
Import Statements Statements.OfEditor RuntimeFacts DatasetProofs.

Lemma mapFilter_In f : forall data i c,
  In c (mapFilter f data i) ->
  exists j row, data !! j = Some row /\ f row (i + j)%nat = Some c.
Proof.
  induction data as [| row rest IH]; intros i c; simpl; [done |].
  destruct (f row i) as [c0 |] eqn:Hf; simpl.
  - intros [<- | Hin].
    + exists 0%nat, row. by rewrite Nat.add_0_r.
    + destruct (IH _ _ Hin) as [j [r [Hj Hr]]]. exists (S j), r.
      split; [done |]. by rewrite Nat.add_succ_r.
  - intros Hin. destruct (IH _ _ Hin) as [j [r [Hj Hr]]]. exists (S j), r.
    split; [done |]. by rewrite Nat.add_succ_r.
Qed.


(** Every change of the result is the change computed for some row, with
    the field and the replacement text that the instruction names. *)
Lemma parseEditInstruction_changes {table : CaseMapping} instruction data fld
    repl c :
  replacementOf instruction = Some (fld, repl) ->
  In c (parseEditInstruction instruction data) ->
  exists i row, data !! i = Some row /\ c = changeFor row i fld repl.
Proof.
  unfold replacementOf, parseEditInstruction.
  destruct (exec wherePattern instruction) as [m |].
  - intros [= <- <-] Hin. apply mapFilter_In in Hin as [j [row [Hj Hc]]].
    exists j, row. split; [done |]. simpl in Hc.
    destruct (str_eqb _ _); by simplify_eq.
  - destruct (exec allPattern instruction) as [m |]; [| done].
    intros [= <- <-] Hin. apply mapFilter_In in Hin as [j [row [Hj Hc]]].
    exists j, row. split; [done |]. simpl in Hc. by simplify_eq.
Qed.

Lemma changeFor_oldValue row i fld repl :
  oldValue (changeFor row i fld repl) = getProp row fld.
Proof. unfold changeFor. by repeat case_match. Qed.

(** C4.  For a change to a value that is a string trimming to
    a text between braces: if the value parses, it parses to an object, and
    the new value is that object serialized with the replacement text under
    every key; if it does not parse, the new value is the old one with a
    comma and the replacement text appended when the old value has a comma
    in it, and the replacement text as it is only when it has none. *)
Theorem json_field_edit {table : CaseMapping} instruction data fld repl c s :
  replacementOf instruction = Some (fld, repl) ->
  In c (parseEditInstruction instruction data) ->
  oldValue c = VString s ->
  looksLikeJSON (VString s) = true ->
  match JSON_parse s with
  | Some obj =>
      exists props, obj = JObject props /\
        newValue c = VString (JSON_stringify (overwritten props repl))
  | None =>
      newValue c =
        VString (if includes s (js ",") then s ++ js "," ++ repl else repl)
  end.
Proof.
  intros Hparts Hin Hold Hjson.
  destruct (parseEditInstruction_changes _ _ _ _ _ Hparts Hin)
    as [i [row [_ ->]]].
  rewrite changeFor_oldValue in Hold. unfold changeFor. rewrite Hold, Hjson.
  unfold jsonEdit. cbn [ToString looksLikeList].
  destruct (JSON_parse s) as [obj |] eqn:Hp.
  - assert (Hbrace : startsWith (trim s) (js "{") = true).
    { simpl in Hjson. by apply andb_true_iff in Hjson as [? _]. }
    destruct (JSON_parse_brace s obj Hbrace Hp) as [props ->].
    exists props. split; [done |]. reflexivity.
  - by destruct (includes s (js ",")).
Qed.


(** C8, as amended.  In a batch that is applied, the last entry that
    targets a cell of a row of the dataset decides what the cell holds
    afterwards, whatever the entries before it wrote, when the field is
    not [__proto__]. *)
Theorem last_write_wins e p changes1 c changes2 :
  is_Some (rowAt (dataOf e p) (rowIndex c)) ->
  field c ≠ js "__proto__" ->
  Forall (fun c' => ~ sameCell c c') changes2 ->
  exists data' row',
    handleApplyChanges e p (changes1 ++ c :: changes2) = Some (e, data') /\
    rowAt data' (rowIndex c) = Some row' /\
    getProp row' (field c) = newValue c.
Proof.
  intros Hin Hfield Hlast.
  destruct (batch_last_write rowIndex field newValue changes1 c changes2
              (dataOf e p) Hin Hfield Hlast) as [row' [Hrow' Hval]].
  exists (applyChanges (dataOf e p) (changes1 ++ c :: changes2)), row'.
  split; [| split; done].
  unfold handleApplyChanges. by destruct changes1.
Qed.

Import PatternFacts.

(** *** The changes as a whole *)

Lemma changeFor_rowIndex row i fld repl :
  rowIndex (changeFor row i fld repl) = Z.of_nat i.
Proof. unfold changeFor. by repeat case_match. Qed.

Lemma changeFor_field row i fld repl :
  field (changeFor row i fld repl) = fld.
Proof. unfold changeFor. by repeat case_match. Qed.

Lemma changeFor_newValue row i fld repl :
  newValue (changeFor row i fld repl) = newValue (changeFor row 0 fld repl).
Proof. unfold changeFor. by repeat case_match. Qed.

Lemma changeFor_string row i fld repl :
  isString (newValue (changeFor row i fld repl)) = true.
Proof. unfold changeFor. by repeat case_match. Qed.

Lemma rowAt_of_nat data i : rowAt data (Z.of_nat i) = data !! i.
Proof.
  unfold rowAt. destruct (Z.leb_spec 0 (Z.of_nat i)); [| lia].
  by rewrite Nat2Z.id.
Qed.

Lemma mapFilter_increasing f : forall data n,
  (forall row i c, f row i = Some c -> rowIndex c = Z.of_nat i) ->
  forall a b ca cb,
    mapFilter f data n !! a = Some ca -> mapFilter f data n !! b = Some cb ->
    (a < b)%nat -> Z.of_nat n <= rowIndex ca < rowIndex cb.
Proof.
  intros data n Hf. revert n.
  induction data as [| row rest IH]; intros n a b ca cb; simpl; [done |].
  assert (Hge : forall m k c, mapFilter f rest m !! k = Some c ->
                  Z.of_nat m <= rowIndex c).
  { intros m k c Hk. apply list_elem_of_lookup_2, list_elem_of_In in Hk.
    apply mapFilter_In in Hk as [j [r [_ Hc]]]. apply Hf in Hc. lia. }
  destruct (f row n) as [c0 |] eqn:Hc0.
  - destruct a as [| a], b as [| b]; simpl; intros Ha Hb Hab; try lia.
    + injection Ha as <-. apply Hf in Hc0. apply Hge in Hb. lia.
    + pose proof (IH (S n) a b ca cb Ha Hb). lia.
  - intros Ha Hb Hab. pose proof (IH (S n) a b ca cb Ha Hb). lia.
Qed.

(** Every change that [parseEditInstruction] proposes can be applied: its
    row is in the dataset, its old value is what the cell holds, and its
    new value is a string; the changes come in the order of the rows, no
    row twice, and all on one field. *)
Theorem parsed_changes_are_writable {table : CaseMapping} instruction data :
  Forall (writable data) (parseEditInstruction instruction data) /\
  (forall a b ca cb,
     parseEditInstruction instruction data !! a = Some ca ->
     parseEditInstruction instruction data !! b = Some cb ->
     (a < b)%nat -> rowIndex ca < rowIndex cb) /\
  (forall c c',
     c ∈ parseEditInstruction instruction data ->
     c' ∈ parseEditInstruction instruction data -> field c = field c').
Proof.
  destruct (replacementOf instruction) as [[fld repl] |] eqn:Hrepl.
  - assert (Hall : forall c, c ∈ parseEditInstruction instruction data ->
               exists i row, data !! i = Some row /\
                             c = changeFor row i fld repl).
    { intros c Hc. apply list_elem_of_In in Hc.
      by eapply parseEditInstruction_changes. }
    split; [| split].
    + apply Forall_forall. intros c Hc.
      destruct (Hall c Hc) as [i [row [Hi ->]]]. split.
      * apply changeFor_string.
      * exists row. rewrite changeFor_rowIndex, changeFor_field,
          changeFor_oldValue, rowAt_of_nat. done.
    + intros a b ca cb Ha Hb Hab. revert Ha Hb.
      unfold parseEditInstruction.
      destruct (exec wherePattern instruction) as [m |].
      * intros Ha Hb.
        eapply mapFilter_increasing; [| exact Ha | exact Hb | exact Hab].
        intros row i c. simpl. destruct (str_eqb _ _); [| done].
        intros [= <-]. apply changeFor_rowIndex.
      * destruct (exec allPattern instruction) as [m |]; [| done].
        intros Ha Hb.
        eapply mapFilter_increasing; [| exact Ha | exact Hb | exact Hab].
        intros row i c. simpl. intros [= <-]. apply changeFor_rowIndex.
    + intros c c' Hc Hc'.
      destruct (Hall c Hc) as [i [row [_ ->]]].
      destruct (Hall c' Hc') as [i' [row' [_ ->]]].
      by rewrite !changeFor_field.
  - assert (parseEditInstruction instruction data = []) as ->.
    { unfold replacementOf in Hrepl. unfold parseEditInstruction.
      destruct (exec wherePattern instruction); [done |].
      by destruct (exec allPattern instruction). }
    split; [constructor | split]; [done |]. intros c c' Hc. inversion Hc.
Qed.

(** *** Writing the parsed changes *)

Lemma writeCell_middle pre row rest fld v :
  writeCell (pre ++ row :: rest) (Z.of_nat (length pre)) fld v =
  (pre ++ [setProp row fld v]) ++ rest.
Proof.
  unfold writeCell. rewrite rowAt_of_nat, list_lookup_middle by done.
  rewrite Nat2Z.id. rewrite insert_app_r_alt by lia.
  rewrite Nat.sub_diag. simpl. by rewrite <- app_assoc.
Qed.

Lemma apply_mapFilter (sel : Row -> bool) fld repl : forall rest pre,
  applyChanges (pre ++ rest)
    (mapFilter
       (fun row i => if sel row then Some (changeFor row i fld repl) else None)
       rest (length pre)) =
  pre ++ map (fun row => if sel row then edited fld repl row else row) rest.
Proof.
  unfold applyChanges.
  induction rest as [| row rest IH]; intros pre; simpl; [done |].
  destruct (sel row); simpl.
  - unfold applyChange at 2.
    rewrite changeFor_rowIndex, changeFor_field, changeFor_newValue.
    rewrite writeCell_middle.
    specialize
      (IH (pre ++ [setProp row fld (newValue (changeFor row 0 fld repl))])).
    rewrite length_app in IH. simpl in IH. rewrite Nat.add_1_r in IH.
    rewrite IH. by rewrite <- app_assoc.
  - specialize (IH (pre ++ [row])).
    rewrite length_app in IH. simpl in IH. rewrite Nat.add_1_r in IH.
    rewrite <- app_assoc in IH. simpl in IH. rewrite IH.
    by rewrite <- app_assoc.
Qed.

Lemma applyChanges_parsed {table : CaseMapping} instruction data fld repl :
  replacementOf instruction = Some (fld, repl) ->
  applyChanges data (parseEditInstruction instruction data) =
  map (fun row => if selects instruction row then edited fld repl row else row)
    data.
Proof.
  unfold replacementOf, parseEditInstruction, selects.
  destruct (exec wherePattern instruction) as [m |].
  - intros [= <- <-]. apply (apply_mapFilter (satisfies m) _ _ data []).
  - destruct (exec allPattern instruction) as [m |]; [| done].
    intros [= <- <-]. apply (apply_mapFilter (fun _ => true) _ _ data []).
Qed.

Lemma setProp_written row fld v : written fld v row (setProp row fld v).
Proof.
  split; [| split].
  - intros g Hg. apply setProp_other. congruence.
  - apply setProp_cell.
  - intros -> Hnone. by apply setProp_proto.
Qed.

(** The changes that [handleEdit] leaves pending, applied by
    [handleApplyChanges], give the dataset in which every row that the
    instruction selects is the edited row, and every other row is as it
    was.  The edited row has the new value in the field, and its other
    cells as they were; on the field [__proto__] it is the row as it
    was. *)
Theorem applying_the_parsed_changes {table : CaseMapping} e p instruction
    changes :
  handleEdit e p instruction = inr changes ->
  exists fld repl,
    replacementOf instruction = Some (fld, repl) /\
    handleApplyChanges e p changes =
    Some (e, map (fun row => if selects instruction row
                             then edited fld repl row else row)
               (dataOf e p)) /\
    forall row,
      written fld (newValue (changeFor row 0 fld repl)) row
        (edited fld repl row).
Proof.
  unfold handleEdit.
  destruct (parseEditInstruction instruction (dataOf e p)) as [| c cs] eqn:Hp;
    [done |].
  intros [= <-].
  destruct (replacementOf instruction) as [[fld repl] |] eqn:Hrepl.
  - exists fld, repl. split; [done |]. split.
    + unfold handleApplyChanges.
      rewrite <- Hp. by rewrite (applyChanges_parsed _ _ fld repl).
    + intros row. apply setProp_written.
  - exfalso. revert Hp. unfold replacementOf in Hrepl.
    unfold parseEditInstruction.
    destruct (exec wherePattern instruction); [done |].
    by destruct (exec allPattern instruction).
Qed.

(** *** Instructions that are understood *)

Lemma isName_inv s :
  isName s = true ->
  exists c l, s = c :: l /\ isWordChar c = true /\ forallb isWordChar l = true.
Proof.
  unfold isName. destruct s as [| c l]; [done |]. simpl.
  intros H. apply andb_true_iff in H as [Hc Hl]. eauto.
Qed.

Lemma isWord_inv s :
  isWord s = true ->
  exists c l, s = c :: l /\ isWhiteSpace c = false /\
              forallb (fun c => negb (isWhiteSpace c)) l = true.
Proof.
  unfold isWord. destruct s as [| c l]; [done |]. simpl.
  intros H. apply andb_true_iff in H as [Hc Hl].
  apply negb_true_iff in Hc. eauto.
Qed.

(** An instruction [set <name>=<value>] matches the pattern for all rows,
    with the name and the value as its groups. *)
Lemma allPattern_matches f v :
  isName f = true -> isWord v = true ->
  exists m,
    exec allPattern (js "set " ++ f ++ js "=" ++ v) = Some m /\
    group 1 (match_groups m) = f /\ group 2 (match_groups m) = v.
Proof.
  intros Hf Hv.
  apply isName_inv in Hf as [c [f' [-> [Hc Hf']]]].
  apply isWord_inv in Hv as [d [v' [-> [Hd Hv']]]].
  unfold allPattern.
  change (seqs ?l) with
    (Seq Bol (Seq (lit_i (js "set")) (Seq (plus class_s)
      (Seq (Group 1 (plus class_w)) (Seq (Star class_s) (Seq (lit (js "="))
        (Seq (Star class_s) (Seq (Group 2 (plus class_not_s)) Eol)))))))).
  rewrite exec_bol.
  change (js "set " ++ (c :: f') ++ js "=" ++ d :: v')
    with (js "set" ++ 32%N :: [] ++ (c :: f' ++ js "=" ++ d :: v')).
  match goal with
  | |- context [run ?r true ?st [] _] => eassert (Hl : leads r st [] _ _)
  end.
  { eapply leads_seq; [apply leads_lit_i |].
    eapply leads_seq; [apply leads_plus; [done | done |] |].
    { simpl. by apply word_is_no_space. }
    eapply leads_seq; [apply leads_group, leads_plus; [done | done | done] |].
    eapply leads_seq; [apply (leads_star isWhiteSpace []); [done | done] |].
    eapply leads_seq; [apply (leads_lit (js "=") _ (d :: v')) |].
    eapply leads_seq; [apply (leads_star isWhiteSpace []); [done | exact Hd] |].
    eapply leads_seq; [| apply leads_eol].
    rewrite <- (app_nil_r (d :: v')).
    apply leads_group, leads_plus; [by rewrite Hd | done | done]. }
  rewrite (Hl _ _ eq_refl). eexists. split; [reflexivity |].
  cbn [match_groups group Nat.eqb]. split.
  - by apply between_states_moved.
  - by apply between_states_moved.
Qed.

Lemma none_space_name s : forallb isWordChar s = true -> none isWhiteSpace s.
Proof.
  induction s as [| c s IH]; [constructor |]. simpl. intros H.
  apply andb_true_iff in H as [Hc Hs].
  constructor; [by apply word_is_no_space | by apply IH].
Qed.

Lemma none_space_word s :
  forallb (fun c => negb (isWhiteSpace c)) s = true -> none isWhiteSpace s.
Proof.
  induction s as [| c s IH]; [constructor |]. simpl. intros H.
  apply andb_true_iff in H as [Hc Hs]. apply negb_true_iff in Hc.
  constructor; [done | by apply IH].
Qed.

(** It does not match the pattern with a condition, which asks for white
    space after the value. *)
Lemma wherePattern_no_match f v :
  isName f = true -> isWord v = true ->
  exec wherePattern (js "set " ++ f ++ js "=" ++ v) = None.
Proof.
  intros Hf Hv.
  apply isName_inv in Hf as [c [f' [-> [Hc Hf']]]].
  apply isWord_inv in Hv as [d [v' [-> [Hd Hv']]]].
  unfold wherePattern.
  change (seqs ?l) with
    (Seq Bol (Seq (lit_i (js "set")) (Seq (plus class_s)
      (Seq (Group 1 (plus class_w)) (Seq (Star class_s) (Seq (lit (js "="))
        (Seq (Star class_s) (Seq (Group 2 (plus class_not_s))
          (Seq (plus class_s)
             (seqs [lit_i (js "where"); plus class_s;
                    Group 3 (plus class_w); Star class_s; lit (js "=");
                    Star class_s; Group 4 (plus class_not_s); Eol])))))))))).
  rewrite exec_bol.
  change (js "set " ++ (c :: f') ++ js "=" ++ d :: v')
    with (js "set" ++ 32%N :: (c :: f' ++ js "=" ++ d :: v')).
  rewrite run_seq, run_lit_i. unfold plus at 1. rewrite !run_seq.
  unfold class_s at 1. rewrite run_chr_cons.
  change (isWhiteSpace 32) with true. cbv iota.
  rewrite run_dead; [done |].
  intros st' caps' Hsuf.
  match goal with
  | |- run ?r true st' caps' ?k = None =>
      assert (Hfails : fails r (MState (32%N :: rev (js "set") ++ [])
                                  (c :: f' ++ js "=" ++ d :: v')))
  end.
  { do 5 apply fails_seq_r. apply fails_seq_l. unfold plus.
    apply fails_seq_l. apply fails_chr. cbn [after].
    constructor; [by apply word_is_no_space |].
    apply Forall_app. split; [by apply none_space_name |].
    constructor; [done |]. constructor; [done |]. by apply none_space_word. }
  by apply Hfails.
Qed.

(** An instruction [set <name>=<value> where <name>=<value>] matches the
    pattern with a condition, with the four parts as its groups. *)
Lemma wherePattern_matches f v g w :
  isName f = true -> isWord v = true -> isName g = true -> isWord w = true ->
  exists m,
    exec wherePattern
      (js "set " ++ f ++ js "=" ++ v ++ js " where " ++ g ++ js "=" ++ w)
    = Some m /\
    group 1 (match_groups m) = f /\ group 2 (match_groups m) = v /\
    group 3 (match_groups m) = g /\ group 4 (match_groups m) = w.
Proof.
  intros Hf Hv Hg Hw.
  apply isName_inv in Hf as [c [f' [-> [Hc Hf']]]].
  apply isWord_inv in Hv as [d [v' [-> [Hd Hv']]]].
  apply isName_inv in Hg as [c2 [g' [-> [Hc2 Hg']]]].
  apply isWord_inv in Hw as [d2 [w' [-> [Hd2 Hw']]]].
  unfold wherePattern.
  change (seqs ?l) with
    (Seq Bol (Seq (lit_i (js "set")) (Seq (plus class_s)
      (Seq (Group 1 (plus class_w)) (Seq (Star class_s) (Seq (lit (js "="))
        (Seq (Star class_s) (Seq (Group 2 (plus class_not_s))
          (Seq (plus class_s) (Seq (lit_i (js "where")) (Seq (plus class_s)
            (Seq (Group 3 (plus class_w)) (Seq (Star class_s)
              (Seq (lit (js "=")) (Seq (Star class_s)
                (Seq (Group 4 (plus class_not_s)) Eol)))))))))))))))).
  rewrite exec_bol.
  change (js "set " ++ (c :: f') ++ js "=" ++ (d :: v') ++ js " where "
          ++ (c2 :: g') ++ js "=" ++ d2 :: w')
    with (js "set" ++ 32%N :: [] ++
          (c :: f' ++ js "=" ++ d :: v' ++ 32%N :: [] ++ js "where" ++
           32%N :: [] ++ (c2 :: g' ++ js "=" ++ d2 :: w'))).
  match goal with
  | |- context [run ?r true ?st [] _] => eassert (Hl : leads r st [] _ _)
  end.
  { eapply leads_seq; [apply leads_lit_i |].
    eapply leads_seq; [apply leads_plus; [done | done |] |].
    { simpl. by apply word_is_no_space. }
    eapply leads_seq; [apply leads_group, leads_plus; [done | done | done] |].
    eapply leads_seq; [apply (leads_star isWhiteSpace []); [done | done] |].
    eapply leads_seq; [apply (leads_lit (js "=")) |].
    eapply leads_seq; [apply (leads_star isWhiteSpace []); [done | exact Hd] |].
    eapply leads_seq;
      [apply leads_group, leads_plus; [by rewrite Hd | done | done] |].
    eapply leads_seq; [apply leads_plus; [done | done | done] |].
    eapply leads_seq; [apply (leads_lit_i (js "where")) |].
    eapply leads_seq; [apply leads_plus; [done | done |] |].
    { simpl. by apply word_is_no_space. }
    eapply leads_seq; [apply leads_group, leads_plus; [done | done | done] |].
    eapply leads_seq; [apply (leads_star isWhiteSpace []); [done | done] |].
    eapply leads_seq; [apply (leads_lit (js "=")) |].
    eapply leads_seq;
      [apply (leads_star isWhiteSpace []); [done | exact Hd2] |].
    eapply leads_seq; [| apply leads_eol].
    rewrite <- (app_nil_r (d2 :: w')).
    apply leads_group, leads_plus; [by rewrite Hd2 | done | done]. }
  rewrite (Hl _ _ eq_refl). eexists. split; [reflexivity |].
  cbn [match_groups group Nat.eqb].
  repeat split; by apply between_states_moved.
Qed.

Lemma mapFilter_all (g : Row -> nat -> EditChange) : forall data n,
  mapFilter (fun row i => Some (g row i)) data n =
  imap (fun i row => g row (n + i)%nat) data.
Proof.
  induction data as [| row rest IH]; intros n; [done |]. simpl.
  rewrite Nat.add_0_r, IH. f_equal. apply imap_ext.
  intros i r _. simpl. f_equal. lia.
Qed.

(** An instruction [set <name>=<value>], the name made of word characters
    and the value free of white space, proposes one change for every row
    of the dataset, on the named field. *)
Theorem plain_instruction_changes_every_row {table : CaseMapping} f v data :
  isName f = true -> isWord v = true ->
  parseEditInstruction (js "set " ++ f ++ js "=" ++ v) data =
  imap (fun i row => changeFor row i f v) data.
Proof.
  intros Hf Hv. unfold parseEditInstruction.
  rewrite wherePattern_no_match by done.
  destruct (allPattern_matches f v Hf Hv) as [m [-> [-> ->]]].
  by rewrite mapFilter_all.
Qed.

(** An instruction [set <name>=<value> where <name>=<value>] proposes a
    change, on the field it names first, for the rows whose cell of the
    field it names second reads as the second value, whatever the case of
    the letters, and for no other row. *)
Theorem conditional_instruction_changes_the_rows_it_names
    {table : CaseMapping} f v g w data :
  isName f = true -> isWord v = true -> isName g = true -> isWord w = true ->
  parseEditInstruction
    (js "set " ++ f ++ js "=" ++ v ++ js " where " ++ g ++ js "=" ++ w) data =
  mapFilter
    (fun row i => if holds g w row then Some (changeFor row i f v) else None)
    data 0.
Proof.
  intros Hf Hv Hg Hw. unfold parseEditInstruction.
  by destruct (wherePattern_matches f v g w Hf Hv Hg Hw)
    as [m [-> [-> [-> [-> ->]]]]].
Qed.

(** *** The empty dataset *)

(** On a dataset without rows every instruction, also one that is well
    formed, is answered with the error that it could not be parsed. *)
Theorem nothing_to_edit_reads_as_a_parse_error {table : CaseMapping} e p
    instruction :
  dataOf e p = [] ->
  handleEdit e p instruction =
  inl unparsed.
Proof.
  intros H. unfold handleEdit, parseEditInstruction. rewrite H.
  destruct (exec wherePattern instruction); [done |].
  by destruct (exec allPattern instruction).
Qed.

(** *** On small datasets *)

#[local] Existing Instance exampleMapping.

Lemma json_field_edit_witness :
  match JSON_parse attributesText with
  | Some obj =>
      exists props, obj = JObject props /\
        newValue (changeFor attributesRow 0 (js "AttributesJSON") (js "x"))
        = VString (JSON_stringify (overwritten props (js "x")))
  | None =>
      newValue (changeFor attributesRow 0 (js "AttributesJSON") (js "x"))
      = VString (if includes attributesText (js ",")
                 then attributesText ++ js "," ++ js "x" else js "x")
  end.
Proof.
  apply (json_field_edit (js "set AttributesJSON=x") [attributesRow]
           (js "AttributesJSON") (js "x")
           (changeFor attributesRow 0 (js "AttributesJSON") (js "x"))
           attributesText).
  - vm_compute. reflexivity.
  - vm_compute. left. reflexivity.
  - vm_compute. reflexivity.
  - vm_compute. reflexivity.
Defined.

(** The value [{a,b}] does not parse and has a comma in it: the new value
    is [{a,b},z], not [z]. *)
Lemma parse_failure_is_literal_fails_on_comma :
  ~ parse_failure_is_literal (js "set Tags=z") [bracesRow].
Proof.
  intros H.
  specialize (H (js "Tags") (js "z")
                (changeFor bracesRow 0 (js "Tags") (js "z")) (js "{a,b}")).
  vm_compute in H.
  specialize (H eq_refl (or_introl eq_refl) eq_refl eq_refl eq_refl).
  discriminate.
Qed.


Lemma last_write_wins_witness :
  exists data' row',
    handleApplyChanges clients oneClient
      [priorityChange 0 "4"; priorityChange 0 "5"] = Some (clients, data') /\
    rowAt data' 0 = Some row' /\
    getProp row' (js "PriorityLevel") = text "5".
Proof.
  apply (last_write_wins clients oneClient [priorityChange 0 "4"]
           (priorityChange 0 "5") []).
  - eexists. reflexivity.
  - discriminate.
  - constructor.
Defined.

(** C8, as the claim has it, on the field [__proto__]: the two changes
    that [set __proto__=x] and [set __proto__=y] propose for the first row
    are both assigned, the assignments go to the setter that the row
    inherits, and the row reads under [__proto__] what it read before,
    its prototype, not the text y. *)
Lemma last_entry_decides_fails_on_proto :
  ~ last_entry_decides clients oneClient [protoChange "x"; protoChange "y"].
Proof.
  intros H.
  destruct (H [protoChange "x"] (protoChange "y") [] eq_refl
              (ex_intro _ _ eq_refl) (Forall_nil_2 _))
    as [data' [row' [Hdata [Hrow Hval]]]].
  vm_compute in Hdata. injection Hdata as <-.
  vm_compute in Hrow. injection Hrow as <-.
  vm_compute in Hval. discriminate.
Qed.

Lemma applying_the_parsed_changes_witness :
  exists fld repl,
    replacementOf (js "set PriorityLevel=5") = Some (fld, repl) /\
    handleApplyChanges clients oneClient [priorityChange 0 "5"] =
    Some (clients,
          map (fun row => if selects (js "set PriorityLevel=5") row
                          then edited fld repl row else row)
            (dataOf clients oneClient)) /\
    forall row,
      written fld (newValue (changeFor row 0 fld repl)) row
        (edited fld repl row).
Proof.
  apply (applying_the_parsed_changes clients oneClient
           (js "set PriorityLevel=5") [priorityChange 0 "5"]).
  vm_compute. reflexivity.
Defined.

Lemma plain_instruction_changes_every_row_witness :
  parseEditInstruction (js "set " ++ js "PriorityLevel" ++ js "=" ++ js "5")
    (clientRows oneClient) =
  imap (fun i row => changeFor row i (js "PriorityLevel") (js "5"))
    (clientRows oneClient).
Proof.
  apply plain_instruction_changes_every_row; reflexivity.
Defined.

Lemma conditional_instruction_changes_the_rows_it_names_witness :
  parseEditInstruction
    (js "set " ++ js "PriorityLevel" ++ js "=" ++ js "5" ++ js " where "
     ++ js "ClientID" ++ js "=" ++ js "c1") (clientRows oneClient) =
  mapFilter
    (fun row i => if holds (js "ClientID") (js "c1") row
                  then Some (changeFor row i (js "PriorityLevel") (js "5"))
                  else None)
    (clientRows oneClient) 0.
Proof.
  apply conditional_instruction_changes_the_rows_it_names; reflexivity.
Defined.

Lemma nothing_to_edit_reads_as_a_parse_error_witness :
  handleEdit workers oneClient (js "set MaxLoadPerPhase=3") =
  inl unparsed.
Proof.
  apply nothing_to_edit_reads_as_a_parse_error. reflexivity.
Defined.

End EditorProofs.

(** ** The auto-fix panel, and batches with indices out of range *)

Module AutoFixProofs.
Import JS Dataset.
Import Statements Statements.OfEditor Statements.OfAutoFix.
Import RuntimeFacts DatasetProofs.

Lemma forEachSelected_chosen suggestedFixes : forall selectedFixes data,
  Forall (fun index => (index < length suggestedFixes)%nat) selectedFixes ->
  AutoFixPanel.forEachSelected suggestedFixes selectedFixes data =
  Return (AutoFixPanel.handleApplyAllFixes data
            (chosen suggestedFixes selectedFixes)).
Proof.
  induction selectedFixes as [| index rest IH]; intros data Hvalid; [done |].
  inversion_clear Hvalid as [| ? ? Hindex Hrest].
  destruct (lookup_lt_is_Some_2 suggestedFixes index Hindex) as [fix_ Hfix].
  simpl. unfold AutoFixPanel.applySelected, chosen. simpl. rewrite Hfix.
  cbn [bind]. by rewrite IH.
Qed.



End AutoFixProofs.

(** ** The selection of the auto-fix panel *)

Module PanelProofs.
Import JS Dataset AutoFixPanel.
Import Statements Statements.OfEditor Statements.OfAutoFix.
Import RuntimeFacts DatasetProofs AutoFixProofs.

Lemma chosen_all (fixes : list ValidationFix) :
  chosen fixes (seq 0 (length fixes)) = fixes.
Proof.
  unfold chosen.
  assert (H : forall pre rest : list ValidationFix,
    omap (fun index => (pre ++ rest) !! index) (seq (length pre) (length rest))
    = rest).
  { intros pre rest. revert pre.
    induction rest as [| f rest IH]; intros pre; [done |].
    simpl. rewrite list_lookup_middle by reflexivity. f_equal.
    specialize (IH (pre ++ [f])). rewrite length_app in IH. simpl in IH.
    rewrite Nat.add_1_r, <- app_assoc in IH. exact IH. }
  apply (H [] fixes).
Qed.

(** With suggestions of which not all are selected, Select All followed
    by Apply Selected gives what Apply All gives. *)
Theorem select_all_then_apply_is_apply_all data fixes selected :
  fixes ≠ [] ->
  length selected ≠ length fixes ->
  handleApplySelectedFixes data fixes (handleSelectAll fixes selected) =
  Return (Some (handleApplyAllFixes data fixes)).
Proof.
  intros Hne Hlen. unfold handleSelectAll.
  apply Nat.eqb_neq in Hlen. rewrite Hlen.
  unfold handleApplySelectedFixes.
  destruct fixes as [| f fixes]; [done |].
  change (seq 0 (length (f :: fixes))) with (0%nat :: seq 1 (length fixes)).
  cbv iota beta.
  change (0%nat :: seq 1 (length fixes)) with (seq 0 (length (f :: fixes))).
  rewrite forEachSelected_chosen.
  - cbn [bind]. by rewrite chosen_all.
  - apply Forall_forall. intros i Hi. apply elem_of_seq in Hi. lia.
Qed.

(** *** The selection *)

Lemma has_delete s i j :
  IndexSet.has (IndexSet.delete s i) j = IndexSet.has s j && negb (Nat.eqb j i).
Proof.
  unfold IndexSet.has, IndexSet.delete.
  induction s as [| x s IH]; [done |]. simpl.
  destruct (Nat.eqb_spec x i) as [-> | Hx]; simpl.
  - rewrite IH. destruct (Nat.eqb_spec j i); simpl; [by rewrite andb_false_r |].
    done.
  - rewrite IH. destruct (Nat.eqb_spec j x) as [-> | Hj]; simpl; [| done].
    destruct (Nat.eqb_spec x i); [done | done].
Qed.

Lemma has_add s i j :
  IndexSet.has (IndexSet.add s i) j = IndexSet.has s j || Nat.eqb j i.
Proof.
  unfold IndexSet.add. destruct (IndexSet.has s i) eqn:Hi.
  - destruct (Nat.eqb_spec j i) as [-> | Hj]; [| by rewrite orb_false_r].
    by rewrite Hi.
  - unfold IndexSet.has. rewrite existsb_app. simpl. by rewrite orb_false_r.
Qed.

(** Ticking a box twice leaves the same fixes selected. *)
Theorem toggling_twice_restores_the_selection selected index j :
  IndexSet.has
    (handleFixSelection (handleFixSelection selected index) index) j =
  IndexSet.has selected j.
Proof.
  unfold handleFixSelection.
  destruct (IndexSet.has selected index) eqn:Hi.
  - rewrite has_delete, Nat.eqb_refl, andb_false_r. cbn [negb].
    rewrite has_add, has_delete.
    destruct (Nat.eqb_spec j index) as [-> | Hj]; simpl.
    + by rewrite Hi.
    + by rewrite andb_true_r, orb_false_r.
  - rewrite has_add, Hi, Nat.eqb_refl. cbn [orb].
    rewrite has_delete, has_add.
    destruct (Nat.eqb_spec j index) as [-> | Hj]; simpl.
    + by rewrite Hi.
    + by rewrite andb_true_r, orb_false_r.
Qed.

Lemma handle_in_range st ev :
  offered st ev = true ->
  Forall (fun index => (index < length (suggested st))%nat) (selected st) ->
  Forall (fun index => (index < length (suggested (handle st ev)))%nat)
    (selected (handle st ev)).
Proof.
  intros Hev Hst. destruct ev as [result | index | | |]; simpl in *;
    try constructor.
  - apply Nat.ltb_lt in Hev.
    unfold handleFixSelection, IndexSet.add, IndexSet.delete.
    destruct (IndexSet.has _ _).
    + apply Forall_forall. intros j Hj. rewrite Forall_forall in Hst.
      apply list_elem_of_In, filter_In in Hj as [Hj _].
      apply Hst. by apply list_elem_of_In.
    + apply Forall_app. split; [done |]. by constructor.
  - unfold handleSelectAll.
    destruct (Nat.eqb (length (selected st)) _); [constructor |].
    apply Forall_forall. intros i Hi. apply elem_of_seq in Hi. lia.
Qed.

Lemma session_in_range events : forall st st',
  Forall (fun index => (index < length (suggested st))%nat) (selected st) ->
  session st events = Some st' ->
  Forall (fun index => (index < length (suggested st'))%nat) (selected st').
Proof.
  induction events as [| ev rest IH]; intros st st' Hst; simpl.
  - by intros [= <-].
  - destruct (offered st ev) eqn:Hev; [| done].
    apply IH. by apply handle_in_range.
Qed.

(** Whatever happened to the panel since it opened, Apply Selected does
    not throw: every selected index names a suggestion, and the fixes
    applied are the ones selected, in the order they were selected in. *)
Theorem apply_selected_never_throws events st data :
  session opened events = Some st ->
  handleApplySelectedFixes data (suggested st) (selected st) =
  Return (match selected st with
          | [] => None
          | _ => Some (handleApplyAllFixes data
                         (chosen (suggested st) (selected st)))
          end).
Proof.
  intros Hs. apply (session_in_range _ opened) in Hs; [| constructor].
  unfold handleApplySelectedFixes.
  destruct (selected st) as [| i s] eqn:Hsel; [done |].
  by rewrite forEachSelected_chosen.
Qed.

(** An applied batch keeps the number of rows, and a cell that no entry
    of the batch names is as it was, there with what it held or not there;
    for the pending changes of the editor and for the fixes of the
    panel. *)
Theorem a_batch_touches_only_its_cells i f :
  (forall e p changes data' row,
     NaturalLanguageEditor.handleApplyChanges e p changes = Some (e, data') ->
     rowAt (NaturalLanguageEditor.dataOf e p) i = Some row ->
     Forall (fun c => ~ (NaturalLanguageEditor.rowIndex c = i /\
                         NaturalLanguageEditor.field c = f)) changes ->
     length data' = length (NaturalLanguageEditor.dataOf e p) /\
     exists row', rowAt data' i = Some row' /\ row' !! f = row !! f) /\
  (forall data fixes row,
     rowAt data i = Some row ->
     Forall (fun x => ~ (rowIndex x = i /\ field x = f)) fixes ->
     length (handleApplyAllFixes data fixes) = length data /\
     exists row', rowAt (handleApplyAllFixes data fixes) i = Some row' /\
                  row' !! f = row !! f).
Proof.
  assert (Hlen : forall A (idx : A -> Z) fld val batch data,
            length (fold_left (writeEntry idx fld val) batch data)
            = length data).
  { intros A idx fld val batch.
    induction batch as [| a batch IH]; intros data; [done |]. simpl.
    rewrite IH. apply length_writeCell. }
  split.
  - intros e p changes data' row.
    unfold NaturalLanguageEditor.handleApplyChanges.
    destruct changes as [| c cs] eqn:Hc; [done |]. rewrite <- Hc.
    intros [= <-] Hrow Hall. split.
    + apply (Hlen _ NaturalLanguageEditor.rowIndex NaturalLanguageEditor.field
               NaturalLanguageEditor.newValue).
    + by apply (batch_other NaturalLanguageEditor.rowIndex
                  NaturalLanguageEditor.field NaturalLanguageEditor.newValue).
  - intros data fixes row Hrow Hall. split.
    + apply (Hlen _ rowIndex field newValue).
    + by apply (batch_other rowIndex field newValue).
Qed.

Lemma a_batch_touches_only_its_cells_witness :
  length (handleApplyAllFixes (NaturalLanguageEditor.clientRows oneClient)
            [priorityFix 0 "5"]) = 1%nat /\
  exists row',
    rowAt (handleApplyAllFixes (NaturalLanguageEditor.clientRows oneClient)
             [priorityFix 0 "5"]) 0 = Some row' /\
    row' !! js "ClientID" =
    rowOf [(js "ClientID", text "C1"); (js "PriorityLevel", text "3")]
      !! js "ClientID".
Proof.
  apply (proj2 (a_batch_touches_only_its_cells 0 (js "ClientID"))
           (NaturalLanguageEditor.clientRows oneClient) [priorityFix 0 "5"]
           (rowOf [(js "ClientID", text "C1");
                   (js "PriorityLevel", text "3")])).
  - reflexivity.
  - constructor; [| constructor]. intros [_ H]. vm_compute in H. discriminate.
Defined.

Lemma select_all_then_apply_is_apply_all_witness :
  handleApplySelectedFixes (NaturalLanguageEditor.clientRows oneClient)
    [priorityFix 0 "4"; priorityFix 0 "5"]
    (handleSelectAll [priorityFix 0 "4"; priorityFix 0 "5"] [1%nat]) =
  Return (Some (handleApplyAllFixes (NaturalLanguageEditor.clientRows oneClient)
                  [priorityFix 0 "4"; priorityFix 0 "5"])).
Proof.
  apply select_all_then_apply_is_apply_all; [discriminate | simpl; lia].
Defined.

Lemma apply_selected_never_throws_witness :
  handleApplySelectedFixes (NaturalLanguageEditor.clientRows oneClient)
    [priorityFix 0 "4"; priorityFix 0 "5"] [1%nat; 0%nat] =
  Return (Some (handleApplyAllFixes (NaturalLanguageEditor.clientRows oneClient)
                  [priorityFix 0 "5"; priorityFix 0 "4"])).
Proof.
  apply (apply_selected_never_throws
           [FixesArrived [priorityFix 0 "4"; priorityFix 0 "5"];
            BoxToggled 0; BoxToggled 1; BoxToggled 0;
            BoxToggled 0]
           {| suggested := [priorityFix 0 "4"; priorityFix 0 "5"];
              selected := [1%nat; 0%nat] |}
           (NaturalLanguageEditor.clientRows oneClient)).
  reflexivity.
Defined.

(** *** Fixes that write one cell *)

Lemma chosen_app fixes a b :
  chosen fixes (a ++ b) = chosen fixes a ++ chosen fixes b.
Proof. unfold chosen. apply omap_app. Qed.

Lemma chosen_cons fixes i f rest :
  fixes !! i = Some f -> chosen fixes (i :: rest) = f :: chosen fixes rest.
Proof. intros H. unfold chosen. simpl. by rewrite H. Qed.

(** When several fixes write one cell, of a field other than [__proto__],
    the one applied last decides what the cell holds: with Apply All the
    last in the order of the suggestions, with Apply Selected the last in
    the order in which the boxes were ticked. *)
Theorem the_fix_applied_last_decides data f :
  is_Some (rowAt data (rowIndex f)) ->
  field f ≠ js "__proto__" ->
  (forall fixes1 fixes2,
     Forall (fun f' => ~ sameTarget f f') fixes2 ->
     exists row',
       rowAt (handleApplyAllFixes data (fixes1 ++ f :: fixes2)) (rowIndex f)
       = Some row' /\
       getProp row' (field f) = newValue f) /\
  (forall events st ticked1 index ticked2,
     session opened events = Some st ->
     selected st = ticked1 ++ index :: ticked2 ->
     suggested st !! index = Some f ->
     Forall (fun f' => ~ sameTarget f f') (chosen (suggested st) ticked2) ->
     exists data' row',
       handleApplySelectedFixes data (suggested st) (selected st)
       = Return (Some data') /\
       rowAt data' (rowIndex f) = Some row' /\
       getProp row' (field f) = newValue f).
Proof.
  intros Hin Hfield. split.
  - intros fixes1 fixes2 Hlast.
    apply (batch_last_write rowIndex field newValue fixes1 f fixes2 data Hin
             Hfield Hlast).
  - intros events st ticked1 index ticked2 Hs Hsel Hf Hlast.
    apply (session_in_range _ opened) in Hs; [| constructor].
    unfold handleApplySelectedFixes.
    rewrite forEachSelected_chosen by done. rewrite Hsel.
    destruct (ticked1 ++ index :: ticked2) as [| i s] eqn:E;
      [by destruct ticked1 |].
    cbn [bind]. rewrite <- E, chosen_app, (chosen_cons _ _ f) by done.
    destruct (batch_last_write rowIndex field newValue
                (chosen (suggested st) ticked1) f
                (chosen (suggested st) ticked2) data Hin Hfield Hlast)
      as [row' [Hrow' Hval]].
    eexists _, row'. split; [reflexivity |]. split; done.
Qed.

Lemma the_fix_applied_last_decides_witness :
  exists data' row',
    handleApplySelectedFixes (NaturalLanguageEditor.clientRows oneClient)
      [priorityFix 0 "4"; priorityFix 0 "5"] [1%nat; 0%nat]
    = Return (Some data') /\
    rowAt data' 0 = Some row' /\
    getProp row' (js "PriorityLevel") = text "4".
Proof.
  assert (Hfield : field (priorityFix 0 "4") ≠ js "__proto__")
    by discriminate.
  apply (proj2 (the_fix_applied_last_decides
                  (NaturalLanguageEditor.clientRows oneClient)
                  (priorityFix 0 "4") (ex_intro _ _ eq_refl) Hfield)
           [FixesArrived [priorityFix 0 "4"; priorityFix 0 "5"];
            BoxToggled 1; BoxToggled 0]
           {| suggested := [priorityFix 0 "4"; priorityFix 0 "5"];
              selected := [1%nat; 0%nat] |}
           [1%nat] 0%nat []); try reflexivity.
  constructor.
Defined.

End PanelProofs.

(** ** Validation after edits *)

Module RevalidationProofs.
Import JS Dataset Validators.
Import Statements Statements.OfValidators Statements.OfEditor
  Statements.OfAutoFix.
Import RuntimeFacts ValidatorsProofs DatasetProofs.

Section Unread.
Context {A : Type} (idx : A -> Z) (fld : A -> jsstring) (val : A -> value).

Lemma batch_unread et : forall batch data,
  Forall (fun a => fld a ∉ checkedFields et) batch ->
  validateData et (Some (fold_left (writeEntry idx fld val) batch data)) =
  validateData et (Some data).
Proof.
  induction batch as [| a batch IH]; intros data H; [done |].
  cbn [fold_left]. inversion_clear H as [| ? ? Ha Hrest].
  rewrite (IH (writeEntry idx fld val data a) Hrest).
  unfold writeEntry. by apply writeCell_unread.
Qed.

End Unread.

(** Writing cells of fields that the validator of the entity type does
    not read leaves the result of validation as it was: for one write, for
    the pending changes of the editor and for the fixes of the panel. *)
Theorem unread_fields_do_not_matter et :
  (forall rows i f v,
     f ∉ checkedFields et ->
     validateData et (Some (writeCell rows i f v)) =
     validateData et (Some rows)) /\
  (forall e p changes data',
     Forall (fun c => NaturalLanguageEditor.field c ∉ checkedFields et)
       changes ->
     NaturalLanguageEditor.handleApplyChanges e p changes = Some (e, data') ->
     validateData et (Some data') =
     validateData et (Some (NaturalLanguageEditor.dataOf e p))) /\
  (forall data fixes,
     Forall (fun f => AutoFixPanel.field f ∉ checkedFields et) fixes ->
     validateData et (Some (AutoFixPanel.handleApplyAllFixes data fixes)) =
     validateData et (Some data)).
Proof.
  split; [| split].
  - intros rows i f v Hf. by apply writeCell_unread.
  - intros e p changes data' Hall.
    unfold NaturalLanguageEditor.handleApplyChanges.
    destruct changes as [| c cs] eqn:Hc; [done |]. rewrite <- Hc in *.
    intros [= <-].
    by apply (batch_unread NaturalLanguageEditor.rowIndex
                NaturalLanguageEditor.field NaturalLanguageEditor.newValue).
  - intros data fixes Hall.
    by apply (batch_unread AutoFixPanel.rowIndex AutoFixPanel.field
                AutoFixPanel.newValue).
Qed.

Lemma unread_fields_do_not_matter_witness :
  validateData (js "workers")
    (Some (writeCell identifiedRows 1 (js "WorkerGroup") (text "B"))) =
  validateData (js "workers") (Some identifiedRows).
Proof.
  apply (proj1 (unread_fields_do_not_matter (js "workers"))). vm_compute.
  intros H. repeat (apply elem_of_cons in H as [H | H]; [discriminate |]).
  by apply elem_of_nil in H.
Defined.

End RevalidationProofs.

(** ** The gateway *)

Module GatewayProofs.
Import JS Gemini AI.
Import Statements Statements.OfGateway RuntimeFacts.

(** *** The rewrite of column names *)

Lemma step_suffix st c st' :
  step true st = Some (c, st') -> after st' `suffix_of` after st.
Proof.
  unfold step. destruct (after st) as [| d r] eqn:E; [done |].
  intros [= <- <-]. simpl. by exists [d].
Qed.

Lemma run_lit_dead s : forall st caps k,
  dead k st -> run (lit s) true st caps k = None.
Proof.
  unfold lit.
  induction s as [| c s IH]; intros st caps k Hk.
  - simpl. by apply Hk.
  - destruct s as [| d s].
    + cbn [map seqs run].
      destruct (step true st) as [[e st'] |] eqn:Hstep; [| done].
      destruct (c =? e)%N; [| done]. apply Hk. by eapply step_suffix.
    + change (seqs (map (fun c => Chr (N.eqb c)) (c :: d :: s)))
        with (Seq (Chr (N.eqb c)) (seqs (map (fun c => Chr (N.eqb c)) (d :: s)))).
      cbn [run]. destruct (step true st) as [[e st'] |] eqn:Hstep; [| done].
      destruct (c =? e)%N; [| done]. apply IH.
      intros st'' caps' Hsuf. apply Hk.
      etrans; [exact Hsuf | by eapply step_suffix].
Qed.

(** Without a U+0008 ahead, the pattern of a column matches nowhere. *)
Lemma columnPattern_no_match {table : CaseMapping} col st caps k :
  noBackspace (after st) -> run (columnPattern col) true st caps k = None.
Proof.
  intros Hclean. unfold columnPattern.
  change (seqs [Behind (Seq (lit (js "row")) dot); lit (toLowerCase col);
                Ahead (Chr (N.eqb 8))])
    with (Seq (Behind (Seq (lit (js "row")) dot))
              (Seq (lit (toLowerCase col)) (Ahead (Chr (N.eqb 8))))).
  cbn [run].
  assert (Hbody : forall caps',
            run (lit (toLowerCase col)) true st caps'
              (fun st' caps'' => run (Ahead (Chr (N.eqb 8))) true st' caps'' k)
            = None).
  { intros caps'. apply run_lit_dead. intros st' caps'' [pre Hsuf].
    cbn [run]. unfold step.
    destruct (after st') as [| c r] eqn:E; [done |].
    assert (Hc : c ≠ 8%N).
    { unfold noBackspace in Hclean. rewrite Hsuf in Hclean.
      apply Forall_app in Hclean as [_ Hclean]. by inversion Hclean. }
    by destruct (N.eqb_spec 8 c). }
  destruct (run _ false st caps _) as [[st0 caps0] |]; [apply Hbody | done].
Qed.

Lemma search_no_match {table : CaseMapping} col : forall aft bef,
  noBackspace aft -> search (columnPattern col) bef aft = None.
Proof.
  induction aft as [| c aft IH]; intros bef Hclean; cbn [search]; cbv zeta.
  - by rewrite columnPattern_no_match.
  - rewrite columnPattern_no_match by done. apply IH.
    by inversion Hclean.
Qed.

(** A predicate text without the code unit U+0008 comes back from the
    rewrite as it went in, whatever the columns are of those that the
    rewrite is modelled for. *)
Lemma rewrite_needs_backspace {table : CaseMapping} filterFunction columns :
  noBackspace filterFunction ->
  mapFilterFunctionToOriginalColumns filterFunction columns = filterFunction.
Proof.
  intros Hclean. unfold mapFilterFunctionToOriginalColumns.
  induction columns as [| col rest IH]; [done |]. simpl.
  replace (replaceAll (columnPattern col) col filterFunction)
    with filterFunction; [exact IH |].
  unfold replaceAll. cbn [replaceFrom before after].
  by rewrite search_no_match.
Qed.

(** C1, at the failing input.  With the column Duration, the predicate
    text that reads [row.duration] comes back unchanged: the lower-cased
    name is not rewritten to the column's own spelling. *)
Theorem lowercase_column_is_not_rewritten {table : CaseMapping} :
  mapFilterFunctionToOriginalColumns (js "row => row.duration > 1")
    [js "Duration"]
  = js "row => row.duration > 1".
Proof. vm_compute. reflexivity. Qed.

(** *** The provider's answer *)

Lemma optional_member v k :
  optional v k = match v with Some x => member x k | None => None end.
Proof. destruct v as [[] |]; done. Qed.

(** Optional chaining reads the path. *)
Lemma readText_follow data :
  data ≠ JNull ->
  readText data =
    Return (if truthy (follow textPath data)
            then default (JString []) (follow textPath data)
            else JString []).
Proof.
  intros Hdata. unfold readText, follow, textPath. cbn [fold_left].
  rewrite !optional_member.
  destruct data; try done; cbv zeta;
    match goal with |- context [truthy ?t] => generalize t end;
    (intros [t |]; [by destruct (truthy (Some t)) | done]).
Qed.

Lemma cleanedResponse_empty reply :
  geminiChatCompletion reply = Return (JString []) ->
  cleanedResponse reply = Throw (js "No response from Gemini").
Proof. intros H. unfold cleanedResponse. by rewrite H. Qed.

(** Every operation fails on the empty text. *)
Lemma operations_fail_on_empty {table : CaseMapping} reply :
  geminiChatCompletion reply = Return (JString []) ->
  (forall userQuery data entityType,
     exists error,
       generateFilter userQuery data entityType reply = Throw error) /\
  (forall userQuery data entityType,
     generateEdit userQuery data entityType reply
     = Throw (js "Failed to generate edit")) /\
  (forall clients workers tasks,
     generateRuleSuggestions clients workers tasks reply
     = Throw (js "Failed to generate rule suggestions")) /\
  (forall errors data,
     generateValidationFixes errors data reply
     = Throw (js "Failed to generate validation fixes")) /\
  (forall data entityType,
     generateAIValidationWarnings data entityType reply
     = Throw (js "Failed to generate AI validation warnings")).
Proof.
  intros H. apply cleanedResponse_empty in H.
  repeat split; intros.
  - unfold generateFilter. rewrite H.
    destruct (columnsOf data); cbn [bind try_catch]; eauto.
  - unfold generateEdit. rewrite H. by destruct (columnsOf data).
  - unfold generateRuleSuggestions. by rewrite H.
  - unfold generateValidationFixes. by rewrite H.
  - unfold generateAIValidationWarnings. by rewrite H.
Qed.

(** C7.  For a response with an OK status whose body is JSON
    other than [null] and lacks the path
    [candidates[0].content.parts[0].text], the provider call yields the
    empty text, and each of the five operations of the gateway fails with
    an error. *)
Theorem absent_text_fails_operation {table : CaseMapping} status body data :
  JSON_parse body = Some data ->
  data ≠ JNull ->
  follow textPath data = None ->
  geminiChatCompletion (Response true status body) = Return (JString []) /\
  (forall userQuery rows entityType,
     exists error,
       generateFilter userQuery rows entityType (Response true status body)
       = Throw error) /\
  (forall userQuery rows entityType,
     generateEdit userQuery rows entityType (Response true status body)
     = Throw (js "Failed to generate edit")) /\
  (forall clients workers tasks,
     generateRuleSuggestions clients workers tasks (Response true status body)
     = Throw (js "Failed to generate rule suggestions")) /\
  (forall errors rows,
     generateValidationFixes errors rows (Response true status body)
     = Throw (js "Failed to generate validation fixes")) /\
  (forall rows entityType,
     generateAIValidationWarnings rows entityType (Response true status body)
     = Throw (js "Failed to generate AI validation warnings")).
Proof.
  intros Hbody Hdata Habsent.
  assert (H : geminiChatCompletion (Response true status body)
              = Return (JString [])).
  { unfold geminiChatCompletion. cbn [negb]. rewrite Hbody.
    rewrite readText_follow by done. by rewrite Habsent. }
  split; [exact H |]. by apply operations_fail_on_empty.
Qed.

(** The body [null] is JSON in which the path is absent, and the provider
    call throws on it instead of yielding the empty text. *)
Lemma absent_text_is_empty_fails_on_null :
  ~ absent_text_is_empty (js "null").
Proof.
  intros H. specialize (H 200%N JNull).
  vm_compute in H. specialize (H eq_refl eq_refl). discriminate.
Qed.

Import PatternFacts.

(** *** What the operations return *)

Lemma cleanedResponse_returns reply cleaned :
  cleanedResponse reply = Return cleaned ->
  exists text,
    geminiChatCompletion reply = Return (JString text) /\
    text ≠ [] /\ cleaned = extractJsonBlock text.
Proof.
  unfold cleanedResponse.
  destruct (geminiChatCompletion reply) as [response |]; [| done].
  cbn [bind]. destruct (negb (truthy (Some response))) eqn:Ht; [done |].
  destruct response as [| | | text | |]; try done.
  intros [= <-]. exists text. split; [done |]. split; [| done].
  intros ->. done.
Qed.

Lemma parsed_answer reply error v :
  bind (cleanedResponse reply) (parseOr error) = Return v -> answered reply v.
Proof.
  destruct (cleanedResponse reply) as [cleaned |] eqn:Hc; [| done].
  cbn [bind]. unfold parseOr.
  destruct (JSON_parse cleaned) as [parsed |] eqn:Hp; [| done].
  intros [= <-].
  apply cleanedResponse_returns in Hc as [text [Hr [Hne ->]]].
  by exists text.
Qed.

Lemma answer_parsed reply error v :
  answered reply v -> bind (cleanedResponse reply) (parseOr error) = Return v.
Proof.
  intros [text [Hr [Hne Hp]]]. unfold cleanedResponse. rewrite Hr.
  cbn [bind]. destruct text as [| c text]; [done |].
  cbn [truthy ToBoolean negb]. cbn [bind]. unfold parseOr. by rewrite Hp.
Qed.

(** An operation that parses the answer inside its [try] and rethrows one
    message. *)
Lemma unchecked_answer reply error failure :
  match try_catch (bind (cleanedResponse reply) (parseOr error))
          (fun _ => Throw failure) with
  | Return v => answered reply v
  | Throw e => e = failure /\ forall v, ~ answered reply v
  end.
Proof.
  destruct (bind (cleanedResponse reply) (parseOr error)) as [v |] eqn:Hb;
    cbn [try_catch].
  - by eapply parsed_answer.
  - split; [done |]. intros v Hv.
    apply (answer_parsed _ error) in Hv. congruence.
Qed.

(** [generateEdit] reads the columns first, inside its [try]. *)
Lemma checked_columns reply userQuery data entityType :
  match generateEdit userQuery data entityType reply with
  | Return v => answered reply v
  | Throw e => e = js "Failed to generate edit" /\
               forall v, ~ (answered reply v /\
                            exists columns, columnsOf data = Return columns)
  end.
Proof.
  unfold generateEdit.
  destruct (columnsOf data) as [columns |] eqn:Hcols; cbn [bind].
  - pose proof (unchecked_answer reply (js "Unable to parse query.")
                  (js "Failed to generate edit")) as H'.
    destruct (try_catch _ _); [done |].
    destruct H' as [-> H']. split; [done |]. intros v [Hv _]. by eapply H'.
  - cbn [try_catch]. split; [done |]. by intros v [_ [columns ?]].
Qed.

(** The four operations that return the provider's answer unchecked: an
    operation returns exactly when the provider answered a text that is
    not empty and parses once its fences are out, and it returns what the
    text parses to; every failure, of the call, of the text or of the
    parse, is thrown as the one message of the operation. *)
Theorem operations_hand_on_the_parsed_answer reply :
  (forall errors data,
     match generateValidationFixes errors data reply with
     | Return v => answered reply v
     | Throw e => e = js "Failed to generate validation fixes" /\
                  forall v, ~ answered reply v
     end) /\
  (forall clients workers tasks,
     match generateRuleSuggestions clients workers tasks reply with
     | Return v => answered reply v
     | Throw e => e = js "Failed to generate rule suggestions" /\
                  forall v, ~ answered reply v
     end) /\
  (forall data entityType,
     match generateAIValidationWarnings data entityType reply with
     | Return v => answered reply v
     | Throw e => e = js "Failed to generate AI validation warnings" /\
                  forall v, ~ answered reply v
     end) /\
  (forall userQuery data entityType,
     match generateEdit userQuery data entityType reply with
     | Return v => answered reply v
     | Throw e => e = js "Failed to generate edit" /\
                  forall v, ~ (answered reply v /\
                               exists columns, columnsOf data = Return columns)
     end).
Proof.
  repeat split; intros; first [apply unchecked_answer | apply checked_columns].
Qed.

(** *** The filter *)

Lemma lookupProp_hasKey k props v :
  lookupProp k props = Some v -> hasKey k props = true.
Proof.
  induction props as [| [k' v'] rest IH]; [done |]. simpl.
  destruct (str_eqb k k'); [done |]. exact IH.
Qed.

Lemma replaceProp_same k props v :
  lookupProp k props = Some v -> replaceProp k v props = props.
Proof.
  induction props as [| [k' v'] rest IH]; [done |]. simpl.
  destruct (str_eqb k k').
  - by intros [= ->].
  - intros H. by rewrite IH.
Qed.

Lemma lookupProp_replaceProp k props v w :
  lookupProp k props = Some w -> lookupProp k (replaceProp k v props) = Some v.
Proof.
  induction props as [| [k' v'] rest IH]; [done |]. simpl.
  destruct (str_eqb k k') eqn:E; simpl; rewrite E; [done |]. exact IH.
Qed.

(** The rewrite leaves the predicate text of an answer without U+0008 as
    it is, and the object with it. *)
Lemma filter_unchanged {table : CaseMapping} props f columns :
  lookupProp (js "filterFunction") props = Some (JString f) ->
  noBackspace f ->
  JObject (replaceProp (js "filterFunction")
             (JString (mapFilterFunctionToOriginalColumns f columns)) props)
  = JObject props.
Proof.
  intros Hf Hclean. rewrite rewrite_needs_backspace by done.
  by rewrite replaceProp_same.
Qed.

(** What [generateFilter] returns is the object of the answer, as it is
    when the predicate text has no U+0008 in it. *)
Lemma generateFilter_returns {table : CaseMapping} userQuery data entityType
    reply v :
  generateFilter userQuery data entityType reply = Return v ->
  exists props f,
    answered reply (JObject props) /\
    lookupProp (js "filterFunction") props = Some (JString f) /\
    f ≠ [] /\
    (noBackspace f -> v = JObject props).
Proof.
  unfold generateFilter.
  destruct (columnsOf data) as [columns |]; cbn [bind]; [| done].
  destruct (cleanedResponse reply) as [cleaned |] eqn:Hc;
    cbn [bind try_catch]; [| done].
  unfold checkedFilter, parseOr.
  destruct (JSON_parse cleaned) as [parsed |] eqn:Hp;
    cbn [bind try_catch]; [| done].
  destruct parsed as [| | | | | props]; cbn [try_catch]; try done.
  destruct (lookupProp (js "filterFunction") props) as [ff |] eqn:Hff;
    cbn [try_catch]; [| done].
  destruct ff as [| | | [| c f] | |]; cbn [try_catch]; try done.
  intros [= <-].
  apply cleanedResponse_returns in Hc as [text [Hr [Hne ->]]].
  exists props, (c :: f).
  unfold defineProp. rewrite (lookupProp_hasKey _ _ _ Hff).
  repeat split; try done.
  - by exists text.
  - intros Hclean. by apply filter_unchanged.
Qed.

(** [generateFilter], for a dataset whose columns are free of pattern
    syntax.  It returns exactly when the provider's answer parses to an
    object with a [filterFunction] that is a string and not empty, and it
    returns that object, the text of its [filterFunction] rewritten by the
    column mapping, which leaves a text without U+0008 as it is.  In every
    other case it throws 'Unable to parse query.'.  When reading the
    columns of the first row throws, that is what it throws, whatever the
    columns. *)
Theorem generateFilter_outcome {table : CaseMapping} userQuery data entityType
    reply :
  (forall e,
     columnsOf data = Throw e ->
     generateFilter userQuery data entityType reply = Throw e) /\
  (forall columns,
     columnsOf data = Return columns ->
     forallb plainName columns = true ->
     match generateFilter userQuery data entityType reply with
     | Return v =>
         exists props f,
           answered reply (JObject props) /\
           lookupProp (js "filterFunction") props = Some (JString f) /\
           f ≠ [] /\
           v = JObject (replaceProp (js "filterFunction")
                          (JString
                             (mapFilterFunctionToOriginalColumns f columns))
                          props) /\
           (noBackspace f -> v = JObject props)
     | Throw e =>
         e = js "Unable to parse query." /\
         forall props f,
           answered reply (JObject props) ->
           lookupProp (js "filterFunction") props = Some (JString f) ->
           f = []
     end).
Proof.
  unfold generateFilter. split.
  - intros e He. by rewrite He.
  - intros columns Hcols _. rewrite Hcols. cbn [bind].
    assert (Hno : forall (P : jsstring -> Prop),
              (forall v, ~ answered reply v) ->
              forall props f,
                answered reply (JObject props) ->
                lookupProp (js "filterFunction") props = Some (JString f) ->
                P f).
    { intros P Hnone props f Hans. by destruct (Hnone _ Hans). }
    destruct (cleanedResponse reply) as [cleaned |] eqn:Hc;
      cbn [bind try_catch].
    + unfold checkedFilter, parseOr.
      destruct (JSON_parse cleaned) as [parsed |] eqn:Hp;
        cbn [bind try_catch].
      * assert (Hans : answered reply parsed).
        { apply (parsed_answer reply (js "SyntaxError")).
          rewrite Hc. cbn [bind]. unfold parseOr. by rewrite Hp. }
        assert (Hother : forall props,
                  answered reply (JObject props) -> parsed = JObject props).
        { intros props Hprops. symmetry.
          destruct Hans as [t [Ht [_ Hv]]], Hprops as [t' [Ht' [_ Hw]]].
          congruence. }
        destruct parsed as [| | | | | props]; cbn [try_catch];
          try (split; [done |]; intros props' f Hp';
               by specialize (Hother _ Hp')).
        destruct (lookupProp (js "filterFunction") props) as [ff |] eqn:Hff;
          cbn [try_catch].
        -- destruct ff as [| | | [| c f] | |]; cbn [try_catch];
             try (split; [done |]; intros props' f' Hp' Hf';
                  specialize (Hother _ Hp'); simplify_eq; congruence).
           exists props, (c :: f).
           unfold defineProp. rewrite (lookupProp_hasKey _ _ _ Hff).
           repeat split; try done.
           intros Hclean. by apply filter_unchanged.
        -- split; [done |]. intros props' f' Hp' Hf'.
           specialize (Hother _ Hp'). by simplify_eq.
      * split; [done |]. apply Hno. intros v Hv.
        apply (answer_parsed _ (js "SyntaxError")) in Hv.
        rewrite Hc in Hv. cbn [bind] in Hv. unfold parseOr in Hv.
        by rewrite Hp in Hv.
    + split; [done |]. apply Hno. intros v Hv.
      apply (answer_parsed _ (js "SyntaxError")) in Hv.
      by rewrite Hc in Hv.
Qed.

(** *** Fences *)

Lemma run_fence b a caps :
  run fencePattern true (MState b a) caps (fun st' caps' => Some (st', caps')) =
  if startsWith a (js "```json")
  then Some (MState (rev (js "```json") ++ b) (drop 7 a), caps)
  else if startsWith a fence
       then Some (MState (rev fence ++ b) (drop 3 a), caps)
       else None.
Proof.
  unfold fencePattern. cbn [run]. rewrite !run_lit.
  by destruct (startsWith a (js "```json")).
Qed.

(** Whether a text starts with a fence is decided by its first three
    code units. *)
Lemma startsWith_fence_ahead c l t u :
  startsWith (c :: l ++ 96%N :: 96%N :: t) fence =
  startsWith (c :: l ++ 96%N :: 96%N :: u) fence.
Proof. by destruct l as [| x [| y l]]. Qed.

(** A text that has no fence, even when two backticks follow it, can be
    put before any text without a fence. *)
Lemma no_fence_join b : forall l,
  includes (l ++ [96%N; 96%N]) fence = false ->
  includes b fence = false ->
  includes (l ++ b) fence = false.
Proof.
  induction l as [| c l IH]; intros Hl Hb; [done |].
  cbn [app] in *. rewrite includes_cons in *.
  apply orb_false_iff in Hl as [Hc Hl].
  apply orb_false_iff. split; [| by apply IH].
  revert Hc. clear. unfold fence.
  destruct l as [| x [| y l]]; cbn [app].
  - change (js "```") with [96%N; 96%N; 96%N]. cbn [startsWith].
    destruct (c =? 96)%N; try done; by destruct b.
  - change (js "```") with [96%N; 96%N; 96%N]. cbn [startsWith].
    destruct (c =? 96)%N, (x =? 96)%N; try done; by destruct b.
  - done.
Qed.

Lemma search_fence : forall aft bef,
  match search fencePattern bef aft with
  | None => includes aft fence = false
  | Some m =>
      exists l w rest,
        aft = l ++ w ++ rest /\ (w = js "```json" \/ w = fence) /\
        match_start m = MState (rev l ++ bef) (w ++ rest) /\
        match_end m = MState (rev w ++ rev l ++ bef) rest /\
        includes (l ++ [96%N; 96%N]) fence = false
  end.
Proof.
  induction aft as [| c aft IH]; intros bef; cbn [search]; cbv zeta;
    rewrite run_fence.
  - done.
  - destruct (startsWith (c :: aft) (js "```json")) eqn:Hjson.
    { exists [], (js "```json"), (drop 7 (c :: aft)).
      pose proof (startsWith_drop _ _ Hjson) as Ha.
      split; [exact Ha |]. split; [by left |].
      cbn [match_start match_end]. split; [by f_equal | done]. }
    destruct (startsWith (c :: aft) fence) eqn:Hfence.
    { exists [], fence, (drop 3 (c :: aft)).
      pose proof (startsWith_drop _ _ Hfence) as Ha.
      split; [exact Ha |]. split; [by right |].
      cbn [match_start match_end]. split; [by f_equal | done]. }
    specialize (IH (c :: bef)).
    destruct (search fencePattern (c :: bef) aft) as [m |].
    + destruct IH as [l [w [rest [-> [Hw [Hs [He Hl]]]]]]].
      exists (c :: l), w, rest. split; [done |]. split; [done |].
      split; [| split].
      * rewrite Hs. simpl. by rewrite <- app_assoc.
      * rewrite He. simpl. by rewrite <- !app_assoc.
      * cbn [app]. rewrite includes_cons, Hl, orb_false_r.
        rewrite <- Hfence.
        destruct Hw as [-> | ->]; apply startsWith_fence_ahead.
    + by rewrite includes_cons, Hfence, IH.
Qed.

Lemma replaceFrom_no_fence : forall fuel st,
  (length (after st) < fuel)%nat ->
  includes (replaceFrom fuel fencePattern [] st) fence = false.
Proof.
  induction fuel as [| fuel IH]; intros st Hfuel; [lia |].
  cbn [replaceFrom]. pose proof (search_fence (after st) (before st)) as Hs.
  destruct (search fencePattern (before st) (after st)) as [m |]; [| done].
  destruct Hs as [l [w [rest [Haft [Hw [Hstart [Hend Hl]]]]]]].
  cbv zeta.
  assert (Hskip : between_states st (match_start m) = l).
  { apply between_states_moved; rewrite Hstart; cbn [before after]; [| done].
    by rewrite Haft. }
  assert (Hpos : (position (match_end m) =? position (match_start m))%nat
                 = false).
  { rewrite Hstart, Hend. unfold position. cbn [before].
    rewrite !length_app. apply Nat.eqb_neq.
    destruct Hw as [-> | ->]; simpl; lia. }
  rewrite Hskip, Hpos. cbn [app]. apply no_fence_join; [done |].
  apply IH. rewrite Hend. cbn [after]. rewrite Haft, !length_app in Hfuel.
  destruct Hw as [-> | ->]; simpl in Hfuel; lia.
Qed.

Lemma extractJsonBlock_no_fence text :
  includes (extractJsonBlock text) fence = false.
Proof.
  unfold extractJsonBlock, replaceAll. apply trim_keeps_out.
  apply replaceFrom_no_fence. cbn [after]. lia.
Qed.

Lemma no_fence_no_match text :
  includes text fence = false -> search fencePattern [] text = None.
Proof.
  intros H. pose proof (search_fence text []) as Hs.
  destruct (search fencePattern [] text) as [m |]; [| done].
  destruct Hs as [l [w [rest [-> [Hw _]]]]].
  rewrite includes_app_r in H; [done |].
  apply includes_app_l. by destruct Hw as [-> | ->].
Qed.

Lemma replaceAll_no_fence text :
  includes text fence = false -> replaceAll fencePattern [] text = text.
Proof.
  intros H. unfold replaceAll.
  cbn [replaceFrom before after]. by rewrite no_fence_no_match.
Qed.

(** A text without a fence is only trimmed by [extractJsonBlock]. *)
Theorem text_without_fences_is_only_trimmed text :
  includes text fence = false -> extractJsonBlock text = trim text.
Proof.
  intros H. unfold extractJsonBlock. by rewrite replaceAll_no_fence.
Qed.

Lemma text_without_fences_is_only_trimmed_witness :
  extractJsonBlock (js " [1, ``2] ") = trim (js " [1, ``2] ").
Proof. apply text_without_fences_is_only_trimmed. reflexivity. Defined.

(** What [extractJsonBlock] returns has no fence in it, and is returned as
    it is when it is given to [extractJsonBlock] again. *)
Theorem no_fence_is_left text :
  includes (extractJsonBlock text) fence = false /\
  extractJsonBlock (extractJsonBlock text) = extractJsonBlock text.
Proof.
  pose proof (extractJsonBlock_no_fence text) as H. split; [exact H |].
  unfold extractJsonBlock at 1. rewrite (replaceAll_no_fence _ H).
  unfold extractJsonBlock. apply trim_trim.
Qed.

(** *** On a small answer *)

#[local] Existing Instance exampleMapping.

Lemma absent_text_fails_operation_witness :
  geminiChatCompletion (Response true 200 (js "{}")) = Return (JString []) /\
  generateEdit (js "set priority") [] (js "clients")
    (Response true 200 (js "{}"))
  = Throw (js "Failed to generate edit").
Proof.
  assert (Hparse : JSON_parse (js "{}") = Some (JObject []))
    by (vm_compute; reflexivity).
  assert (Hdata : JObject [] ≠ JNull) by discriminate.
  assert (Habsent : follow textPath (JObject []) = None)
    by (vm_compute; reflexivity).
  pose proof (absent_text_fails_operation 200 (js "{}") (JObject [])
                Hparse Hdata Habsent) as [Hcall [_ [Hedit _]]].
  split; [exact Hcall | apply Hedit].
Defined.

End GatewayProofs.

(** ** The search component *)

Module SearchProofs.
Import JS NaturalLanguageSearch.
Import Statements Statements.OfSearch RuntimeFacts PatternFacts.

Lemma trimmed_trimmed v : trimmed (trimmed v) = trimmed v.
Proof. destruct v; try done. simpl. by rewrite trim_trim. Qed.

Lemma normalizeRow_idempotent row :
  normalizeRow (normalizeRow row) = normalizeRow row.
Proof.
  unfold normalizeRow. rewrite <- map_fmap_compose.
  apply map_fmap_ext. intros k v _. apply trimmed_trimmed.
Qed.



Lemma filterRows_all f : forall rows,
  Forall (answers f) rows ->
  filterRows f rows = Return (List.filter (keeps f) rows).
Proof.
  induction rows as [| row rest IH]; intros Hall; [done |]. simpl.
  inversion_clear Hall as [| ? ? [keep Hrow] Hrest].
  unfold keeps at 1. rewrite Hrow, (IH Hrest). cbn [bind].
  by destruct keep.
Qed.

Lemma filterRows_first f before row after error :
  Forall (answers f) before ->
  f row = Throw error ->
  filterRows f (before ++ row :: after) = Throw error.
Proof.
  intros Hall Hrow.
  induction before as [| r before IH]; simpl; [by rewrite Hrow |].
  inversion_clear Hall as [| ? ? [keep Hr] Hrest].
  rewrite Hr, (IH Hrest). done.
Qed.

Lemma filterRows_returns f : forall rows kept,
  filterRows f rows = Return kept ->
  kept = List.filter (keeps f) rows /\ Forall (answers f) rows.
Proof.
  induction rows as [| row rest IH]; intros kept; simpl.
  - intros [= <-]. split; [done | constructor].
  - unfold keeps at 1.
    destruct (f row) as [keep |] eqn:Hrow; cbn [bind]; [| done].
    destruct (filterRows f rest) as [kept' |]; cbn [bind]; [| done].
    intros [= <-]. destruct (IH kept' eq_refl) as [-> Hrest]. split.
    + by destruct keep.
    + constructor; [by exists keep | done].
Qed.

Lemma filterRows_throws f : forall rows error,
  filterRows f rows = Throw error ->
  exists before row after,
    rows = before ++ row :: after /\
    Forall (answers f) before /\ f row = Throw error.
Proof.
  induction rows as [| row rest IH]; intros error; simpl; [done |].
  destruct (f row) as [keep |] eqn:Hrow; cbn [bind].
  - destruct (filterRows f rest) as [kept' |]; cbn [bind]; [done |].
    intros [= <-].
    destruct (IH _ eq_refl) as [before [r [after [-> [Hall Hr]]]]].
    exists (row :: before), r, after.
    split; [done |]. split; [| done]. constructor; [by exists keep | done].
  - intros [= <-]. exists [], row, rest. split; [done |]. split; done.
Qed.

Lemma filter_normalized f : forall data,
  map normalizeRow (List.filter f (map normalizeRow data)) =
  List.filter f (map normalizeRow data).
Proof.
  induction data as [| row rest IH]; [done |]. simpl.
  destruct (f (normalizeRow row)); simpl;
    by rewrite ?normalizeRow_idempotent, IH.
Qed.

(** The search shows rows exactly when the filter returns on every
    normalized row, and then the normalized rows that the filter keeps, in
    their order: normalizing a second time changes nothing.  It fails
    exactly when the filter throws on a normalized row, and then with what
    the filter throws on the first such row. *)
Theorem shown_rows_are_the_kept_normalized_rows filterFunction data :
  (Forall (answers filterFunction) (normalizeDataRows data) ->
   filtered filterFunction data =
   Return (List.filter (keeps filterFunction) (normalizeDataRows data))) /\
  (forall before row after error,
     normalizeDataRows data = before ++ row :: after ->
     Forall (answers filterFunction) before ->
     filterFunction row = Throw error ->
     filtered filterFunction data = Throw error) /\
  match filtered filterFunction data with
  | Return shown =>
      Forall (answers filterFunction) (normalizeDataRows data) /\
      shown = List.filter (keeps filterFunction) (normalizeDataRows data)
  | Throw error =>
      exists before row after,
        normalizeDataRows data = before ++ row :: after /\
        Forall (answers filterFunction) before /\
        filterFunction row = Throw error
  end.
Proof.
  unfold filtered. cbv zeta. split; [| split].
  - intros Hall. rewrite (filterRows_all _ _ Hall). cbn [bind]. f_equal.
    apply filter_normalized.
  - intros before row after error Hsplit Hall Hrow. rewrite Hsplit.
    by rewrite (filterRows_first _ _ _ _ _ Hall Hrow).
  - destruct (filterRows _ _) as [kept |] eqn:Hf; cbn [bind].
    + apply filterRows_returns in Hf as [-> Hall]. split; [done |].
      apply filter_normalized.
    + by apply filterRows_throws.
Qed.

End SearchProofs.

(** ** The page *)

Module PageProofs.
Import JS Validators Page.
Import Statements Statements.OfValidators Statements.OfPage.
Import RuntimeFacts ValidatorsProofs.

(** *** Counting the rows with errors *)

Lemma add_spec s x :
  NoDup s ->
  NoDup (IndexSet.add s x) /\
  forall y, y ∈ IndexSet.add s x <-> y ∈ s \/ y = x.
Proof.
  intros Hs. unfold IndexSet.add, IndexSet.has.
  destruct (existsb (Nat.eqb x) s) eqn:E.
  - split; [done |]. intros y. split; [by left |]. intros [? | ->]; [done |].
    apply existsb_exists in E as [z [Hz Hxz]]. apply Nat.eqb_eq in Hxz.
    subst z. by apply list_elem_of_In.
  - split.
    + apply NoDup_app. split; [done |]. split; [| apply NoDup_singleton].
      intros y Hy Hyx. apply list_elem_of_singleton in Hyx. subst y.
      assert (existsb (Nat.eqb x) s = true); [| congruence].
      apply existsb_exists. exists x. split; [by apply list_elem_of_In |].
      apply Nat.eqb_refl.
    + intros y. rewrite elem_of_app, list_elem_of_singleton. done.
Qed.

Lemma from_spec items : forall acc,
  NoDup acc ->
  NoDup (fold_left IndexSet.add items acc) /\
  forall y, y ∈ fold_left IndexSet.add items acc <-> y ∈ acc \/ y ∈ items.
Proof.
  induction items as [| x items IH]; intros acc Hacc; simpl.
  - split; [done |]. intros y. rewrite elem_of_nil. tauto.
  - destruct (add_spec acc x Hacc) as [Hnd Hin].
    destruct (IH _ Hnd) as [Hnd' Hin']. split; [done |].
    intros y. rewrite Hin', Hin, elem_of_cons. tauto.
Qed.

Lemma errorRows_spec n errs :
  NoDup (errorRows n errs) /\
  forall y, y ∈ errorRows n errs <->
            (y < n)%nat /\ y ∈ map rowIndex errs.
Proof.
  unfold errorRows. split.
  - apply NoDup_ListNoDup, List.NoDup_filter, NoDup_ListNoDup, NoDup_seq.
  - intros y. rewrite list_elem_of_In, filter_In, <- list_elem_of_In.
    rewrite elem_of_seq, existsb_exists. split.
    + intros [Hy [e [He Heq]]]. apply Nat.eqb_eq in Heq. split; [lia |].
      rewrite <- Heq. apply list_elem_of_In. by apply in_map.
    + intros [Hy Hin]. split; [lia |].
      apply list_elem_of_In, in_map_iff in Hin as [e [Heq He]].
      exists e. split; [done |]. by apply Nat.eqb_eq.
Qed.

(** The error count of the summary is the number of rows of the dataset
    that have an error; it is at most the number of rows, and zero exactly
    when validation passed. *)
Theorem error_count_is_the_number_of_rows_with_errors et data res :
  validateData et data = Return res ->
  getErrorCount (errors res) =
    length (errorRows (length (default [] data)) (errors res)) /\
  (getErrorCount (errors res) <= length (default [] data))%nat /\
  (getErrorCount (errors res) = 0%nat <-> validated res = true).
Proof.
  intros Hres.
  assert (Hbound : Forall (fun e => (rowIndex e < length (default [] data))%nat)
                     (errors res)).
  { destruct data as [rows |]; [| by injection Hres as <-].
    by apply validateData_errors in Hres as [H _]. }
  set (n := length (default [] data)) in *.
  unfold getErrorCount. cbv zeta.
  destruct (from_spec (map rowIndex (errors res)) [] NoDup_nil_2)
    as [Hnd Hin].
  destruct (errorRows_spec n (errors res)) as [Hnd' Hin'].
  assert (Hperm : IndexSet.from (map rowIndex (errors res)) ≡ₚ
                  errorRows n (errors res)).
  { apply NoDup_Permutation; [done | done |]. intros y.
    unfold IndexSet.from. rewrite Hin, Hin', elem_of_nil. split.
    - intros [[] | Hy]. split; [| done].
      apply list_elem_of_In, in_map_iff in Hy as [e [<- He]].
      rewrite Forall_forall in Hbound. apply Hbound. by apply list_elem_of_In.
    - intros [_ ?]. by right. }
  split; [by rewrite Hperm | split].
  - rewrite Hperm. unfold errorRows.
    etrans; [apply List.filter_length_le | by rewrite length_seq].
  - rewrite (validated_no_errors _ _ _ Hres). split.
    + intros Hlen. apply nil_length_inv in Hlen.
      destruct (errors res) as [| e errs]; [done |]. exfalso.
      assert (rowIndex e ∈ IndexSet.from (map rowIndex (e :: errs))) as Hx.
      { unfold IndexSet.from. apply Hin. right. simpl.
        apply list_elem_of_here. }
      rewrite Hlen in Hx. by apply elem_of_nil in Hx.
    + by intros ->.
Qed.

Lemma error_count_is_the_number_of_rows_with_errors_witness :
  getErrorCount (errors resultUnidentified) =
    length (errorRows 3 (errors resultUnidentified)) /\
  (getErrorCount (errors resultUnidentified) <= 3)%nat /\
  (getErrorCount (errors resultUnidentified) = 0%nat <->
   validated resultUnidentified = true).
Proof.
  apply (error_count_is_the_number_of_rows_with_errors (js "tasks")
           (Some unidentifiedRows) resultUnidentified).
  vm_compute. reflexivity.
Defined.

End PageProofs.

(** ** The API routes *)

Module RoutesProofs.
Import JS Gemini AI Routes.
Import Statements.OfGateway Statements.OfRoutes GatewayProofs.

Ltac route_case H :=
  cbn [given andb];
  match goal with
  | |- context [match ?op with Return _ => _ | Throw _ => _ end] =>
      pose proof H as Hop; destruct op as [v |]; [left | by right]
  end.

Lemma routes_contracts {table : CaseMapping} :
  contract asks_fixes
    (js "Missing required fields: errors, data, entityType")
    (js "Failed to generate validation fixes") eq autofix /\
  contract asks_query
    (js "Missing required fields: userQuery, data, entityType")
    (js "Failed to process query edit") eq queryEdit /\
  contract asks_warnings
    (js "Missing required fields: data, entityType")
    (js "Failed to generate AI validation warnings") eq aiValidation /\
  contract asks_rules
    (js "Missing required fields: clients, workers, tasks")
    (js "Failed to generate rule suggestions") eq ruleSuggestions /\
  filter_contract
    (js "Missing required fields: userQuery, data, entityType")
    (js "Failed to process query filter") queryFilter.
Proof.
  repeat split; intros req reply.
  - unfold asks_fixes, autofix, generateValidationFixes.
    destruct (errors req) as [e |], (data req) as [d |],
      (filled (entityType req)) as [t |]; try done.
    route_case (unchecked_answer reply
      (js "Failed to parse validation fixes. Try refining your prompt.")
      (js "Failed to generate validation fixes")).
    split; [done |]. by exists v.
  - unfold asks_query, queryEdit.
    destruct (filled (userQuery req)) as [q |], (data req) as [d |],
      (filled (entityType req)) as [t |]; try done.
    route_case (checked_columns reply q d t). split; [done |]. by exists v.
  - unfold asks_warnings, aiValidation, generateAIValidationWarnings.
    destruct (data req) as [d |], (filled (entityType req)) as [t |]; try done.
    route_case (unchecked_answer reply
      (js "Failed to parse AI validation warnings. Try refining your prompt.")
      (js "Failed to generate AI validation warnings")).
    split; [done |]. by exists v.
  - unfold asks_rules, ruleSuggestions, generateRuleSuggestions.
    destruct (clients req) as [c |], (workers req) as [w |],
      (tasks req) as [t |]; try done.
    route_case (unchecked_answer reply
      (js "Failed to parse rule suggestions. Try refining your prompt.")
      (js "Failed to generate rule suggestions")).
    split; [done |]. by exists v.
  - unfold asks_query, queryFilter.
    destruct (filled (userQuery req)) as [q |], (data req) as [d |],
      (filled (entityType req)) as [t |]; try done.
    cbn [given andb]. intros _.
    destruct (generateFilter q d t reply) as [v |] eqn:Hv; [left | by right].
    split; [done |].
    destruct (generateFilter_returns _ _ _ _ _ Hv)
      as [props [f [Hans [Hf [Hne Hsame]]]]].
    exists (JObject props). split; [done |]. by exists props, f.
Qed.

Lemma answered_once reply v w : answered reply v -> answered reply w -> v = w.
Proof.
  intros [t [Ht [_ Hv]]] [t' [Ht' [_ Hw]]]. congruence.
Qed.

Ltac serve_case H :=
  cbn [given andb];
  match goal with
  | |- context [match ?op with Return _ => _ | Throw _ => _ end] =>
      pose proof H as Hop; destruct op as [w |];
      [ | destruct Hop as [_ Hop]; by edestruct Hop ]
  end.

Lemma routes_serve :
  serves asks_fixes autofix /\
  serves asks_warnings aiValidation /\
  serves asks_rules ruleSuggestions.
Proof.
  repeat split; intros req reply v Hreq Hv.
  - revert Hreq. unfold asks_fixes, autofix, generateValidationFixes.
    destruct (errors req) as [e |], (data req) as [d |],
      (filled (entityType req)) as [t |]; try done. intros _.
    serve_case (unchecked_answer reply
      (js "Failed to parse validation fixes. Try refining your prompt.")
      (js "Failed to generate validation fixes")).
    by rewrite (answered_once _ _ _ Hop Hv).
  - revert Hreq. unfold asks_warnings, aiValidation,
      generateAIValidationWarnings.
    destruct (data req) as [d |], (filled (entityType req)) as [t |];
      try done. intros _.
    serve_case (unchecked_answer reply
      (js "Failed to parse AI validation warnings. Try refining your prompt.")
      (js "Failed to generate AI validation warnings")).
    by rewrite (answered_once _ _ _ Hop Hv).
  - revert Hreq. unfold asks_rules, ruleSuggestions, generateRuleSuggestions.
    destruct (clients req) as [c |], (workers req) as [w0 |],
      (tasks req) as [t |]; try done. intros _.
    serve_case (unchecked_answer reply
      (js "Failed to parse rule suggestions. Try refining your prompt.")
      (js "Failed to generate rule suggestions")).
    by rewrite (answered_once _ _ _ Hop Hv).
Qed.

(** Each route answers 400 with its message exactly when a required
    field is missing, without regard to the provider; 200 only with what
    the provider's answer parses to; and 500 with its own message in every
    other case.  For the filter route, what it answers when the fields are
    there is stated for the requests whose columns are free of pattern
    syntax.  The three routes whose operation reads nothing of the request
    answer 200 whenever the provider's answer parses. *)
Theorem routes_keep_their_contract {table : CaseMapping} :
  (contract asks_fixes
     (js "Missing required fields: errors, data, entityType")
     (js "Failed to generate validation fixes") eq autofix /\
   contract asks_query
     (js "Missing required fields: userQuery, data, entityType")
     (js "Failed to process query edit") eq queryEdit /\
   contract asks_warnings
     (js "Missing required fields: data, entityType")
     (js "Failed to generate AI validation warnings") eq aiValidation /\
   contract asks_rules
     (js "Missing required fields: clients, workers, tasks")
     (js "Failed to generate rule suggestions") eq ruleSuggestions /\
   filter_contract
     (js "Missing required fields: userQuery, data, entityType")
     (js "Failed to process query filter") queryFilter) /\
  (serves asks_fixes autofix /\
   serves asks_warnings aiValidation /\
   serves asks_rules ruleSuggestions).
Proof. split; [exact routes_contracts | exact routes_serve]. Qed.

End RoutesProofs.

(** ** The runtime and the components on small inputs *)

Module Examples.
Import JS Validators NaturalLanguageEditor AI.
Import Statements Statements.OfValidators Statements.OfEditor.

Example StringToNumber_examples :
  StringToNumber (js "6") = of_Z 6 /\
  StringToNumber (js " 2.5 ") = of_decimal false 25 (-1) /\
  StringToNumber (js "") = S754_zero false /\
  StringToNumber (js "0x1F") = of_Z 31 /\
  StringToNumber (js "1e400") = Infinity false /\
  StringToNumber (js "-Infinity") = Infinity true /\
  StringToNumber (js "abc") = NaN /\
  StringToNumber (js "1,5") = NaN /\
  StringToNumber (js "9007199254740993") = of_Z 9007199254740992.
Proof. vm_compute. repeat split. Qed.

Example NumberToString_examples :
  NumberToString (of_Z 12) = js "12" /\
  NumberToString (StringToNumber (js "0.1")) = js "0.1" /\
  NumberToString (StringToNumber (js "-2.50")) = js "-2.5" /\
  NumberToString (StringToNumber (js "1e21")) = js "1e+21" /\
  NumberToString (StringToNumber (js "0.0000001")) = js "1e-7" /\
  NumberToString (StringToNumber (js "123456789012345678901")) =
    js "123456789012345680000" /\
  NumberToString (StringToNumber (js "0.30000000000000004")) =
    js "0.30000000000000004" /\
  NumberToString NaN = js "NaN".
Proof. vm_compute. repeat split. Qed.

Example JSON_examples :
  JSON_parse attributesText =
    Some (JObject [(js "a", JNumber (of_Z 1));
                   (js "b", JArray [JNumber (of_Z 2)])]) /\
  option_map JSON_stringify (JSON_parse (js " [1.50, true, null, [ ] ] ")) =
    Some (js "[1.5,true,null,[]]") /\
  JSON_parse (js "{a,b}") = None /\
  JSON_parse (js "[1,]") = None /\
  JSON_parse (js "01") = None /\
  JSON_parse (js "{") = None /\
  JSON_parse (js "") = None.
Proof. vm_compute. repeat split. Qed.

Example wherePattern_groups :
  option_map (fun m => map (fun i => group i (match_groups m)) [1; 2; 3; 4]%nat)
    (exec wherePattern (js "SET PriorityLevel = 5  Where GroupTag=Enterprise"))
  = Some [js "PriorityLevel"; js "5"; js "GroupTag"; js "Enterprise"] /\
  test wherePattern (js "set a=b where c=d e") = false /\
  test allPattern (js "set MaxLoadPerPhase=3") = true /\
  test allPattern (js " set MaxLoadPerPhase=3") = false.
Proof. vm_compute. repeat split. Qed.

Example phasePattern_examples :
  test phasePattern (js "1 - 2") = true /\
  test phasePattern (js "1-2") = true /\
  test phasePattern (js "1 to 2") = false /\
  test phasePattern (js "1 - 2 ") = false.
Proof. vm_compute. repeat split. Qed.

Example extractJsonBlock_example :
  extractJsonBlock (js "```json [1, 2] ``` ") = js "[1, 2]".
Proof. vm_compute. reflexivity. Qed.

(** A conditional instruction changes the rows whose GroupTag is the value
    named, whatever its case, and the new value is the text 5. *)
Example parseEditInstruction_example {table : CaseMapping} :
  parseEditInstruction (js "set PriorityLevel=5 where GroupTag=Enterprise")
    [rowOf [(js "GroupTag", text "enterprise"); (js "PriorityLevel", num 3)];
     rowOf [(js "GroupTag", text "SMB"); (js "PriorityLevel", num 1)];
     rowOf [(js "GroupTag", text "ENTERPRISE")]]
  = [ {| rowIndex := 0; field := js "PriorityLevel"; oldValue := num 3;
         newValue := text "5" |};
      {| rowIndex := 2; field := js "PriorityLevel"; oldValue := VUndefined;
         newValue := text "5" |} ].
Proof. vm_compute. reflexivity. Qed.

(** A value with commas in it has the replacement text appended. *)
Example parseEditInstruction_list_example {table : CaseMapping} :
  parseEditInstruction (js "set RequestedTaskIDs=T9")
    [rowOf [(js "RequestedTaskIDs", text "T1,T2")]]
  = [ {| rowIndex := 0; field := js "RequestedTaskIDs";
         oldValue := text "T1,T2"; newValue := text "T1,T2,T9" |} ].
Proof. vm_compute. reflexivity. Qed.

(** What a row inherits is read like a cell: the condition is tried on the
    text of the function [Object], which no value of an instruction
    equals, and the old value of a change is the function. *)
Example parseEditInstruction_inherited_example {table : CaseMapping} :
  parseEditInstruction (js "set PriorityLevel=5 where constructor=undefined")
    [rowOf [(js "PriorityLevel", num 3)]] = [] /\
  parseEditInstruction (js "set toString=5")
    [rowOf [(js "PriorityLevel", num 3)]]
  = [ {| rowIndex := 0; field := js "toString";
         oldValue := VBuiltin ToStringMethod; newValue := text "5" |} ] /\
  ToString (VBuiltin ObjectConstructor) =
    js "function Object() { [native code] }" /\
  ToString (VBuiltin ObjectPrototype) = js "[object Object]".
Proof. vm_compute. repeat split. Qed.

(** An assignment makes a cell under a name that the row inherits, but not
    under [__proto__]. *)
Example setProp_examples :
  getProp (setProp (rowOf [(js "A", num 1)]) (js "constructor") (text "x"))
    (js "constructor") = text "x" /\
  setProp (rowOf [(js "A", num 1)]) (js "__proto__") (text "x") =
    rowOf [(js "A", num 1)] /\
  getProp (setProp (rowOf [(js "A", num 1)]) (js "__proto__") (text "x"))
    (js "__proto__") = VBuiltin ObjectPrototype /\
  getProp (setProp (rowOf [(js "__proto__", num 1)]) (js "__proto__")
             (text "x")) (js "__proto__") = text "x".
Proof. vm_compute. repeat split. Qed.

Example validateData_tasks_example :
  validateData (js "tasks")
    (Some [rowOf [(js "TaskID", text "T1"); (js "Duration", num 2);
                  (js "PreferredPhases", text "1 - 2")];
           rowOf [(js "TaskID", text "T2"); (js "Duration", text "0");
                  (js "PreferredPhases", text "1 to 2")]])
  = Return
      {| validated := false;
         errors :=
           [ {| Validators.rowIndex := 1; Validators.field := js "Duration";
                message := js "Duration must be a number greater than or equal to 1" |};
             {| Validators.rowIndex := 1;
                Validators.field := js "PreferredPhases";
                message := js "PreferredPhases must be in format "
                           ++ quoted (js "start - end") ++ js " (e.g., "
                           ++ quoted (js "1 - 2") ++ js ")" |} ] |}.
Proof. vm_compute. reflexivity. Qed.

End Examples.
